(** * happy-cli daemon: session registry, spawner, startup and optimistic updates

    A shallow embedding of the daemon's in-memory session tracking
    ([src/daemon/run.ts]: [onHappySessionWebhook], [spawnSession],
    [stopSession], [onChildExited], the head of [startDaemon]) and of the
    optimistic-concurrency writers of [src/api/apiSession.ts]
    ([updateMetadata], [updateAgentState]).

    JavaScript values are modelled as follows.
    - numbers that hold process ids or versions are [Z] (integers below
      2^53, where JS numbers are exact);
    - strings are [string] (the ASCII fragment);
    - an optional field or a [T | undefined] is an [option];
    - a [Map] is an insertion-ordered association list ([JsMap] below):
      iteration order is observable in [stopSession];
    - an object used as a dictionary of environment variables is a
      [gmap string string];
    - promises, timers, the file system and child processes are explicit
      state; the reactions of the operating system are inputs ([Os]);
    - the event loop runs one handler at a time, so a run of the daemon is
      a sequence of handler calls ([Event], [run]). *)

From Stdlib Require Import ZArith Lia Ascii String.
From stdpp Require Import base option list strings gmap.

Local Open Scope Z_scope.

(** ** Insertion-ordered maps ([Map<K, V>]) *)

Module JsMap.
Section Defs.
Context {K V : Type} `{EqDecision K}.

(** [m.get(k)] *)
Fixpoint get (k : K) (m : list (K * V)) : option V :=
  match m with
  | [] => None
  | (k', v) :: m' => if decide (k' = k) then Some v else get k m'
  end.

(** [m.set(k, v)]: an existing key keeps its position, a new key goes last. *)
Fixpoint set (k : K) (v : V) (m : list (K * V)) : list (K * V) :=
  match m with
  | [] => [(k, v)]
  | (k', v') :: m' =>
      if decide (k' = k) then (k, v) :: m' else (k', v') :: set k v m'
  end.

(** [m.delete(k)] *)
Fixpoint delete (k : K) (m : list (K * V)) : list (K * V) :=
  match m with
  | [] => []
  | (k', v') :: m' =>
      if decide (k' = k) then delete k m' else (k', v') :: delete k m'
  end.

(** [Array.from(m.keys())] *)
Definition keys (m : list (K * V)) : list K := fst <$> m.
End Defs.
End JsMap.

(** ** JavaScript string and number helpers used by the daemon *)

Module Js.

(** Truthiness of a string: the empty string is falsy. *)
Definition truthy (s : string) : bool :=
  match s with EmptyString => false | String _ _ => true end.

(** Truthiness of an optional string field ([undefined] is falsy). *)
Definition truthy_opt (o : option string) : bool :=
  match o with Some s => truthy s | None => false end.

(** [s.startsWith(prefix)] *)
Definition startsWith (s prefix : string) : bool := String.prefix prefix s.

(** [s.slice(n)] *)
Fixpoint slice (n : nat) (s : string) : string :=
  match n, s with
  | O, _ => s
  | S n', String _ s' => slice n' s'
  | S _, EmptyString => EmptyString
  end.

(** [s.replace(pat, rep)] with a string pattern: the first occurrence only. *)
Fixpoint replace (pat rep s : string) : string :=
  if String.prefix pat s then rep +:+ slice (String.length pat) s
  else match s with
       | EmptyString => EmptyString
       | String c s' => String c (replace pat rep s')
       end.

Definition code (c : ascii) : Z := Z.of_N (Ascii.N_of_ascii c).

(** White space skipped by [parseInt] (TAB, LF, VT, FF, CR, SP). *)
Definition is_white (c : ascii) : bool :=
  let n := code c in ((9 <=? n) && (n <=? 13)) || (n =? 32).

Fixpoint trimStart (s : string) : string :=
  match s with
  | String c s' => if is_white c then trimStart s' else s
  | EmptyString => EmptyString
  end.

(** The value of [c] as a digit in the given radix, if it is one. *)
Definition digit_value (radix : Z) (c : ascii) : option Z :=
  let n := code c in
  let v := if (48 <=? n) && (n <=? 57) then Some (n - 48)
           else if (97 <=? n) && (n <=? 122) then Some (n - 87)
           else if (65 <=? n) && (n <=? 90) then Some (n - 55)
           else None in
  match v with
  | Some x => if x <? radix then Some x else None
  | None => None
  end.

(** The longest prefix of digits, as a number; [acc] is [None] until a
    digit has been read. *)
Fixpoint parse_digits (radix : Z) (acc : option Z) (s : string) : option Z :=
  match s with
  | EmptyString => acc
  | String c s' =>
      match digit_value radix c with
      | Some v => parse_digits radix (Some (default 0 acc * radix + v)) s'
      | None => acc
      end
  end.

(** The integer held by the double nearest to the integer [n], ties going
    to the even significand: [n] itself when it is smaller than 2^53 in
    absolute value; [None] when the nearest double is an infinity. *)
Definition toDouble (n : Z) : option Z :=
  let m := Z.abs n in
  if m <? 2 ^ 53 then Some n
  else
    let e := Z.log2 m - 52 in
    let q := Z.shiftr m e in
    let r := m - Z.shiftl q e in
    let half := 2 ^ (e - 1) in
    let q' := if (half <? r) || ((r =? half) && Z.odd q) then q + 1 else q in
    let v := Z.shiftl q' e in
    if 2 ^ 1024 <=? v then None else Some (Z.sgn n * v).

(** [parseInt(s)] without a radix argument.  The result is a double: the
    integer the digits spell, rounded by [toDouble].  [None] is a result
    that is [===] to no integer: [NaN] when there is no digit, an infinity
    when the digits leave the range of the doubles. *)
Definition parseInt (s : string) : option Z :=
  let s1 := trimStart s in
  let '(sign, s2) :=
    match s1 with
    | String c r =>
        if Ascii.eqb c "-" then (-1, r)
        else if Ascii.eqb c "+" then (1, r)
        else (1, s1)
    | EmptyString => (1, s1)
    end in
  let '(radix, s3) :=
    if String.prefix "0x" s2 || String.prefix "0X" s2
    then (16, slice 2 s2) else (10, s2) in
  (Z.mul sign <$> parse_digits radix None s3) ≫= toDouble.

(** [pid === n] for a number [pid] and the result of [parseInt]. *)
Definition num_eq (pid : Z) (n : option Z) : bool :=
  match n with Some v => bool_decide (pid = v) | None => false end.

(** Is every character a decimal digit? *)
Fixpoint all_digits (s : string) : bool :=
  match s with
  | EmptyString => true
  | String c s' => (48 <=? code c) && (code c <=? 57) && all_digits s'
  end.

Definition digit_char (d : Z) : ascii := Ascii.ascii_of_N (Z.to_N (48 + d)).

(** Decimal digits of a non-negative integer, most significant first. *)
Fixpoint digits (fuel : nat) (n : Z) (acc : string) : string :=
  match fuel with
  | O => acc
  | S fuel' =>
      let acc' := String (digit_char (n mod 10)) acc in
      if n <? 10 then acc' else digits fuel' (n / 10) acc'
  end.

(** The decimal digits of an integer, with its sign.  This is [String(n)]
    / [`${n}`] for an integer below 2^53 in absolute value (a larger
    number is printed with the fewest digits that give its double
    back). *)
Definition toString (n : Z) : string :=
  if n <? 0 then String "-" (digits (S (Z.to_nat (Z.log2 (- n)))) (- n) "")
  else digits (S (Z.to_nat (Z.log2 n))) n "".

End Js.

(** ** The daemon's session tracking ([src/daemon/run.ts]) *)

Module Daemon.

(** [TrackedSession.startedBy]: ['daemon'] or
    ['happy directly - likely by user from terminal']. *)
Inductive StartedBy := ByDaemon | ByHappyDirectly.

Definition startedBy_text (b : StartedBy) : string :=
  match b with
  | ByDaemon => "daemon"
  | ByHappyDirectly => "happy directly - likely by user from terminal"
  end.

(** The session's self-description; [hostPid] is the only field the daemon
    inspects, [path] and [host] stand for the rest of the payload. *)
Record Metadata := {
  path : string;
  host : string;
  hostPid : option Z
}.

(** Modelled from the spec: the declaration of [TrackedSession]
    ([src/daemon/types.ts]) is not among the sources.  The fields are
    those of the spec's TrackedSession, under the names that [run.ts]
    reads and writes. *)
Record TrackedSession := {
  startedBy : StartedBy;
  happySessionId : option string;
  happySessionMetadataFromLocalWebhook : option Metadata;
  pid : Z;
  childProcess : option Z;   (* the owned child handle, named by its pid *)
  directoryCreated : option bool;
  message : option string
}.

Inductive Agent := Claude | Codex.

(** Modelled from the spec: the declarations of [SpawnSessionOptions] and
    [SpawnSessionResult] ([src/modules/common/registerCommonHandlers.ts])
    are not among the sources.  The options have the fields that
    [spawnSession] reads; the result is the spec's SpawnResult. *)
Record SpawnSessionOptions := {
  directory : string;
  sessionId : option string;
  machineId : option string;
  approvedNewDirectoryCreation : option bool;
  agent : option Agent;
  token : option string;
  environmentVariables : option (gmap string string);
  resumeClaudeSessionId : option string;
  forkSession : option bool
}.

Inductive SpawnSessionResult :=
| Success (sessionId : option string)
| Error (errorMessage : string)
| RequestToApproveDirectoryCreation (directory : string).

(** What the daemon does to the outside world, in order. *)
Inductive Effect :=
| FsMkdir (directory : string) (recursive : bool)
| TmpDirSync (name : string)
| FsWriteFile (file content : string)
| SpawnHappyCLI (args : list string) (cwd : string) (detached : bool)
    (env : gmap string string)
| ChildKill (child : Z) (signal : string) (threw : bool)
| ProcessKill (target : Z) (signal : string) (threw : bool).

(** The promise returned by a [spawnSession] call that reached the
    awaiter stage, with the timer its closure owns. *)
Record SpawnPromise := {
  settled : option SpawnSessionResult;
  timerArmed : bool;
  awaitedPid : Z
}.

Record State := {
  pidToTrackedSession : list (Z * TrackedSession);
  pidToAwaiter : list (Z * nat);     (* pid -> the awaiting spawn call *)
  spawnPromises : list SpawnPromise; (* indexed by spawn call *)
  directories : list string;         (* the directories that exist *)
  effects : list Effect
}.

Definition initial (dirs : list string) : State :=
  {| pidToTrackedSession := []; pidToAwaiter := []; spawnPromises := [];
     directories := dirs; effects := [] |}.

Definition with_sessions (m : list (Z * TrackedSession)) (d : State) : State :=
  {| pidToTrackedSession := m; pidToAwaiter := pidToAwaiter d;
     spawnPromises := spawnPromises d; directories := directories d;
     effects := effects d |}.

Definition with_awaiters (a : list (Z * nat)) (d : State) : State :=
  {| pidToTrackedSession := pidToTrackedSession d; pidToAwaiter := a;
     spawnPromises := spawnPromises d; directories := directories d;
     effects := effects d |}.

Definition with_promises (ps : list SpawnPromise) (d : State) : State :=
  {| pidToTrackedSession := pidToTrackedSession d;
     pidToAwaiter := pidToAwaiter d; spawnPromises := ps;
     directories := directories d; effects := effects d |}.

Definition with_directories (ds : list string) (d : State) : State :=
  {| pidToTrackedSession := pidToTrackedSession d;
     pidToAwaiter := pidToAwaiter d; spawnPromises := spawnPromises d;
     directories := ds; effects := effects d |}.

Definition emit (e : Effect) (d : State) : State :=
  {| pidToTrackedSession := pidToTrackedSession d;
     pidToAwaiter := pidToAwaiter d; spawnPromises := spawnPromises d;
     directories := directories d; effects := effects d ++ [e] |}.

(** [getCurrentChildren] *)
Definition getCurrentChildren (d : State) : list TrackedSession :=
  snd <$> pidToTrackedSession d.

(** [resolve(r)] on a promise: only the first resolution counts. *)
Definition resolve (r : SpawnSessionResult) (p : SpawnPromise) : SpawnPromise :=
  match settled p with
  | Some _ => p
  | None => {| settled := Some r; timerArmed := timerArmed p;
               awaitedPid := awaitedPid p |}
  end.

(** [clearTimeout(timeout)] *)
Definition clearTimeout (p : SpawnPromise) : SpawnPromise :=
  {| settled := settled p; timerArmed := false; awaitedPid := awaitedPid p |}.

(** The awaiter closure registered by spawn call [c], applied to
    [completedSession]. *)
Definition awaiter (c : nat) (completedSession : TrackedSession) (d : State)
  : State :=
  with_promises
    (alter (fun p => resolve (Success (happySessionId completedSession))
                       (clearTimeout p)) c (spawnPromises d)) d.

Definition timeoutMessage (p : Z) : string :=
  "Session webhook timeout for PID " +:+ Js.toString p.

(** The 15 second timer of spawn call [c] fires; a cleared timer or one
    that has fired already does nothing. *)
Definition fireTimeout (c : nat) (d : State) : State :=
  match spawnPromises d !! c with
  | Some p =>
      if timerArmed p then
        let d1 := with_awaiters (JsMap.delete (awaitedPid p) (pidToAwaiter d)) d in
        with_promises
          (<[c := resolve (Error (timeoutMessage (awaitedPid p)))
                    (clearTimeout p)]> (spawnPromises d1)) d1
      else d
  | None => d
  end.

(** The outcome of spawn call [c] as its caller sees it. *)
Definition outcome (c : nat) (d : State) : option SpawnSessionResult :=
  p ← spawnPromises d !! c; settled p.

(** [onHappySessionWebhook(sessionId, sessionMetadata)] *)
Definition onHappySessionWebhook (sessionId : string)
    (sessionMetadata : Metadata) (d : State) : State :=
  match hostPid sessionMetadata with
  | None => d
  | Some p =>
      if bool_decide (p = 0) then d else
      match JsMap.get p (pidToTrackedSession d) with
      | Some existingSession =>
          match startedBy existingSession with
          | ByDaemon =>
              let existingSession' :=
                {| startedBy := startedBy existingSession;
                   happySessionId := Some sessionId;
                   happySessionMetadataFromLocalWebhook := Some sessionMetadata;
                   pid := pid existingSession;
                   childProcess := childProcess existingSession;
                   directoryCreated := directoryCreated existingSession;
                   message := message existingSession |} in
              let d1 :=
                with_sessions
                  (JsMap.set p existingSession' (pidToTrackedSession d)) d in
              match JsMap.get p (pidToAwaiter d1) with
              | Some c =>
                  awaiter c existingSession'
                    (with_awaiters (JsMap.delete p (pidToAwaiter d1)) d1)
              | None => d1
              end
          | ByHappyDirectly => d
          end
      | None =>
          let trackedSession :=
            {| startedBy := ByHappyDirectly;
               happySessionId := Some sessionId;
               happySessionMetadataFromLocalWebhook := Some sessionMetadata;
               pid := p;
               childProcess := None;
               directoryCreated := None;
               message := None |} in
          with_sessions (JsMap.set p trackedSession (pidToTrackedSession d)) d
      end
  end.

(** The entry of a daemon-spawned session once the webhook has reported
    [sessionId] and [md] for it. *)
Definition reported (sessionId : string) (md : Metadata) (s : TrackedSession)
  : TrackedSession :=
  {| startedBy := startedBy s;
     happySessionId := Some sessionId;
     happySessionMetadataFromLocalWebhook := Some md;
     pid := pid s;
     childProcess := childProcess s;
     directoryCreated := directoryCreated s;
     message := message s |}.

(** The entry registered for a session that the daemon did not spawn. *)
Definition external (sessionId : string) (md : Metadata) (p : Z)
  : TrackedSession :=
  {| startedBy := ByHappyDirectly;
     happySessionId := Some sessionId;
     happySessionMetadataFromLocalWebhook := Some md;
     pid := p;
     childProcess := None;
     directoryCreated := None;
     message := None |}.

(** [onChildExited(pid)] *)
Definition onChildExited (p : Z) (d : State) : State :=
  with_sessions (JsMap.delete p (pidToTrackedSession d)) d.


(** *** Spawning *)

(** The error thrown by [fs.mkdir]. *)
Record MkdirError := {
  code : string;
  errorMessage : string;   (* [mkdirError.message] *)
  errorText : string       (* [String(mkdirError)] *)
}.

(** What [spawnHappyCLI] does: it throws, or returns a child process
    whose [pid] may be missing. *)
Inductive Launch :=
| LaunchThrows (thrown : string)
| LaunchChild (childPid : option Z).

(** The reactions of the operating system to one [spawnSession] call. *)
Record Os := {
  process_env : gmap string string;
  mkdir : option MkdirError;           (* [None]: [fs.mkdir] succeeds *)
  tmp_dirSync : string + string;       (* the directory name, or the error thrown *)
  launch : Launch
}.

(** An async function either returns a value or hands out promise [c]. *)
Inductive SpawnReturn :=
| Returned (r : SpawnSessionResult)
| Awaiting (c : nat).

Definition mkdirErrorMessage (directory : string) (e : MkdirError) : string :=
  let errorMessage0 :=
    "Unable to create directory at '" +:+ directory +:+ "'. " in
  if bool_decide (code e = "EACCES") then
    errorMessage0 +:+ "Permission denied. You don't have write access to create a folder at this location. Try using a different path or check your permissions."
  else if bool_decide (code e = "ENOTDIR") then
    errorMessage0 +:+ "A file already exists at this path or in the parent path. Cannot create a directory here. Please choose a different location."
  else if bool_decide (code e = "ENOSPC") then
    errorMessage0 +:+ "No space left on device. Your disk is full. Please free up some space and try again."
  else if bool_decide (code e = "EROFS") then
    errorMessage0 +:+ "The file system is read-only. Cannot create directories here. Please choose a writable location."
  else
    errorMessage0 +:+ "System error: "
      +:+ (if Js.truthy (errorMessage e) then errorMessage e else errorText e)
      +:+ ". Please verify the path is valid and you have the necessary permissions.".

(** [path.join(dir, file)] for a normalised [dir]. *)
Definition join (dir file : string) : string := dir +:+ "/" +:+ file.

(** The object spread [{...base, ...over}]: keys of [over] win. *)
Definition spread (base over : gmap string string) : gmap string string :=
  over ∪ base.

(** The credential material of the call: [authEnv], or the error thrown
    while preparing it. *)
Definition resolveAuthEnv (os : Os) (options : SpawnSessionOptions) (d : State)
  : State * (string + gmap string string) :=
  if Js.truthy_opt (token options) then
    match agent options with
    | Some Codex =>
        match tmp_dirSync os with
        | inl codexHomeDir =>
            (emit (FsWriteFile (join codexHomeDir "auth.json")
                     (default "" (token options)))
               (emit (TmpDirSync codexHomeDir) d),
             inr {[ "CODEX_HOME" := codexHomeDir ]})
        | inr thrown => (d, inl thrown)
        end
    | _ => (d, inr {[ "CLAUDE_CODE_OAUTH_TOKEN" := default "" (token options) ]})
    end
  else (d, inr ∅).

(** [options.environmentVariables || {}] *)
Definition userEnv (options : SpawnSessionOptions) : gmap string string :=
  default ∅ (environmentVariables options).

(** The environment handed to the child:
    [{...process.env, ...userEnv, ...authEnv}]. *)
Definition childEnv (os : Os) (options : SpawnSessionOptions)
    (authEnv : gmap string string) : gmap string string :=
  spread (spread (process_env os) (userEnv options)) authEnv.

Definition cliArgs (options : SpawnSessionOptions) : list string :=
  [ match agent options with Some Claude => "claude" | _ => "codex" end;
    "--happy-starting-mode"; "remote"; "--started-by"; "daemon" ]
  ++ (if Js.truthy_opt (resumeClaudeSessionId options)
      then ["--resume"; default "" (resumeClaudeSessionId options)] else [])
  ++ (if default false (forkSession options) then ["--fork-session"] else []).

Definition createdMessage (directory : string) : string :=
  "The path '" +:+ directory
    +:+ "' did not exist. We created a new folder and spawned a new session there.".

Definition noPidMessage : string :=
  "Failed to spawn Happy process - no PID returned".

(** The [try] block of [spawnSession]: everything after the directory
    exists. *)
Definition launchSession (os : Os) (options : SpawnSessionOptions)
    (directoryCreated0 : bool) (d : State) : State * SpawnReturn :=
  match resolveAuthEnv os options d with
  | (d1, inl thrown) =>
      (d1, Returned (Error ("Failed to spawn session: " +:+ thrown)))
  | (d1, inr authEnv) =>
      let d2 :=
        emit (SpawnHappyCLI (cliArgs options) (directory options) true
                (childEnv os options authEnv)) d1 in
      match launch os with
      | LaunchThrows thrown =>
          (d2, Returned (Error ("Failed to spawn session: " +:+ thrown)))
      | LaunchChild happyProcess =>
          match happyProcess with
          | Some p =>
              if bool_decide (p = 0) then
                (d2, Returned (Error noPidMessage))
              else
                let trackedSession :=
                  {| startedBy := ByDaemon;
                     happySessionId := None;
                     happySessionMetadataFromLocalWebhook := None;
                     pid := p;
                     childProcess := Some p;
                     directoryCreated := Some directoryCreated0;
                     message := if directoryCreated0
                                then Some (createdMessage (directory options))
                                else None |} in
                let d3 :=
                  with_sessions
                    (JsMap.set p trackedSession (pidToTrackedSession d2)) d2 in
                let c := length (spawnPromises d3) in
                let d4 :=
                  with_promises
                    (spawnPromises d3 ++
                       [{| settled := None; timerArmed := true;
                           awaitedPid := p |}]) d3 in
                (with_awaiters (JsMap.set p c (pidToAwaiter d4)) d4, Awaiting c)
          | None =>
              (d2, Returned (Error noPidMessage))
          end
      end
  end.

(** [spawnSession(options)] *)
Definition spawnSession (os : Os) (options : SpawnSessionOptions) (d : State)
  : State * SpawnReturn :=
  let approved := default true (approvedNewDirectoryCreation options) in
  if bool_decide (directory options ∈ directories d) then
    launchSession os options false d
  else if negb approved then
    (d, Returned (RequestToApproveDirectoryCreation (directory options)))
  else
    let d1 := emit (FsMkdir (directory options) true) d in
    match mkdir os with
    | None =>
        launchSession os options true
          (with_directories (directories d1 ++ [directory options]) d1)
    | Some mkdirError =>
        (d1, Returned (Error (mkdirErrorMessage (directory options) mkdirError)))
    end.

(** The entry [spawnSession] registers for a child with pid [p]. *)
Definition spawned (p : Z) (created : bool) (dir : string) : TrackedSession :=
  {| startedBy := ByDaemon;
     happySessionId := None;
     happySessionMetadataFromLocalWebhook := None;
     pid := p;
     childProcess := Some p;
     directoryCreated := Some created;
     message := if created then Some (createdMessage dir) else None |}.

(** The promise a spawn call for pid [p] starts with. *)
Definition pending (p : Z) : SpawnPromise :=
  {| settled := None; timerArmed := true; awaitedPid := p |}.

(** The options with the approval flag replaced. *)
Definition withApproval (b : option bool) (o : SpawnSessionOptions)
  : SpawnSessionOptions :=
  {| directory := directory o; sessionId := sessionId o;
     machineId := machineId o; approvedNewDirectoryCreation := b;
     agent := agent o; token := token o;
     environmentVariables := environmentVariables o;
     resumeClaudeSessionId := resumeClaudeSessionId o;
     forkSession := forkSession o |}.

(** The credential material of a call; it does not depend on the state
    of the daemon. *)
Definition authMaterial (os : Os) (options : SpawnSessionOptions)
  : string + gmap string string :=
  (resolveAuthEnv os options (initial [])).2.

(** *** Stopping *)

(** The test of the loop in [stopSession]. *)
Definition matches (sessionId : string) (p : Z) (session : TrackedSession)
  : bool :=
  bool_decide (happySessionId session = Some sessionId)
  || (Js.startsWith sessionId "PID-"
      && Js.num_eq p (Js.parseInt (Js.replace "PID-" "" sessionId))).

(** The first entry, in iteration order, that passes the test. *)
Fixpoint firstMatch (sessionId : string) (entries : list (Z * TrackedSession))
  : option (Z * TrackedSession) :=
  match entries with
  | [] => None
  | (p, session) :: rest =>
      if matches sessionId p session then Some (p, session)
      else firstMatch sessionId rest
  end.

(** [stopSession(sessionId)]; [killThrows] tells whether delivering the
    signal throws (the exception is caught and logged). *)
Definition stopSession (killThrows : bool) (sessionId : string) (d : State)
  : bool * State :=
  match firstMatch sessionId (pidToTrackedSession d) with
  | Some (p, session) =>
      let d1 :=
        match startedBy session, childProcess session with
        | ByDaemon, Some child => emit (ChildKill child "SIGTERM" killThrows) d
        | _, _ => emit (ProcessKill p "SIGTERM" killThrows) d
        end in
      (true, with_sessions (JsMap.delete p (pidToTrackedSession d1)) d1)
  | None => (false, d)
  end.

(** *** The daemon as a reactive system *)

(** What can happen to the daemon, one handler run at a time (the event
    loop never interleaves two handlers). *)
Inductive Event :=
| Webhook (sessionId : string) (md : Metadata)
| Spawn (os : Os) (options : SpawnSessionOptions)
| TimerFires (c : nat)
| ChildExited (p : Z)
| Stop (killThrows : bool) (sessionId : string).

Definition step (d : State) (e : Event) : State :=
  match e with
  | Webhook sessionId md => onHappySessionWebhook sessionId md d
  | Spawn os options => (spawnSession os options d).1
  | TimerFires c => fireTimeout c d
  | ChildExited p => onChildExited p d
  | Stop killThrows sessionId => (stopSession killThrows sessionId d).2
  end.

Definition run (es : list Event) (d : State) : State := foldl step d es.

(** Is [e] a self-report for process [p]? *)
Definition reports (p : Z) (e : Event) : bool :=
  match e with
  | Webhook _ md => bool_decide (hostPid md = Some p)
  | _ => false
  end.

(** Is [e] the expiry of the timer of spawn call [c]? *)
Definition expires (c : nat) (e : Event) : bool :=
  match e with
  | TimerFires c' => bool_decide (c' = c)
  | _ => false
  end.

(** Between the events [es] no webhook reports [p] and the timer of call
    [c] does not fire. *)
Definition quiet (p : Z) (c : nat) (es : list Event) : bool :=
  forallb (fun e => negb (reports p e) && negb (expires c e)) es.

(** Every registered awaiter belongs to a spawn call that waits for the
    pid it is registered under. *)
Definition consistent (d : State) : bool :=
  forallb
    (fun '(q, c) =>
       match spawnPromises d !! c with
       | Some pr => bool_decide (awaitedPid pr = q)
       | None => false
       end)
    (pidToAwaiter d).

(** What the daemon keeps true about a spawn call [c] for pid [p] that is
    still waiting: the registry of awaiters is consistent, the promise is
    pending with its timer armed, and an entry for [p] carries no session
    id. *)
Definition waiting (c : nat) (p : Z) (d : State) : Prop :=
  consistent d = true
  ∧ spawnPromises d !! c = Some (pending p)
  ∧ ∀ s, JsMap.get p (pidToTrackedSession d) = Some s →
         startedBy s = ByDaemon ∧ happySessionId s = None.

(** Does the call get as far as [spawnHappyCLI]?  The directory exists or
    is created, and the credential material is prepared without an
    exception. *)
Definition reachesLaunch (os : Os) (options : SpawnSessionOptions) (d : State)
  : bool :=
  (bool_decide (directory options ∈ directories d)
   || (default true (approvedNewDirectoryCreation options)
       && bool_decide (mkdir os = None)))
  && match (resolveAuthEnv os options d).2 with
     | inl _ => false
     | inr _ => true
     end.

(** The entries that [stopSession sessionId] would accept. *)
Definition matching (sessionId : string) (d : State)
  : list (Z * TrackedSession) :=
  filter (fun e => matches sessionId e.1 e.2 = true) (pidToTrackedSession d).

End Daemon.

(** ** The head of [startDaemon] ([src/daemon/run.ts]) *)

Module Lifecycle.

Record DaemonLocallyPersistedState := {
  pid : Z;
  httpPort : Z;
  startTime : string;
  startedWithCliVersion : string;
  lastHeartbeat : option string;
  daemonLogPath : string
}.

(** The calls [startDaemon] makes, in order. *)
Inductive Call :=
| InstallHandlers
| CheckRunningVersion
| StopDaemon
| AcquireDaemonLock (maxAttempts delayMs : Z)
| StartCaffeinate
| AuthAndSetupMachine
| StartDaemonControlServer
| WriteDaemonState (s : DaemonLocallyPersistedState)
| RegisterMachine
| ConsoleLog (text : string)
| ProcessExit (exitCode : Z).

(** The machine the daemon starts on. *)
Record Host := {
  stateFile : option DaemonLocallyPersistedState; (* daemon.state.json, if readable *)
  lockFile : option Z;                            (* the lock marker and the pid in it *)
  calls : list Call
}.

(** What is fixed for one daemon process. *)
Record Setup := {
  selfPid : Z;
  currentCliVersion : string;   (* [packageJson.version] *)
  authThrows : bool;
  controlPort : option Z;       (* [None]: the control server fails to start *)
  now : string;
  logFilePath : string;
  registerThrows : bool
}.

Inductive Outcome :=
| Exited (exitCode : Z)
| AwaitingShutdown.

Definition call (c : Call) (h : Host) : Host :=
  {| stateFile := stateFile h; lockFile := lockFile h; calls := calls h ++ [c] |}.

(** Modelled from the spec: [isDaemonRunningCurrentlyInstalledHappyVersion]
    of [src/daemon/controlClient.ts], which is not among the sources.  It
    reads the persisted state (absent or unparseable means that no daemon
    runs) and compares its [startedWithCliVersion] with the version of this
    process. *)
Definition isDaemonRunningCurrentlyInstalledHappyVersion (s : Setup) (h : Host)
  : bool :=
  match stateFile h with
  | Some st => bool_decide (startedWithCliVersion st = currentCliVersion s)
  | None => false
  end.

(** Modelled from the spec: [stopDaemon] of [src/daemon/controlClient.ts],
    which is not among the sources.  A running daemon is stopped; its
    shutdown clears the persisted state and releases the lock. *)
Definition stopDaemon (h : Host) : Host :=
  match stateFile h with
  | Some _ => {| stateFile := None; lockFile := None; calls := calls h |}
  | None => h
  end.

(** Modelled from the spec: [acquireDaemonLock] of [src/persistence.ts],
    which is not among the sources.  The marker is created exclusively and
    holds the owner's pid; when it exists already all attempts fail and the
    result is [null] ([false] here). *)
Definition acquireDaemonLock (s : Setup) (h : Host) : bool * Host :=
  match lockFile h with
  | Some _ => (false, h)
  | None =>
      (true, {| stateFile := stateFile h; lockFile := Some (selfPid s);
                calls := calls h |})
  end.

(** Modelled from the spec: [writeDaemonState] of [src/persistence.ts],
    which is not among the sources.  It replaces the persisted record. *)
Definition writeDaemonState (st : DaemonLocallyPersistedState) (h : Host)
  : Host :=
  {| stateFile := Some st; lockFile := lockFile h; calls := calls h |}.

(** The [try] block of [startDaemon] up to the wait for a shutdown request;
    an exception anywhere in it ends the process with code 1. *)
Definition startup (s : Setup) (h : Host) : Host * Outcome :=
  let h1 := call StartCaffeinate h in
  let h2 := call AuthAndSetupMachine h1 in
  if authThrows s then (call (ProcessExit 1) h2, Exited 1) else
  let h3 := call StartDaemonControlServer h2 in
  match controlPort s with
  | None => (call (ProcessExit 1) h3, Exited 1)
  | Some port =>
      let fileState :=
        {| pid := selfPid s; httpPort := port; startTime := now s;
           startedWithCliVersion := currentCliVersion s;
           lastHeartbeat := None; daemonLogPath := logFilePath s |} in
      let h4 := writeDaemonState fileState (call (WriteDaemonState fileState) h3) in
      let h5 := call RegisterMachine h4 in
      if registerThrows s then (call (ProcessExit 1) h5, Exited 1)
      else (h5, AwaitingShutdown)
  end.

(** [startDaemon()] up to the wait for a shutdown request. *)
Definition startDaemon (s : Setup) (h : Host) : Host * Outcome :=
  let h0 := call InstallHandlers h in
  let h1 := call CheckRunningVersion h0 in
  let runningDaemonVersionMatches :=
    isDaemonRunningCurrentlyInstalledHappyVersion s h1 in
  if negb runningDaemonVersionMatches then
    let h2 := stopDaemon (call StopDaemon h1) in
    let h3 := call (AcquireDaemonLock 5 200) h2 in
    match acquireDaemonLock s h3 with
    | (false, h4) => (call (ProcessExit 0) h4, Exited 0)
    | (true, h4) => startup s h4
    end
  else
    let h2 := call (ConsoleLog "Daemon already running with matching version") h1 in
    (call (ProcessExit 0) h2, Exited 0).

End Lifecycle.

(** ** Optimistic-concurrency writes ([src/api/apiSession.ts]) *)

Module ApiSession.

(** What [decrypt(key, variant, decodeBase64(b))] comes to: a value;
    [null] when the blob does not decrypt; or an exception, which the
    legacy variant raises on a bundle shorter than its nonce and
    [JSON.parse] on a plaintext that is no JSON. *)
Inductive Decryption (V : Type) :=
| Decrypted (v : option V)
| DecryptThrows.
Arguments Decrypted {V} v.
Arguments DecryptThrows {V}.

Section Client.

(** [M] and [A] are the plaintexts ([Metadata], [AgentState]); [Blob] is
    what crosses the wire.  The ciphers are external collaborators:
    [encryptM v] is [encodeBase64(encrypt(key, variant, v))] and
    [decryptM b] is [decrypt(key, variant, decodeBase64(b))] for a string
    [b]; [nonempty b] is the truthiness of the string [b]. *)
Context {M A Blob : Type}.
Variable encryptM : M -> Blob.
Variable decryptM : Blob -> Decryption M.
Variable encryptA : A -> Blob.
Variable decryptA : Blob -> Decryption A.
Variable nonempty : Blob -> bool.
(** The empty object [{}] as an agent state. *)
Variable emptyAgentState : A.

(** The acknowledgement of an ['update-metadata'] or ['update-state']
    event; [payload] is [answer.metadata] or [answer.agentState]. *)
Inductive Answer :=
| ResultSuccess (version : Z) (payload : option Blob)
| ResultVersionMismatch (version : Z) (payload : option Blob)
| ResultError.

(** The events emitted to the authority. *)
Inductive Request :=
| UpdateMetadata (expectedVersion : Z) (blob : Blob)
| UpdateState (expectedVersion : Z) (blob : option Blob).

Record Client := {
  metadata : option M;
  metadataVersion : Z;
  agentState : option A;
  agentStateVersion : Z;
  sent : list Request
}.

Definition send (r : Request) (c : Client) : Client :=
  {| metadata := metadata c; metadataVersion := metadataVersion c;
     agentState := agentState c; agentStateVersion := agentStateVersion c;
     sent := sent c ++ [r] |}.

Definition setMetadata (v : option M) (ver : Z) (c : Client) : Client :=
  {| metadata := v; metadataVersion := ver;
     agentState := agentState c; agentStateVersion := agentStateVersion c;
     sent := sent c |}.

Definition setAgentState (v : option A) (ver : Z) (c : Client) : Client :=
  {| metadata := metadata c; metadataVersion := metadataVersion c;
     agentState := v; agentStateVersion := ver;
     sent := sent c |}.

(** How one run of a callback ends. *)
Inductive Completion := Returns | Throws.

(** The request the callback of [updateMetadata] emits in state [c]. *)
Definition metadataRequest (handler : option M -> M) (c : Client) : Request :=
  UpdateMetadata (metadataVersion c) (encryptM (handler (metadata c))).

(** [decrypt(key, variant, decodeBase64(answer.metadata))]: without a
    string to decode, [decodeBase64] throws. *)
Definition receivedMetadata (payload : option Blob) : Decryption M :=
  match payload with
  | Some b => decryptM b
  | None => DecryptThrows
  end.

(** [answer.agentState ? decrypt(key, variant,
    decodeBase64(answer.agentState)) : null] *)
Definition receivedAgentState (payload : option Blob) : Decryption A :=
  match payload with
  | Some b => if nonempty b then decryptA b else Decrypted None
  | None => Decrypted None
  end.

(** The callback of [updateMetadata], given the answer of the authority.
    On a success the value is decrypted before anything is assigned, so
    an exception leaves the client as it was; on a mismatch with a higher
    version the version is assigned first, so an exception leaves the new
    version with the old value.  Either exception leaves the callback as
    the mismatch does, by a throw. *)
Definition updateMetadataOnce (handler : option M -> M) (answer : Answer)
    (c : Client) : Client * Completion :=
  let c1 := send (metadataRequest handler c) c in
  match answer with
  | ResultSuccess version payload =>
      match receivedMetadata payload with
      | Decrypted v => (setMetadata v version c1, Returns)
      | DecryptThrows => (c1, Throws)
      end
  | ResultVersionMismatch version payload =>
      (if bool_decide (version > metadataVersion c1)
       then match receivedMetadata payload with
            | Decrypted v => setMetadata v version c1
            | DecryptThrows => setMetadata (metadata c1) version c1
            end
       else c1,
       Throws)
  | ResultError => (c1, Returns)
  end.

(** The request the callback of [updateAgentState] emits in state [c]:
    the handler sees [this.agentState || {}], and its result, an object,
    is truthy. *)
Definition agentStateRequest (handler : A -> A) (c : Client) : Request :=
  UpdateState (agentStateVersion c)
    (Some (encryptA (handler (default emptyAgentState (agentState c))))).

(** The callback of [updateAgentState]; the assignments are in the order
    of those of [updateMetadata]. *)
Definition updateAgentStateOnce (handler : A -> A) (answer : Answer)
    (c : Client) : Client * Completion :=
  let c1 := send (agentStateRequest handler c) c in
  match answer with
  | ResultSuccess version payload =>
      match receivedAgentState payload with
      | Decrypted v => (setAgentState v version c1, Returns)
      | DecryptThrows => (c1, Throws)
      end
  | ResultVersionMismatch version payload =>
      (if bool_decide (version > agentStateVersion c1)
       then match receivedAgentState payload with
            | Decrypted v => setAgentState v version c1
            | DecryptThrows => setAgentState (agentState c1) version c1
            end
       else c1,
       Throws)
  | ResultError => (c1, Returns)
  end.

(** Modelled from the spec: [backoff] of [src/utils/time.ts], which is not
    among the sources.  The whole callback is run again, after a delay,
    for as long as it throws.  [answers] are the acknowledgements still to
    come; the result is [None] while the loop waits for one. *)
Fixpoint backoff (callback : Answer -> Client -> Client * Completion)
    (answers : list Answer) (c : Client) : Client * option Completion :=
  match answers with
  | [] => (c, None)
  | answer :: rest =>
      match callback answer c with
      | (c', Returns) => (c', Some Returns)
      | (c', Throws) => backoff callback rest c'
      end
  end.

(** [updateMetadata(handler)], run under [metadataLock]. *)
Definition updateMetadata (handler : option M -> M) (answers : list Answer)
    (c : Client) : Client * option Completion :=
  backoff (updateMetadataOnce handler) answers c.

(** [updateAgentState(handler)], run under [agentStateLock]. *)
Definition updateAgentState (handler : A -> A) (answers : list Answer)
    (c : Client) : Client * option Completion :=
  backoff (updateAgentStateOnce handler) answers c.

(** The write that a field [f] leads to. *)
Definition metadataWrite (handler : option M -> M) (f : option M * Z)
  : Request :=
  UpdateMetadata f.2 (encryptM (handler f.1)).

Definition agentStateWrite (handler : A -> A) (f : option A * Z) : Request :=
  UpdateState f.2 (Some (encryptA (handler (default emptyAgentState f.1)))).

(** A versioned field as the client holds it. *)
Definition metadataField (c : Client) : option M * Z :=
  (metadata c, metadataVersion c).

Definition agentStateField (c : Client) : option A * Z :=
  (agentState c, agentStateVersion c).

Definition mismatch (m : Z * option Blob) : Answer :=
  ResultVersionMismatch m.1 m.2.

End Client.

(** What a field holds after a version mismatch [m], [received] being
    what the payload of an answer comes to: when the version of the answer
    is above the one held it is taken, and the value with it unless the
    decryption throws. *)
Definition adopt {V Blob : Type} (received : option Blob -> Decryption V)
    (f : option V * Z) (m : Z * option Blob) : option V * Z :=
  if bool_decide (m.1 > f.2)
  then match received m.2 with
       | Decrypted v => (v, m.1)
       | DecryptThrows => (f.1, m.1)
       end
  else f.

(** The field at each attempt of a retry loop that meets the mismatches
    [ms] in turn, the first attempt included. *)
Fixpoint held {V Blob : Type} (received : option Blob -> Decryption V)
    (f : option V * Z) (ms : list (Z * option Blob)) : list (option V * Z) :=
  f :: match ms with
       | [] => []
       | m :: ms' => held received (adopt received f m) ms'
       end.

End ApiSession.


(** ** Sample inputs *)

Module Sample.
Import Daemon.

Definition options (dir : string) (approved : option bool)
  : SpawnSessionOptions :=
  {| directory := dir; sessionId := None; machineId := None;
     approvedNewDirectoryCreation := approved;
     agent := Some Claude; token := Some "secret";
     environmentVariables :=
       Some {[ "PATH" := "/opt/bin"; "CLAUDE_CODE_OAUTH_TOKEN" := "forged" ]};
     resumeClaudeSessionId := None; forkSession := None |}.

Definition os (child : option Z) : Os :=
  {| process_env := {[ "PATH" := "/bin"; "HOME" := "/root" ]};
     mkdir := None;
     tmp_dirSync := inl "/tmp/codex-1";
     launch := LaunchChild child |}.

Definition md (p : Z) : Metadata :=
  {| path := "/tmp"; host := "box"; hostPid := Some p |}.

Definition noPid : Metadata :=
  {| path := "/tmp"; host := "box"; hostPid := None |}.

(** A daemon that tracks nothing, on a machine where [/tmp] exists. *)
Definition fresh : State := initial ["/tmp"].

(** The daemon after a spawn into [/tmp] that got a child with pid [p]. *)
Definition spawnedInto (p : Z) (d : State) : State :=
  (spawnSession (os (Some p)) (options "/tmp" None) d).1.

(** Two processes that report the same session id. *)
Definition twins : State :=
  onHappySessionWebhook "dup" (md 12)
    (onHappySessionWebhook "dup" (md 11) fresh).

(** The environment of the child in these samples. *)
Definition env : gmap string string :=
  childEnv (os (Some 4242)) (options "/tmp" None)
    {[ "CLAUDE_CODE_OAUTH_TOKEN" := "secret" ]}.

(** A cipher on strings that leaves the text as it is; opening the empty
    bundle throws, as the legacy variant does. *)
Definition decryptText (b : string) : ApiSession.Decryption string :=
  if Js.truthy b then ApiSession.Decrypted (Some b)
  else ApiSession.DecryptThrows.

(** A session client whose plaintexts and blobs are strings and whose
    cipher is the identity. *)
Definition client (value : string) (version : Z)
  : ApiSession.Client (M := string) (A := string) (Blob := string) :=
  {| ApiSession.metadata := Some value;
     ApiSession.metadataVersion := version;
     ApiSession.agentState := Some value;
     ApiSession.agentStateVersion := version;
     ApiSession.sent := [] |}.

(** A mutator: append a mark. *)
Definition mark (v : string) : string := v +:+ "!".

Definition markMetadata (v : option string) : string := mark (default "" v).

(** What a daemon of version [v] with pid 100 has persisted. *)
Definition persisted (v : string) : Lifecycle.DaemonLocallyPersistedState :=
  {| Lifecycle.pid := 100; Lifecycle.httpPort := 4000;
     Lifecycle.startTime := "09:00";
     Lifecycle.startedWithCliVersion := v;
     Lifecycle.lastHeartbeat := Some "09:05";
     Lifecycle.daemonLogPath := "/logs/a.log" |}.

(** A machine on which a daemon of version [v] runs. *)
Definition host (v : string) : Lifecycle.Host :=
  {| Lifecycle.stateFile := Some (persisted v);
     Lifecycle.lockFile := Some 100;
     Lifecycle.calls := [] |}.

Definition setup : Lifecycle.Setup :=
  {| Lifecycle.selfPid := 200; Lifecycle.currentCliVersion := "1.2.3";
     Lifecycle.authThrows := false; Lifecycle.controlPort := Some 5000;
     Lifecycle.now := "10:00"; Lifecycle.logFilePath := "/logs/b.log";
     Lifecycle.registerThrows := false |}.

End Sample.

(** ** The heartbeat sweep and the daemon over time ([src/daemon/run.ts]) *)

Module Heartbeat.
Import Daemon.

(** The prune loop of the heartbeat: [process.kill(pid, 0)] throws for a
    process that is gone, and its entry is deleted.  Deleting the entry
    under the cursor does not disturb the iteration of a [Map]. *)
Definition pruneStale (alive : Z -> bool) (d : State) : State :=
  with_sessions
    (foldl (fun m e => if alive e.1 then m else JsMap.delete e.1 m)
       (pidToTrackedSession d) (pidToTrackedSession d)) d.

(** What happens to the daemon: a handler runs, or the heartbeat sweeps. *)
Inductive Happening :=
| Handled (e : Event)
| Swept (alive : Z -> bool).

Definition happen (d : State) (h : Happening) : State :=
  match h with
  | Handled e => step d e
  | Swept alive => pruneStale alive d
  end.

Definition history (hs : list Happening) (d : State) : State :=
  foldl happen d hs.

(** The registry is keyed by pid: no pid twice, never pid 0, every entry
    under its own pid, and a child handle exactly for the sessions the
    daemon spawned (the handle of that very process). *)
Definition keyed (d : State) : bool :=
  bool_decide (NoDup (JsMap.keys (pidToTrackedSession d)))
  && forallb
       (fun e =>
          bool_decide (pid e.2 = e.1) && negb (bool_decide (e.1 = 0))
          && bool_decide
               (childProcess e.2
                = match startedBy e.2 with
                  | ByDaemon => Some e.1
                  | ByHappyDirectly => None
                  end))
       (pidToTrackedSession d).

(** A promise in order: while undecided its timer is armed; once decided
    it has no timer, and its result is a success with a session id or the
    timeout error of its pid (lines 336-358). *)
Definition inOrder (pr : SpawnPromise) : bool :=
  match settled pr with
  | None => timerArmed pr
  | Some (Success (Some _)) => negb (timerArmed pr)
  | Some (Error text) =>
      negb (timerArmed pr)
      && bool_decide (text = timeoutMessage (awaitedPid pr))
  | Some _ => false
  end.

Definition orderly (d : State) : bool := forallb inOrder (spawnPromises d).

(** The signal that [stopSession] sent last, if the last effect is one. *)
Definition lastSignal (d : State) : option (Z * string) :=
  match last (effects d) with
  | Some (ChildKill target signal _) => Some (target, signal)
  | Some (ProcessKill target signal _) => Some (target, signal)
  | _ => None
  end.

(** An entry that may stand under its key: the session's pid is the key,
    the key is not 0, and the child handle is there exactly for a session
    the daemon spawned (lines 158-181 and 309-317). *)
Definition fits (e : Z * TrackedSession) : Prop :=
  pid e.2 = e.1 ∧ e.1 ≠ 0
  ∧ childProcess e.2
    = match startedBy e.2 with
      | ByDaemon => Some e.1
      | ByHappyDirectly => None
      end.

(** Does the happening [h], met in state [d], leave alone what a spawn
    call that waits for process [p] has registered?  A self-report is one
    of another process; a further spawn launches another process (a child
    of the same pid would take over the entry and the awaiter); a timer
    that fires is not an armed one of a call that waits for [p] (its
    handler deletes the awaiter of [p]); the child that exited is another
    one; a stop finds another entry or none; and a sweep finds [p]
    alive. *)
Definition sparing (p : Z) (d : State) (h : Happening) : bool :=
  match h with
  | Handled (Webhook _ md) => negb (bool_decide (hostPid md = Some p))
  | Handled (Spawn os _) =>
      match launch os with
      | LaunchChild (Some q) => negb (bool_decide (q = p))
      | _ => true
      end
  | Handled (TimerFires c) =>
      match spawnPromises d !! c with
      | Some pr => negb (timerArmed pr && bool_decide (awaitedPid pr = p))
      | None => true
      end
  | Handled (ChildExited q) => negb (bool_decide (q = p))
  | Handled (Stop _ sessionId) =>
      match firstMatch sessionId (pidToTrackedSession d) with
      | Some (q, _) => negb (bool_decide (q = p))
      | None => true
      end
  | Swept alive => alive p
  end.

(** Every happening of [hs], met in the state that the ones before it
    left, is sparing for [p]. *)
Fixpoint undisturbed (p : Z) (d : State) (hs : list Happening) : bool :=
  match hs with
  | [] => true
  | h :: hs' => sparing p d h && undisturbed p (happen d h) hs'
  end.

(** The spawn call [c] stands registered for process [p]: its awaiter is
    the one under [p], its promise is pending, and the entry under [p] is
    [s], the one the call has set. *)
Definition registered (c : nat) (p : Z) (s : TrackedSession) (d : State)
  : Prop :=
  consistent d = true
  ∧ JsMap.get p (pidToAwaiter d) = Some c
  ∧ spawnPromises d !! c = Some (pending p)
  ∧ JsMap.get p (pidToTrackedSession d) = Some s.

End Heartbeat.

(** ** Incoming updates ([src/api/apiSession.ts]) *)

Module Inbox.
Section Client.

(** [M] and [A] are the plaintexts of the session ([Metadata],
    [AgentState]), [U] a parsed user message, [Plain] any decrypted value
    ([null] included) and [Blob] what crosses the wire.  The collaborators:
    [decrypt b] is [decrypt(key, variant, decodeBase64(b))], which is
    [None] when the call throws (the legacy variant on a bundle shorter
    than its nonce, [JSON.parse] on a plaintext that is no JSON);
    [safeParse] is [UserMessageSchema.safeParse] ([None]: no success),
    [asMetadata] and [asAgentState] read a decrypted value at the type of
    the field ([None] for [null]), and [nonempty] is the truthiness of a
    string. *)
Context {M A U Plain Blob : Type}.
Variable decrypt : Blob -> option Plain.
Variable safeParse : Plain -> option U.
Variable asMetadata : Plain -> option M.
Variable asAgentState : Plain -> option A.
Variable nonempty : Blob -> bool.

(** [message.content]: its tag is ['encrypted'] or something else. *)
Inductive Content :=
| Encrypted (c : Blob)
| Unencrypted.

(** [data.body] of an update.  The parts of an ['update-session'] body are
    optional; each carries a version and a value, and the value of
    [agentState] may be [null]. *)
Inductive Body :=
| NewMessage (content : Content)
| UpdateSession (metadata : option (Z * Blob))
    (agentState : option (Z * option Blob))
| UpdateMachine
| OtherBody.

(** What the client emits as a ['message'] event. *)
Inductive Emitted :=
| EmitPlain (body : Plain)
| EmitBody (body : Body).

(** The client; a callback is known by a number, and [delivered] lists the
    calls of callbacks in the order they were made.  Callbacks return
    normally. *)
Record Client := {
  metadata : option M;
  metadataVersion : Z;
  agentState : option A;
  agentStateVersion : Z;
  pendingMessages : list U;
  pendingMessageCallback : option nat;
  delivered : list (nat * U);
  emitted : list Emitted
}.

Definition emit (e : Emitted) (c : Client) : Client :=
  {| metadata := metadata c; metadataVersion := metadataVersion c;
     agentState := agentState c; agentStateVersion := agentStateVersion c;
     pendingMessages := pendingMessages c;
     pendingMessageCallback := pendingMessageCallback c;
     delivered := delivered c; emitted := emitted c ++ [e] |}.

(** [callback(m)] *)
Definition deliver (callback : nat) (m : U) (c : Client) : Client :=
  {| metadata := metadata c; metadataVersion := metadataVersion c;
     agentState := agentState c; agentStateVersion := agentStateVersion c;
     pendingMessages := pendingMessages c;
     pendingMessageCallback := pendingMessageCallback c;
     delivered := delivered c ++ [(callback, m)]; emitted := emitted c |}.

Definition with_pending (ms : list U) (c : Client) : Client :=
  {| metadata := metadata c; metadataVersion := metadataVersion c;
     agentState := agentState c; agentStateVersion := agentStateVersion c;
     pendingMessages := ms;
     pendingMessageCallback := pendingMessageCallback c;
     delivered := delivered c; emitted := emitted c |}.

Definition with_callback (callback : option nat) (c : Client) : Client :=
  {| metadata := metadata c; metadataVersion := metadataVersion c;
     agentState := agentState c; agentStateVersion := agentStateVersion c;
     pendingMessages := pendingMessages c;
     pendingMessageCallback := callback;
     delivered := delivered c; emitted := emitted c |}.

Definition setMetadata (v : option M) (version : Z) (c : Client) : Client :=
  {| metadata := v; metadataVersion := version;
     agentState := agentState c; agentStateVersion := agentStateVersion c;
     pendingMessages := pendingMessages c;
     pendingMessageCallback := pendingMessageCallback c;
     delivered := delivered c; emitted := emitted c |}.

Definition setAgentState (v : option A) (version : Z) (c : Client) : Client :=
  {| metadata := metadata c; metadataVersion := metadataVersion c;
     agentState := v; agentStateVersion := version;
     pendingMessages := pendingMessages c;
     pendingMessageCallback := pendingMessageCallback c;
     delivered := delivered c; emitted := emitted c |}.

(** The metadata part of an ['update-session'] body; [None] when
    decrypting throws.  The value is decrypted before anything is
    assigned. *)
Definition metadataPart (md : option (Z * Blob)) (c : Client)
  : option Client :=
  match md with
  | Some (version, value) =>
      if bool_decide (version > metadataVersion c)
      then v ← decrypt value; Some (setMetadata (asMetadata v) version c)
      else Some c
  | None => Some c
  end.

(** The agent state part, likewise; a value that is [null] or the empty
    string is not decrypted. *)
Definition agentStatePart (st : option (Z * option Blob)) (c : Client)
  : option Client :=
  match st with
  | Some (version, value) =>
      if bool_decide (version > agentStateVersion c)
      then match value with
           | Some blob =>
               if nonempty blob
               then v ← decrypt blob;
                    Some (setAgentState (asAgentState v) version c)
               else Some (setAgentState None version c)
           | None => Some (setAgentState None version c)
           end
      else Some c
  | None => Some c
  end.

(** The handler of the ['update'] event; [data.body] may be missing.  The
    body of the handler is one [try] block whose [catch] logs: an
    exception ends the handler with what had been assigned before it. *)
Definition onUpdate (body : option Body) (c : Client) : Client :=
  match body with
  | None => c
  | Some (NewMessage (Encrypted blob)) =>
      match decrypt blob with
      | Some body =>
          match safeParse body with
          | Some userMessage =>
              match pendingMessageCallback c with
              | Some callback => deliver callback userMessage c
              | None => with_pending (pendingMessages c ++ [userMessage]) c
              end
          | None => emit (EmitPlain body) c
          end
      | None => c
      end
  | Some (UpdateSession md st) =>
      match metadataPart md c with
      | Some c1 => default c1 (agentStatePart st c1)
      | None => c
      end
  | Some UpdateMachine => c
  | Some other => emit (EmitBody other) c
  end.

(** The loop of [onUserMessage]: [callback(pendingMessages.shift())] while
    the queue is not empty. *)
Fixpoint drain (callback : nat) (queue : list U) (c : Client) : Client :=
  match queue with
  | [] => with_pending [] c
  | m :: rest => drain callback rest (deliver callback m (with_pending rest c))
  end.

(** [onUserMessage(callback)] *)
Definition onUserMessage (callback : nat) (c : Client) : Client :=
  let c1 := with_callback (Some callback) c in
  drain callback (pendingMessages c1) c1.

(** What happens to the client over time. *)
Inductive Event :=
| Update (body : option Body)
| Listen (callback : nat).

Definition step (c : Client) (e : Event) : Client :=
  match e with
  | Update body => onUpdate body c
  | Listen callback => onUserMessage callback c
  end.

Definition run (es : list Event) (c : Client) : Client := foldl step c es.

(** The user message an event brings, if it brings one. *)
Definition userMessage (e : Event) : option U :=
  match e with
  | Update (Some (NewMessage (Encrypted blob))) => decrypt blob ≫= safeParse
  | _ => None
  end.

(** The user messages of a run of events, in the order of arrival. *)
Definition arrivals (es : list Event) : list U := omap userMessage es.

(** The versions of the metadata that a run of events announces with a
    value that decrypts. *)
Definition metadataVersions (es : list Event) : list Z :=
  omap (fun e => match e with
                 | Update (Some (UpdateSession (Some (version, value)) _)) =>
                     match decrypt value with
                     | Some _ => Some version
                     | None => None
                     end
                 | _ => None
                 end) es.

(** The versions of the agent state that a run of events announces. *)
Definition agentStateVersions (es : list Event) : list Z :=
  omap (fun e => match e with
                 | Update (Some (UpdateSession _ (Some (version, _)))) =>
                     Some version
                 | _ => None
                 end) es.

(** Does every value that the event carries decrypt? *)
Definition readable (e : Event) : bool :=
  match e with
  | Update (Some (NewMessage (Encrypted blob))) =>
      bool_decide (is_Some (decrypt blob))
  | Update (Some (UpdateSession md st)) =>
      match md with
      | Some (_, value) => bool_decide (is_Some (decrypt value))
      | None => true
      end
      && match st with
         | Some (_, Some blob) =>
             negb (nonempty blob) || bool_decide (is_Some (decrypt blob))
         | _ => true
         end
  | _ => true
  end.

(** No message waits while a callback is registered. *)
Definition settledQueue (c : Client) : bool :=
  match pendingMessageCallback c with
  | Some _ => bool_decide (length (pendingMessages c) = 0%nat)
  | None => true
  end.

End Client.
End Inbox.

(** ** RPC handlers ([src/api/rpc/RpcHandlerManager.ts]) *)

Module Rpc.
Section Manager.

(** [Plain] is any value that is encrypted or decrypted (a value that
    [JSON.stringify] writes, so that encrypting it returns), [Blob] what
    crosses the wire. *)
Context {Plain Blob : Type}.

(** How a call ends: with a result, with an [Error] thrown or rejected,
    or with something else thrown. *)
Inductive Settlement :=
| Resolves (result : Plain)
| RejectsError (message : string)
| RejectsOther.

(** The collaborators: [encrypt v] is
    [encodeBase64(encrypt(key, variant, v))], [decrypt b] is
    [decrypt(key, variant, decodeBase64(b))], which may throw (the legacy
    variant throws the error [bad nonce size] on a bundle shorter than its
    nonce), and [errorResponse text] is the object [{ error: text }]. *)
Variable encrypt : Plain -> Blob.
Variable decrypt : Blob -> Settlement.
Variable errorResponse : string -> Plain.

Definition RpcHandler := Plain -> Settlement.

(** [await] of a settled call inside the [try] block: the rest runs on a
    result, and what was thrown goes on to the [catch]. *)
Definition andThen (s : Settlement) (rest : Plain -> Settlement)
  : Settlement :=
  match s with
  | Resolves v => rest v
  | RejectsError message => RejectsError message
  | RejectsOther => RejectsOther
  end.

(** What [handleRequest] returns at the end of its [try] block or from
    its [catch]: the encrypted result, or the encrypted
    [{ error: error instanceof Error ? error.message : 'Unknown error' }]. *)
Definition respond (s : Settlement) : Blob :=
  match s with
  | Resolves result => encrypt result
  | RejectsError message => encrypt (errorResponse message)
  | RejectsOther => encrypt (errorResponse "Unknown error")
  end.

(** The manager; a socket is known by a number, and [emitted] lists the
    ['rpc-register'] events with the socket they were emitted on. *)
Record Manager := {
  handlers : list (string * RpcHandler);
  scopePrefix : string;
  socket : option nat;
  emitted : list (nat * string)
}.

Record RpcRequest := { method : string; params : Blob }.

(** [new RpcHandlerManager(config)] *)
Definition create (prefix : string) : Manager :=
  {| handlers := []; scopePrefix := prefix; socket := None; emitted := [] |}.

(** [getPrefixedMethod(method)] *)
Definition getPrefixedMethod (m : Manager) (method : string) : string :=
  scopePrefix m +:+ ":" +:+ method.

(** [registerHandler(method, handler)] *)
Definition registerHandler (method : string) (handler : RpcHandler)
    (m : Manager) : Manager :=
  let prefixedMethod := getPrefixedMethod m method in
  {| handlers := JsMap.set prefixedMethod handler (handlers m);
     scopePrefix := scopePrefix m;
     socket := socket m;
     emitted := match socket m with
                | Some s => emitted m ++ [(s, prefixedMethod)]
                | None => emitted m
                end |}.

(** [handleRequest(request)]: the value the promise resolves with.  The
    handler is looked up first; the params are decrypted then, and the
    handler is called only when that did not throw. *)
Definition handleRequest (request : RpcRequest) (m : Manager) : Blob :=
  match JsMap.get (method request) (handlers m) with
  | None => encrypt (errorResponse "Method not found")
  | Some handler => respond (andThen (decrypt (params request)) handler)
  end.

(** [onSocketConnect(socket)] *)
Definition onSocketConnect (s : nat) (m : Manager) : Manager :=
  {| handlers := handlers m; scopePrefix := scopePrefix m; socket := Some s;
     emitted := emitted m ++ ((fun k => (s, k)) <$> JsMap.keys (handlers m)) |}.

(** [onSocketDisconnect()] *)
Definition onSocketDisconnect (m : Manager) : Manager :=
  {| handlers := handlers m; scopePrefix := scopePrefix m; socket := None;
     emitted := emitted m |}.

(** [getHandlerCount()] *)
Definition getHandlerCount (m : Manager) : nat := length (handlers m).

(** [hasHandler(method)] *)
Definition hasHandler (method : string) (m : Manager) : bool :=
  bool_decide (is_Some (JsMap.get (getPrefixedMethod m method) (handlers m))).

(** [clearHandlers()] *)
Definition clearHandlers (m : Manager) : Manager :=
  {| handlers := []; scopePrefix := scopePrefix m; socket := socket m;
     emitted := emitted m |}.

(** What is done to a manager over time. *)
Inductive Op :=
| Register (method : string) (handler : RpcHandler)
| Connect (s : nat)
| Disconnect
| Clear.

Definition apply (m : Manager) (o : Op) : Manager :=
  match o with
  | Register method handler => registerHandler method handler m
  | Connect s => onSocketConnect s m
  | Disconnect => onSocketDisconnect m
  | Clear => clearHandlers m
  end.

Definition run (os : list Op) (m : Manager) : Manager := foldl apply m os.

(** Does [o] leave the socket alone? *)
Definition keepsSocket (o : Op) : bool :=
  match o with
  | Connect _ | Disconnect => false
  | _ => true
  end.

(** Every handler is stored under a name of the manager's scope. *)
Definition scoped (m : Manager) : Prop :=
  ∀ k, k ∈ JsMap.keys (handlers m) → ∃ method, k = getPrefixedMethod m method.

End Manager.
End Rpc.

(** ** Bundles and encodings ([src/api/encryption.ts]) *)

Module Encryption.

(** Bytes are numbers from 0 to 255; a [Uint8Array] is a list of them. *)

(** [new Uint8Array(n)] *)
Definition zeros (n : nat) : list Z := replicate n 0.

(** [target.set(source, offset)]; [None] is the [RangeError] for a source
    that does not fit. *)
Definition set (source : list Z) (offset : nat) (target : list Z)
  : option (list Z) :=
  if bool_decide (offset + length source ≤ length target)%nat
  then Some (take offset target ++ source
               ++ drop (offset + length source) target)
  else None.

(** [a.slice(start, end)] and [a.slice(start)], for indices that are not
    negative. *)
Definition slice (start finish : nat) (a : list Z) : list Z :=
  take (finish - start) (drop start a).

Definition sliceFrom (start : nat) (a : list Z) : list Z := drop start a.

Inductive Variant := Legacy | DataKey.

(** What [tweetnacl.secretbox.open] does: the plaintext, [null] for a box
    that does not verify, or an exception for a key or nonce of the wrong
    size. *)
Inductive Opened :=
| Plaintext (bytes : list Z)
| Forged
| BadLengths.

Section Cipher.

(** [Json] is any value.  The collaborators: [stringify data] is
    [new TextEncoder().encode(JSON.stringify(data))]; [parse bytes] is
    [JSON.parse(new TextDecoder().decode(bytes))], [None] when it throws;
    [secretbox] and [secretbox_open] are those of tweetnacl; [gcm key nonce
    plaintext] is the ciphertext and the tag of AES-256-GCM, and [gcm_open
    key nonce tag ciphertext] is [None] when the decipher throws.  Keys
    have the size the ciphers take. *)
Context {Json : Type}.
Variable stringify : Json -> list Z.
Variable parse : list Z -> option Json.
Variable secretbox : list Z -> list Z -> list Z -> list Z.
Variable secretbox_open : list Z -> list Z -> list Z -> Opened.
Variable gcm : list Z -> list Z -> list Z -> list Z * list Z.
Variable gcm_open : list Z -> list Z -> list Z -> list Z -> option (list Z).

(** What a decryption gives: a value, [null], or an exception. *)
Inductive Decrypted :=
| Value (data : Json)
| Null
| Throws.

(** [encryptLegacy(data, secret)] with the random [nonce] it draws. *)
Definition encryptLegacy (nonce : list Z) (data : Json) (secret : list Z)
  : option (list Z) :=
  let encrypted := secretbox (stringify data) nonce secret in
  let result := zeros (length nonce + length encrypted) in
  result1 ← set nonce 0 result;
  set encrypted (length nonce) result1.

(** [decryptLegacy(data, secret)] *)
Definition decryptLegacy (data : list Z) (secret : list Z) : Decrypted :=
  let nonce := slice 0 24 data in
  let encrypted := sliceFrom 24 data in
  match secretbox_open encrypted nonce secret with
  | Plaintext decrypted =>
      match parse decrypted with
      | Some value => Value value
      | None => Throws
      end
  | Forged => Null
  | BadLengths => Throws
  end.

(** [encryptWithDataKey(data, dataKey)] with the random [nonce] it draws. *)
Definition encryptWithDataKey (nonce : list Z) (data : Json)
    (dataKey : list Z) : option (list Z) :=
  let '(encrypted, authTag) := gcm dataKey nonce (stringify data) in
  let bundle := zeros (12 + length encrypted + 16 + 1) in
  bundle1 ← set [0] 0 bundle;
  bundle2 ← set nonce 1 bundle1;
  bundle3 ← set encrypted 13 bundle2;
  set authTag (13 + length encrypted) bundle3.

(** [decryptWithDataKey(bundle, dataKey)] *)
Definition decryptWithDataKey (bundle : list Z) (dataKey : list Z)
  : Decrypted :=
  if bool_decide (length bundle < 1)%nat then Null
  else if negb (bool_decide (bundle !! 0%nat = Some 0)) then Null
  else if bool_decide (length bundle < 12 + 16 + 1)%nat then Null
  else
    let nonce := slice 1 13 bundle in
    let authTag := sliceFrom (length bundle - 16) bundle in
    let ciphertext := slice 13 (length bundle - 16) bundle in
    match gcm_open dataKey nonce authTag ciphertext with
    | Some decrypted =>
        match parse decrypted with
        | Some value => Value value
        | None => Null
        end
    | None => Null
    end.

(** [encrypt(key, variant, data)] with the random [nonce] it draws. *)
Definition encrypt (nonce : list Z) (key : list Z) (variant : Variant)
    (data : Json) : option (list Z) :=
  match variant with
  | Legacy => encryptLegacy nonce data key
  | DataKey => encryptWithDataKey nonce data key
  end.

(** [decrypt(key, variant, data)] *)
Definition decrypt (key : list Z) (variant : Variant) (data : list Z)
  : Decrypted :=
  match variant with
  | Legacy => decryptLegacy data key
  | DataKey => decryptWithDataKey data key
  end.

(** The size of the nonce that [encrypt] draws. *)
Definition nonceLength (variant : Variant) : nat :=
  match variant with
  | Legacy => 24
  | DataKey => 12
  end.

End Cipher.

(** *** The URL-safe variant of base64 *)

(** [s.replaceAll(a, b)] for single characters. *)
Fixpoint replaceAll (a b : ascii) (s : string) : string :=
  match s with
  | EmptyString => EmptyString
  | String c rest =>
      String (if Ascii.eqb c a then b else c) (replaceAll a b rest)
  end.

(** [s.replaceAll(a, '')] for a single character. *)
Fixpoint removeAll (a : ascii) (s : string) : string :=
  match s with
  | EmptyString => EmptyString
  | String c rest =>
      if Ascii.eqb c a then removeAll a rest else String c (removeAll a rest)
  end.

(** [c.repeat(n)] *)
Fixpoint repeat (c : ascii) (n : nat) : string :=
  match n with
  | O => EmptyString
  | S n' => String c (repeat c n')
  end.

(** What [encodeBase64Url] makes of the text [Buffer.toString('base64')]
    gave it. *)
Definition toBase64Url (base64 : string) : string :=
  removeAll "=" (replaceAll "/" "_" (replaceAll "+" "-" base64)).

(** The text [decodeBase64] hands to [Buffer.from(_, 'base64')] for the
    variant ['base64url']. *)
Definition base64Standard (base64 : string) : string :=
  String.append
    (replaceAll "_" "/" (replaceAll "-" "+" base64))
    (repeat "=" ((4 - String.length base64 mod 4) mod 4)).

(** No character of [s] is a padding sign or one of the two URL-safe
    signs. *)
Fixpoint plain (s : string) : bool :=
  match s with
  | EmptyString => true
  | String c rest =>
      negb (Ascii.eqb c "=") && negb (Ascii.eqb c "-")
      && negb (Ascii.eqb c "_") && plain rest
  end.

End Encryption.

(** ** Permission requests ([src/claude/utils/permissionHandler.ts]) *)

Module Permission.
Section Handler.

(** [I] is the input of a tool call; [deepEqual] on inputs is equality. *)
Context {I : Type} `{EqDecision I}.

(** *** The tool calls seen in the conversation *)

Record ToolCall := {
  id : string;
  name : string;
  input : I;
  used : bool
}.

Definition markUsed (call : ToolCall) : ToolCall :=
  {| id := id call; name := name call; input := input call; used := true |}.

(** The loop of [resolveToolCallId] over the calls from the most recent
    one on: the first call with this name and input decides. *)
Fixpoint resolveFrom (name0 : string) (args : I) (recent : list ToolCall)
  : option string * list ToolCall :=
  match recent with
  | [] => (None, [])
  | call :: older =>
      if bool_decide (name call = name0) && bool_decide (input call = args)
      then
        if used call then (None, call :: older)
        else (Some (id call), markUsed call :: older)
      else
        let '(found, older') := resolveFrom name0 args older in
        (found, call :: older')
  end.

(** [resolveToolCallId(name, args)]: the id, or [null], and the calls
    afterwards. *)
Definition resolveToolCallId (name0 : string) (args : I)
    (toolCalls : list ToolCall) : option string * list ToolCall :=
  let '(found, recent) := resolveFrom name0 args (rev toolCalls) in
  (found, rev recent).

(** A block of the content of a message; [tool_use_id] is [None] when it
    is missing or empty. *)
Inductive Block :=
| ToolUse (id0 : string) (name0 : string) (input0 : I)
| ToolResult (tool_use_id : option string)
| OtherBlock.

(** A message of the SDK; [content] is [None] when there is none (for a
    user message also when it is not an array). *)
Inductive SDKMessage :=
| Assistant (content : option (list Block))
| User (content : option (list Block))
| OtherMessage.

(** [toolCalls.find(tc => tc.id === id0)], and [used] set on what it
    finds. *)
Fixpoint markFirst (id0 : string) (toolCalls : list ToolCall)
  : list ToolCall :=
  match toolCalls with
  | [] => []
  | call :: rest =>
      if bool_decide (id call = id0) then
        (if used call then call else markUsed call) :: rest
      else call :: markFirst id0 rest
  end.

(** [onMessage(message)] *)
Definition onMessage (message : SDKMessage) (toolCalls : list ToolCall)
  : list ToolCall :=
  match message with
  | Assistant (Some content) =>
      foldl (fun calls block =>
               match block with
               | ToolUse id0 name0 input0 =>
                   calls ++ [{| id := id0; name := name0; input := input0;
                                used := false |}]
               | _ => calls
               end) toolCalls content
  | User (Some content) =>
      foldl (fun calls block =>
               match block with
               | ToolResult (Some id0) => markFirst id0 calls
               | _ => calls
               end) toolCalls content
  | _ => toolCalls
  end.

(** What happens to the list of tool calls over time. *)
Inductive Op :=
| Message (message : SDKMessage)
| Resolve (name0 : string) (args : I).

Definition apply (toolCalls : list ToolCall) (o : Op) : list ToolCall :=
  match o with
  | Message message => onMessage message toolCalls
  | Resolve name0 args => (resolveToolCallId name0 args toolCalls).2
  end.

Definition run (os : list Op) (toolCalls : list ToolCall) : list ToolCall :=
  foldl apply toolCalls os.

(** *** The requests in the agent state ([AgentState] of
    [src/api/types.ts]) *)

Inductive Status := Canceled | Denied | Approved.

Record Request := {
  tool : string;
  arguments : I;
  createdAt : Z
}.

Record Completed := {
  c_tool : string;
  c_arguments : I;
  c_createdAt : Z;
  completedAt : Z;
  status : Status;
  reason : option string;
  mode : option string;
  allowTools : option (list string)
}.

(** [requests] and [completedRequests] are optional objects keyed by the
    id of the tool call. *)
Record AgentState := {
  controlledByUser : option bool;
  requests : option (gmap string Request);
  completedRequests : option (gmap string Completed)
}.

(** The part of a [PermissionResponse] that reaches the agent state. *)
Record PermissionResponse := {
  r_id : string;
  approved : bool;
  r_reason : option string;
  r_mode : option string;
  r_allowTools : option (list string)
}.

(** The mutator of [handlePermissionRequest]; [now] is [Date.now()]. *)
Definition requested (id0 toolName : string) (input0 : I) (now : Z)
    (currentState : AgentState) : AgentState :=
  {| controlledByUser := controlledByUser currentState;
     requests :=
       Some (<[id0 := {| tool := toolName; arguments := input0;
                         createdAt := now |}]>
               (default ∅ (requests currentState)));
     completedRequests := completedRequests currentState |}.

(** The mutator of the ['permission'] handler. *)
Definition completed (message : PermissionResponse) (now : Z)
    (currentState : AgentState) : AgentState :=
  match requests currentState ≫= (.!! r_id message) with
  | None => currentState
  | Some request =>
      {| controlledByUser := controlledByUser currentState;
         requests :=
           Some (delete (r_id message) (default ∅ (requests currentState)));
         completedRequests :=
           Some (<[r_id message :=
                     {| c_tool := tool request;
                        c_arguments := arguments request;
                        c_createdAt := createdAt request;
                        completedAt := now;
                        status := if approved message then Approved
                                  else Denied;
                        reason := r_reason message;
                        mode := r_mode message;
                        allowTools := r_allowTools message |}]>
                   (default ∅ (completedRequests currentState))) |}
  end.

(** A pending request, canceled at [now]. *)
Definition canceled (now : Z) (request : Request) : Completed :=
  {| c_tool := tool request; c_arguments := arguments request;
     c_createdAt := createdAt request; completedAt := now;
     status := Canceled;
     reason := Some "Session switched to local mode";
     mode := None; allowTools := None |}.

(** The mutator of [reset]: its loop assigns the canceled form of every
    pending request into a copy of [completedRequests]. *)
Definition reset (now : Z) (currentState : AgentState) : AgentState :=
  let pendingRequests := default ∅ (requests currentState) in
  let completedRequests0 := default ∅ (completedRequests currentState) in
  {| controlledByUser := controlledByUser currentState;
     requests := Some ∅;
     completedRequests :=
       Some (map_fold (fun id0 request acc => <[id0 := canceled now request]> acc)
               completedRequests0 pendingRequests) |}.

(** The ids the agent state knows, pending or completed. *)
Definition known (s : AgentState) : gset string :=
  dom (default ∅ (requests s)) ∪ dom (default ∅ (completedRequests s)).

(** What the permission handler does to the agent state over time. *)
Inductive Mutation :=
| Ask (id0 toolName : string) (input0 : I) (now : Z)
| Answer (message : PermissionResponse) (now : Z)
| Reset (now : Z).

Definition mutate (s : AgentState) (m : Mutation) : AgentState :=
  match m with
  | Ask id0 toolName input0 now => requested id0 toolName input0 now s
  | Answer message now => completed message now s
  | Reset now => reset now s
  end.

Definition mutations (ms : list Mutation) (s : AgentState) : AgentState :=
  foldl mutate s ms.

(** The ids that a run of mutations asks about. *)
Definition asked (ms : list Mutation) : gset string :=
  list_to_set (omap (fun m => match m with
                              | Ask id0 _ _ _ => Some id0
                              | _ => None
                              end) ms).

End Handler.
End Permission.

(** ** The heartbeat of the running daemon ([src/daemon/run.ts]) *)

Module Pulse.
Import Lifecycle.

Inductive Source := HappyApp | HappyCli | OsSignal | Exception.

Record ShutdownRequest := {
  source : Source;
  errorMessage : option string
}.

(** The daemon once it waits for a shutdown request: the machine, the
    registry, the record written at startup ([fileState]), the guard and
    the interval of the heartbeat, what the shutdown promise has resolved
    with, the timers that force an exit, the starts of a new daemon,
    whether it idles before it exits for a new version, and the exit code
    once the process has exited. *)
Record Running := {
  host : Host;
  registry : Daemon.State;
  fileState : DaemonLocallyPersistedState;
  heartbeatRunning : bool;
  intervalSet : bool;
  shutdownRequested : option ShutdownRequest;
  forceExitTimers : nat;
  daemonStarts : nat;
  handingOver : bool;
  exited : option Z
}.

(** The daemon as [startDaemon] leaves it when it begins to wait. *)
Definition begin (h : Host) (st : DaemonLocallyPersistedState) : Running :=
  {| host := h; registry := Daemon.initial []; fileState := st;
     heartbeatRunning := false; intervalSet := true;
     shutdownRequested := None; forceExitTimers := 0; daemonStarts := 0;
     handingOver := false; exited := None |}.

(** [requestShutdown(source, errorMessage)]: a timer that forces the exit
    is armed, and the promise is resolved; only its first resolution
    counts. *)
Definition requestShutdown (source0 : Source) (errorMessage0 : option string)
    (r : Running) : Running :=
  {| host := host r; registry := registry r; fileState := fileState r;
     heartbeatRunning := heartbeatRunning r; intervalSet := intervalSet r;
     shutdownRequested :=
       match shutdownRequested r with
       | Some first => Some first
       | None => Some {| source := source0; errorMessage := errorMessage0 |}
       end;
     forceExitTimers := S (forceExitTimers r);
     daemonStarts := daemonStarts r; handingOver := handingOver r;
     exited := exited r |}.

(** What one tick of the interval meets: which processes are alive, the
    version in [package.json] on disk, the time, and whether writing the
    state throws. *)
Record Beat := {
  alive : Z -> bool;
  projectVersion : string;
  timeText : string;
  writeThrows : bool
}.

Definition foreignDaemonMessage : string :=
  "A different daemon was started without killing us. We should kill ourselves.".

(** The record a heartbeat writes. *)
Definition updatedState (s : Setup) (b : Beat) (r : Running)
  : DaemonLocallyPersistedState :=
  {| pid := selfPid s; httpPort := httpPort (fileState r);
     startTime := startTime (fileState r);
     startedWithCliVersion := currentCliVersion s;
     lastHeartbeat := Some (timeText b);
     daemonLogPath := daemonLogPath (fileState r) |}.

(** The callback of the heartbeat interval, taken as one step; on another
    version it ends in the idle wait before the exit.  [readDaemonState]
    is modelled from the spec: it gives the persisted record, or [null]. *)
Definition heartbeat (s : Setup) (b : Beat) (r : Running) : Running :=
  if heartbeatRunning r then r else
  let pruned := Heartbeat.pruneStale (alive b) (registry r) in
  if negb (bool_decide (projectVersion b = currentCliVersion s)) then
    {| host := host r; registry := pruned; fileState := fileState r;
       heartbeatRunning := true; intervalSet := false;
       shutdownRequested := shutdownRequested r;
       forceExitTimers := forceExitTimers r;
       daemonStarts := S (daemonStarts r); handingOver := true;
       exited := exited r |}
  else
    let r1 :=
      {| host := host r; registry := pruned; fileState := fileState r;
         heartbeatRunning := true; intervalSet := intervalSet r;
         shutdownRequested := shutdownRequested r;
         forceExitTimers := forceExitTimers r;
         daemonStarts := daemonStarts r; handingOver := handingOver r;
         exited := exited r |} in
    let r2 :=
      match stateFile (host r1) with
      | Some daemonState =>
          if negb (bool_decide (pid daemonState = selfPid s))
          then requestShutdown Exception (Some foreignDaemonMessage) r1
          else r1
      | None => r1
      end in
    {| host := if writeThrows b then host r2
               else writeDaemonState (updatedState s b r) (host r2);
       registry := registry r2; fileState := fileState r2;
       heartbeatRunning := false; intervalSet := intervalSet r2;
       shutdownRequested := shutdownRequested r2;
       forceExitTimers := forceExitTimers r2;
       daemonStarts := daemonStarts r2; handingOver := handingOver r2;
       exited := exited r2 |}.

(** [process.exit(0)] at the end of the idle wait. *)
Definition graceOver (r : Running) : Running :=
  if handingOver r then
    {| host := call (ProcessExit 0) (host r); registry := registry r;
       fileState := fileState r;
       heartbeatRunning := heartbeatRunning r; intervalSet := intervalSet r;
       shutdownRequested := shutdownRequested r;
       forceExitTimers := forceExitTimers r;
       daemonStarts := daemonStarts r; handingOver := handingOver r;
       exited := Some 0 |}
  else r.

(** Someone else replaces the state file. *)
Definition replaced (st : DaemonLocallyPersistedState) (r : Running)
  : Running :=
  {| host := writeDaemonState st (host r); registry := registry r;
     fileState := fileState r;
     heartbeatRunning := heartbeatRunning r; intervalSet := intervalSet r;
     shutdownRequested := shutdownRequested r;
     forceExitTimers := forceExitTimers r;
     daemonStarts := daemonStarts r; handingOver := handingOver r;
     exited := exited r |}.

(** What happens around the running daemon: the interval is due, someone
    else replaces the state file, or the idle wait is over. *)
Inductive Incident :=
| Tick (b : Beat)
| Replaced (st : DaemonLocallyPersistedState)
| GraceOver.

(** Nothing happens to a process that has exited.  The interval does not
    tick once it is cleared, which the cleanup does first thing when a
    shutdown has been requested. *)
Definition meet (s : Setup) (r : Running) (i : Incident) : Running :=
  match exited r with
  | Some _ => r
  | None =>
      match i with
      | Tick b =>
          if intervalSet r && bool_decide (shutdownRequested r = None)
          then heartbeat s b r else r
      | Replaced st => replaced st r
      | GraceOver => graceOver r
      end
  end.

Definition course (s : Setup) (incidents : list Incident) (r : Running)
  : Running :=
  foldl (meet s) r incidents.

(** The time of the last tick of a course that wrote the state. *)
Definition lastWrite (s : Setup) (incidents : list Incident)
  : option string :=
  last (omap (fun i => match i with
                       | Tick b =>
                           if bool_decide (projectVersion b = currentCliVersion s)
                              && negb (writeThrows b)
                           then Some (timeText b) else None
                       | _ => None
                       end) incidents).

(** Is [i] harmless for the running daemon: a tick that finds its own
    version on disk, and no replacement of the state file? *)
Definition calm (s : Setup) (i : Incident) : bool :=
  match i with
  | Tick b => bool_decide (projectVersion b = currentCliVersion s)
  | Replaced _ => false
  | GraceOver => true
  end.

(** Is [i] a tick? *)
Definition isTick (i : Incident) : bool :=
  match i with
  | Tick _ => true
  | _ => false
  end.

(** The record of this daemon with the heartbeat [beat]: what a daemon
    that started with the record [st] keeps in the state file. *)
Definition stamped (s : Setup) (st : DaemonLocallyPersistedState)
    (beat : option string) : DaemonLocallyPersistedState :=
  {| pid := selfPid s; httpPort := httpPort st; startTime := startTime st;
     startedWithCliVersion := currentCliVersion s; lastHeartbeat := beat;
     daemonLogPath := daemonLogPath st |}.

End Pulse.


(** ** Grants of the permission handler
    ([src/claude/utils/permissionHandler.ts]) *)

Module Grants.

Inductive PermissionMode := Default | AcceptEdits | BypassPermissions | Plan.

(** What the handler remembers of the answers: the allowed tools, the
    allowed Bash commands and command prefixes, and the mode.  Strings are
    ASCII. *)
Record Allowed := {
  allowedTools : gset string;
  allowedBashLiterals : gset string;
  allowedBashPrefixes : gset string;
  permissionMode : PermissionMode
}.

(** A new handler. *)
Definition fresh : Allowed :=
  {| allowedTools := ∅; allowedBashLiterals := ∅; allowedBashPrefixes := ∅;
     permissionMode := Default |}.

(** [s.endsWith(suffix)] *)
Definition endsWith (s suffix : string) : bool :=
  (String.length suffix <=? String.length s)%nat
  && String.eqb
       (String.substring (String.length s - String.length suffix)
          (String.length suffix) s)
       suffix.

(** [s.slice(0, -n)] *)
Definition dropLast (n : nat) (s : string) : string :=
  String.substring 0 (String.length s - n) s.

(** A character that [.] does not match: line feed or carriage return. *)
Definition lineTerminator (c : ascii) : bool :=
  Ascii.eqb c "010" || Ascii.eqb c "013".

Fixpoint oneLine (s : string) : bool :=
  match s with
  | EmptyString => true
  | String c rest => negb (lineTerminator c) && oneLine rest
  end.

(** [permission.match(/^Bash\((.+?)\)$/)]: the group, when the pattern
    matches.  The text between [Bash(] and the closing parenthesis at the
    very end must have a character and no line terminator. *)
Definition bashPattern (permission : string) : option string :=
  let command :=
    String.substring 5 (String.length permission - 6) permission in
  if String.prefix "Bash(" permission
     && endsWith permission ")"
     && (7 <=? String.length permission)%nat
     && oneLine command
  then Some command
  else None.

(** [parseBashPermission(permission)] *)
Definition parseBashPermission (permission : string) (a : Allowed)
  : Allowed :=
  if String.eqb permission "Bash" then a
  else
    match bashPattern permission with
    | None => a
    | Some command =>
        if endsWith command ":*" then
          {| allowedTools := allowedTools a;
             allowedBashLiterals := allowedBashLiterals a;
             allowedBashPrefixes :=
               {[ dropLast 2 command ]} ∪ allowedBashPrefixes a;
             permissionMode := permissionMode a |}
        else
          {| allowedTools := allowedTools a;
             allowedBashLiterals := {[ command ]} ∪ allowedBashLiterals a;
             allowedBashPrefixes := allowedBashPrefixes a;
             permissionMode := permissionMode a |}
    end.

(** The body of the [forEach] over [response.allowTools]. *)
Definition allowTool (a : Allowed) (tool : string) : Allowed :=
  if Js.startsWith tool "Bash(" || String.eqb tool "Bash"
  then parseBashPermission tool a
  else
    {| allowedTools := {[ tool ]} ∪ allowedTools a;
       allowedBashLiterals := allowedBashLiterals a;
       allowedBashPrefixes := allowedBashPrefixes a;
       permissionMode := permissionMode a |}.

(** The first part of [handlePermissionResponse] (lines 72-86): the
    allowed tools and the mode of the response are taken over. *)
Definition granted (allowTools : option (list string))
    (mode : option PermissionMode) (a : Allowed) : Allowed :=
  let a1 :=
    match allowTools with
    | Some tools => foldl allowTool a tools
    | None => a
    end in
  match mode with
  | Some mode0 =>
      {| allowedTools := allowedTools a1;
         allowedBashLiterals := allowedBashLiterals a1;
         allowedBashPrefixes := allowedBashPrefixes a1;
         permissionMode := mode0 |}
  | None => a1
  end.

(** The part of [reset] that concerns the grants (lines 357-361). *)
Definition reset (a : Allowed) : Allowed :=
  {| allowedTools := ∅; allowedBashLiterals := ∅; allowedBashPrefixes := ∅;
     permissionMode := permissionMode a |}.

(** The part of [handleToolCall] before the approval flow (lines 130-166):
    is the call allowed without asking?  [command] is [input.command]
    when it is a string that is not empty, and [edit] is
    [getToolDescriptor(toolName).edit]. *)
Definition allowedAtOnce (edit : string -> bool) (toolName : string)
    (command : option string) (a : Allowed) : bool :=
  let byMode :=
    negb (String.eqb toolName "AskUserQuestion")
    && match permissionMode a with
       | BypassPermissions => true
       | AcceptEdits => edit toolName
       | _ => false
       end in
  if String.eqb toolName "Bash" then
    match command with
    | Some command0 =>
        bool_decide (command0 ∈ allowedBashLiterals a)
        || existsb (fun prefix => Js.startsWith command0 prefix)
             (elements (allowedBashPrefixes a))
        || byMode
    | None => byMode
    end
  else bool_decide (toolName ∈ allowedTools a) || byMode.

(** [handleModeChange(mode)] *)
Definition handleModeChange (mode : PermissionMode) (a : Allowed) : Allowed :=
  {| allowedTools := allowedTools a;
     allowedBashLiterals := allowedBashLiterals a;
     allowedBashPrefixes := allowedBashPrefixes a;
     permissionMode := mode |}.

(** What changes the grants over time: an answer, a change of the mode,
    a reset. *)
Inductive Change :=
| Answered (allowTools : option (list string)) (mode : option PermissionMode)
| ModeChanged (mode : PermissionMode)
| WasReset.

Definition change (a : Allowed) (c : Change) : Allowed :=
  match c with
  | Answered allowTools mode => granted allowTools mode a
  | ModeChanged mode => handleModeChange mode a
  | WasReset => reset a
  end.

Definition changes (cs : list Change) (a : Allowed) : Allowed :=
  foldl change a cs.

(** Does [c] keep what was granted? *)
Definition keepsGrants (c : Change) : bool :=
  match c with
  | WasReset => false
  | _ => true
  end.

(** Does [c] leave the tool [tool] out of what it allows? *)
Definition leavesOut (tool : string) (c : Change) : bool :=
  match c with
  | Answered (Some tools) _ => negb (bool_decide (tool ∈ tools))
  | _ => true
  end.

End Grants.

(** ** Sample runs *)

Module Episode.
Import Daemon Heartbeat.

(** A stretch in the life of the daemon: a spawn gets child 7, the child
    reports itself, a session started in a terminal reports itself as
    process 9, a sweep finds 9 gone, the timer of the spawn call fires,
    and a second spawn gets child 8. *)
Definition busy : list Happening :=
  [ Handled (Spawn (Sample.os (Some 7)) (Sample.options "/tmp" None));
    Handled (Webhook "a" (Sample.md 7));
    Handled (Webhook "b" (Sample.md 9));
    Swept (fun p => negb (bool_decide (p = 9)));
    Handled (TimerFires 0);
    Handled (Spawn (Sample.os (Some 8)) (Sample.options "/tmp" None)) ].

(** The daemon after the child of a spawn has reported itself. *)
Definition reportedSpawn : State :=
  onHappySessionWebhook "s-1" (Sample.md 4242)
    (Sample.spawnedInto 4242 Sample.fresh).

(** What may come after: the timer, the exit of the child, a sweep that
    finds nobody, and a report under another session id. *)
Definition aftermath : list Happening :=
  [ Handled (TimerFires 0);
    Handled (ChildExited 4242);
    Swept (fun _ => false);
    Handled (Webhook "s-2" (Sample.md 4242)) ].

(** The child exits before it has reported itself. *)
Definition earlyExit : list Happening := [ Handled (ChildExited 4242) ].

(** What goes on around a call that waits for process 4242: a second
    session is spawned, an outside session reports itself and is stopped,
    the heartbeat finds everybody alive, the second child exits, and a
    timer that has nothing to wait for fires. *)
Definition bystanders : list Happening :=
  [ Handled (Spawn (Sample.os (Some 5151)) (Sample.options "/tmp" None));
    Handled (Webhook "s-9" (Sample.md 77));
    Handled (Stop false "s-9");
    Swept (fun _ => true);
    Handled (ChildExited 5151);
    Handled (TimerFires 7) ].

(** *** A session client with strings for everything *)

(** A decrypted value is a user message when it starts with [user:]. *)
Definition safeParse (body : string) : option string :=
  if String.prefix "user:" body then Some body else None.

Definition nonempty (blob : string) : bool := negb (String.eqb blob "").

(** Decrypting leaves the text as it is, and throws on the empty bundle,
    as the legacy variant does. *)
Definition unseal (blob : string) : option string :=
  if nonempty blob then Some blob else None.

Definition inbox
  : Inbox.Client (M := string) (A := string) (U := string)
      (Plain := string) (Blob := string) :=
  {| Inbox.metadata := None; Inbox.metadataVersion := 3;
     Inbox.agentState := None; Inbox.agentStateVersion := 0;
     Inbox.pendingMessages := []; Inbox.pendingMessageCallback := None;
     Inbox.delivered := []; Inbox.emitted := [] |}.

(** Two messages arrive before anybody listens, and one after. *)
Definition traffic : list (Inbox.Event (Blob := string)) :=
  [ Inbox.Update (Some (Inbox.NewMessage (Inbox.Encrypted "user:one")));
    Inbox.Update (Some (Inbox.UpdateSession (Some (5, "title")) None));
    Inbox.Update (Some (Inbox.NewMessage (Inbox.Encrypted "user:two")));
    Inbox.Listen 1;
    Inbox.Update (Some (Inbox.NewMessage (Inbox.Encrypted "user:three"))) ].

(** An update whose metadata cannot be decrypted and that carries an agent
    state, a message that cannot be decrypted, and an update that carries
    the same agent state alone. *)
Definition garbled : list (Inbox.Event (Blob := string)) :=
  [ Inbox.Update
      (Some (Inbox.UpdateSession (Some (9, "")) (Some (4, Some "idle"))));
    Inbox.Update (Some (Inbox.NewMessage (Inbox.Encrypted "")));
    Inbox.Update (Some (Inbox.UpdateSession None (Some (2, Some "busy")))) ].

(** *** An RPC manager with strings for everything *)

Definition errorResponse (text : string) : string := "error: " +:+ text.

(** A cipher that seals a text by a mark in front of it; opening a
    bundle without the mark throws, as the legacy variant does on a
    bundle without a nonce. *)
Definition wrap (text : string) : string := String "#" text.

Definition unwrap (blob : string) : Rpc.Settlement (Plain := string) :=
  match blob with
  | String "#" text => Rpc.Resolves text
  | _ => Rpc.RejectsError "bad nonce size"
  end.

Definition echo : Rpc.RpcHandler (Plain := string) :=
  fun params => Rpc.Resolves ("echo " +:+ params).

Definition manager : Rpc.Manager (Plain := string) := Rpc.create "s-1".

Definition registrations : list (Rpc.Op (Plain := string)) :=
  [ Rpc.Register "bash" echo; Rpc.Clear; Rpc.Register "permission" echo ].

(** *** Ciphers that leave the bytes alone *)

Definition secretbox (message nonce key : list Z) : list Z := message.

Definition secretbox_open (box nonce key : list Z) : Encryption.Opened :=
  Encryption.Plaintext box.

Definition gcm (key nonce plaintext : list Z) : list Z * list Z :=
  (plaintext, replicate 16 7).

Definition gcm_open (key nonce tag ciphertext : list Z) : option (list Z) :=
  Some ciphertext.

Definition nonce12 : list Z := [1; 2; 3; 4; 5; 6; 7; 8; 9; 10; 11; 12].

(** *** Tool calls *)

Definition toolCalls : list (Permission.ToolCall (I := string)) :=
  [ {| Permission.id := "t1"; Permission.name := "Bash";
       Permission.input := "ls"; Permission.used := true |};
    {| Permission.id := "t2"; Permission.name := "Bash";
       Permission.input := "ls"; Permission.used := false |} ].

Definition conversation : list (Permission.Op (I := string)) :=
  [ Permission.Resolve "Bash" "ls";
    Permission.Message
      (Permission.Assistant
         (Some [Permission.ToolUse "t3" "Edit" "a.txt"]));
    Permission.Message
      (Permission.User (Some [Permission.ToolResult (Some "t3")])) ].

(** *** The running daemon *)

(** A tick that finds version [v] on disk at [time]. *)
Definition beat (v time : string) : Pulse.Beat :=
  {| Pulse.alive := fun _ => true; Pulse.projectVersion := v;
     Pulse.timeText := time; Pulse.writeThrows := false |}.

(** The daemon of the samples once it waits, its record being [st]. *)
Definition waitingDaemon (st : Lifecycle.DaemonLocallyPersistedState)
  : Pulse.Running :=
  Pulse.begin (Lifecycle.startDaemon Sample.setup (Sample.host "1.2.2")).1 st.

(** Its record. *)
Definition ownRecord : Lifecycle.DaemonLocallyPersistedState :=
  {| Lifecycle.pid := 200; Lifecycle.httpPort := 5000;
     Lifecycle.startTime := "10:00";
     Lifecycle.startedWithCliVersion := "1.2.3";
     Lifecycle.lastHeartbeat := None;
     Lifecycle.daemonLogPath := "/logs/b.log" |}.

(** Two ticks. *)
Definition quietHour : list Pulse.Incident :=
  [ Pulse.Tick (beat "1.2.3" "10:01");
    Pulse.Tick (beat "1.2.3" "10:02") ].

(** *** Grants *)

(** The answers of a user who allows two tools, a command and a prefix,
    and later changes the mode twice. *)
Definition answers : list Grants.Change :=
  [ Grants.Answered (Some ["Read"; "Bash(git status)"]) None;
    Grants.ModeChanged Grants.BypassPermissions;
    Grants.Answered None (Some Grants.Plan) ].

(** Nothing edits. *)
Definition noEdit (toolName : string) : bool := false.

End Episode.

(** * Properties *)

(** ** Insertion-ordered maps *)

Module JsMapFacts.
Section Facts.
Context {K V : Type} `{EqDecision K}.
Implicit Types (k : K) (v : V) (m : list (K * V)).

Lemma get_set_eq k v m : JsMap.get k (JsMap.set k v m) = Some v.
Proof.
  induction m as [|[k' v'] m IH]; simpl.
  - by rewrite decide_True.
  - destruct (decide (k' = k)) as [->|Hne]; simpl.
    + by rewrite decide_True.
    + by rewrite decide_False.
Qed.

Lemma get_set_ne k k' v m : k ≠ k' → JsMap.get k' (JsMap.set k v m) = JsMap.get k' m.
Proof.
  intros Hne. induction m as [|[k0 v0] m IH]; simpl.
  - by rewrite decide_False.
  - destruct (decide (k0 = k)) as [->|Hk]; simpl.
    + by rewrite !decide_False.
    + destruct (decide (k0 = k')); [done | apply IH].
Qed.

Lemma get_delete_eq k m : JsMap.get k (JsMap.delete k m) = None.
Proof.
  induction m as [|[k' v'] m IH]; simpl; [done|].
  destruct (decide (k' = k)) as [->|Hne]; simpl; [done|].
  by rewrite decide_False.
Qed.

Lemma get_delete_ne k k' m : k ≠ k' → JsMap.get k' (JsMap.delete k m) = JsMap.get k' m.
Proof.
  intros Hne. induction m as [|[k0 v0] m IH]; simpl; [done|].
  destruct (decide (k0 = k)) as [->|Hk]; simpl.
  - by rewrite decide_False.
  - destruct (decide (k0 = k')); [done | apply IH].
Qed.

Lemma delete_id k m : JsMap.get k m = None → JsMap.delete k m = m.
Proof.
  induction m as [|[k' v'] m IH]; simpl; [done|].
  destruct (decide (k' = k)); [done|]. intros H. by rewrite IH.
Qed.

Lemma get_Some_elem k v m : JsMap.get k m = Some v → (k, v) ∈ m.
Proof.
  induction m as [|[k' v'] m IH]; simpl; [done|].
  destruct (decide (k' = k)) as [->|Hne].
  - intros [= ->]. left.
  - intros H. right. by apply IH.
Qed.

Lemma elem_delete k kv m : kv ∈ JsMap.delete k m → kv ∈ m ∧ kv.1 ≠ k.
Proof.
  induction m as [|[k' v'] m IH]; simpl; [by intros ?%elem_of_nil|].
  destruct (decide (k' = k)) as [->|Hne].
  - intros H. destruct (IH H). split; [by right | done].
  - intros [->|H]%elem_of_cons.
    + split; [left | done].
    + destruct (IH H). split; [by right | done].
Qed.

Lemma keys_set_NoDup k v m : NoDup (JsMap.keys m) → NoDup (JsMap.keys (JsMap.set k v m)).
Proof.
  unfold JsMap.keys. induction m as [|[k' v'] m IH]; simpl.
  - intros _. apply NoDup_singleton.
  - intros [Hn Hd]%NoDup_cons. destruct (decide (k' = k)) as [->|Hne]; simpl.
    + by apply NoDup_cons.
    + apply NoDup_cons. split; [|by apply IH].
      intros Hin. apply Hn. clear IH Hd Hn.
      induction m as [|[k0 v0] m IHm]; simpl in *.
      * apply list_elem_of_singleton in Hin. congruence.
      * destruct (decide (k0 = k)) as [->|?]; simpl in *.
        -- apply elem_of_cons in Hin as [?|?]; [congruence | by right].
        -- apply elem_of_cons in Hin as [->|?]; [left | right; by apply IHm].
Qed.

Lemma set_fresh k v m : JsMap.get k m = None → JsMap.set k v m = m ++ [(k, v)].
Proof.
  induction m as [|[k' v'] m IH]; simpl; [done|].
  destruct (decide (k' = k)); [done|]. intros Hm. by rewrite IH.
Qed.

Lemma keys_set_present k v m :
  is_Some (JsMap.get k m) → JsMap.keys (JsMap.set k v m) = JsMap.keys m.
Proof.
  unfold JsMap.keys. induction m as [|[k' v'] m IH]; simpl.
  - by intros [? ?].
  - destruct (decide (k' = k)) as [->|Hne]; [done|].
    intros Hm. rewrite fmap_cons. f_equal. by apply IH.
Qed.

Lemma get_None_not_elem k v m : JsMap.get k m = None → (k, v) ∉ m.
Proof.
  induction m as [|[k' v'] m IH]; simpl; [intros _; apply not_elem_of_nil|].
  destruct (decide (k' = k)) as [->|Hne]; [done|].
  intros Hm [[= -> ->]|Hin]%elem_of_cons; [done|]. by apply IH.
Qed.

Lemma elem_set k v kv m : kv ∈ JsMap.set k v m → kv = (k, v) ∨ kv ∈ m.
Proof.
  induction m as [|[k' v'] m IH]; simpl.
  - intros ?%list_elem_of_singleton. by left.
  - destruct (decide (k' = k)) as [->|Hne].
    + intros [->|Hin]%elem_of_cons; [by left | right; by right].
    + intros [->|Hin]%elem_of_cons; [right; left|].
      destruct (IH Hin); [by left | right; by right].
Qed.

Lemma get_delete_Some k k' v m :
  JsMap.get k' (JsMap.delete k m) = Some v → JsMap.get k' m = Some v.
Proof.
  destruct (decide (k = k')) as [->|Hne].
  - by rewrite get_delete_eq.
  - by rewrite get_delete_ne.
Qed.

End Facts.
End JsMapFacts.

(** ** Numbers as text *)

Module JsFacts.
Import Js.

Example toString_15000 : toString 15000 = "15000".
Proof. reflexivity. Qed.

Example toString_negative : toString (-7) = "-7".
Proof. reflexivity. Qed.

Example toString_zero : toString 0 = "0".
Proof. reflexivity. Qed.

Example parseInt_prefix : parseInt "  12abc" = Some 12.
Proof. reflexivity. Qed.

Example parseInt_hex : parseInt "0x1f" = Some 31.
Proof. reflexivity. Qed.

Example parseInt_NaN : parseInt "abc" = None.
Proof. reflexivity. Qed.

Example replace_first_only : replace "PID-" "" "aPID-42PID-" = "a42PID-".
Proof. reflexivity. Qed.

Lemma digit_char_facts d :
  0 ≤ d < 10 →
  code (digit_char d) = 48 + d ∧ digit_value 10 (digit_char d) = Some d.
Proof.
  intros Hd.
  assert (d = 0 ∨ d = 1 ∨ d = 2 ∨ d = 3 ∨ d = 4 ∨ d = 5 ∨ d = 6 ∨ d = 7
          ∨ d = 8 ∨ d = 9) as Hcases by lia.
  repeat (destruct Hcases as [->|Hcases]; [by vm_compute|]).
  subst. by vm_compute.
Qed.

Lemma digits_all_digits fuel n acc :
  0 ≤ n → all_digits acc = true → all_digits (digits fuel n acc) = true.
Proof.
  revert n acc. induction fuel as [|fuel IH]; intros n acc Hn Hacc; [done|].
  simpl.
  assert (all_digits (String (digit_char (n mod 10)) acc) = true) as Hacc'.
  { simpl. pose proof (Z.mod_pos_bound n 10 ltac:(lia)) as Hmod.
    destruct (digit_char_facts (n mod 10)) as [-> _]; [done|].
    rewrite Hacc. apply andb_true_iff. split; [|done].
    apply andb_true_iff. split; lia. }
  destruct (n <? 10); [done|]. apply IH; [|done].
  apply Z.div_pos; lia.
Qed.

Lemma digits_nonempty fuel n acc : digits (S fuel) n acc ≠ EmptyString.
Proof.
  revert n acc. induction fuel as [|fuel IH]; intros n acc; simpl.
  - by destruct (n <? 10).
  - destruct (n <? 10); [done|]. apply IH.
Qed.

Lemma digits_S fuel n acc :
  digits (S fuel) n acc
  = if n <? 10 then String (digit_char (n mod 10)) acc
    else digits fuel (n / 10) (String (digit_char (n mod 10)) acc).
Proof. reflexivity. Qed.

(** Reading back the digits of [n] appends them to what has been read. *)
Lemma parse_digits_digits fuel n :
  0 ≤ n < 2 ^ Z.of_nat (S fuel) →
  ∃ k, 0 ≤ k ∧ ∀ a acc,
    parse_digits 10 a (digits (S fuel) n acc)
    = parse_digits 10 (Some (default 0 a * 10 ^ k + n)) acc.
Proof.
  revert n. induction fuel as [|fuel IH]; intros n Hn.
  - exists 1. split; [lia|]. intros a acc. simpl.
    assert ((n <? 10) = true) as -> by (apply Z.ltb_lt; simpl in Hn; lia).
    simpl. assert (n mod 10 = n) as -> by (apply Z.mod_small; simpl in Hn; lia).
    destruct (digit_char_facts n) as [_ ->]; [simpl in Hn; lia|].
    do 2 f_equal; lia.
  - destruct (n <? 10) eqn:Hlt.
    + exists 1. split; [lia|]. intros a acc.
      rewrite (digits_S (S fuel)), Hlt. apply Z.ltb_lt in Hlt.
      assert (n mod 10 = n) as -> by (apply Z.mod_small; lia).
      cbn [parse_digits]. destruct (digit_char_facts n) as [_ ->]; [lia|].
      do 2 f_equal; lia.
    + destruct (IH (n / 10)) as (k & Hk & Hparse).
      { apply Z.ltb_ge in Hlt. split; [apply Z.div_pos; lia|].
        apply Z.div_lt_upper_bound; [lia|].
        rewrite (Nat2Z.inj_succ (S fuel)), Z.pow_succ_r in Hn by lia. lia. }
      exists (k + 1). split; [lia|]. intros a acc.
      rewrite (digits_S (S fuel)), Hlt, Hparse.
      cbn [parse_digits]. destruct (digit_char_facts (n mod 10)) as [_ ->];
        [apply Z.mod_pos_bound; lia|].
      do 2 f_equal. unfold default, id. rewrite Z.pow_add_r, Z.pow_1_r by lia.
      pose proof (Z.div_mod n 10 ltac:(lia)). nia.
Qed.

Lemma prefix_cons a p c s :
  String.prefix (String a p) (String c s)
  = if ascii_dec a c then String.prefix p s else false.
Proof. reflexivity. Qed.

Lemma prefix_nil s : String.prefix "" s = true.
Proof. by destruct s. Qed.

Lemma replace_prefix pat rep s :
  String.prefix pat s = true →
  replace pat rep s = rep +:+ slice (String.length pat) s.
Proof. intros H. destruct s; cbn [replace]; by rewrite H. Qed.

(** The synthetic id of a pid, taken apart the way [stopSession] does. *)
Lemma pid_form_parts t :
  startsWith ("PID-" +:+ t) "PID-" = true
  ∧ replace "PID-" "" ("PID-" +:+ t) = t.
Proof.
  assert (String.prefix "PID-" ("PID-" +:+ t) = true) as Hp.
  { change ("PID-" +:+ t)
      with (String "P" (String "I" (String "D" (String "-" t)))).
    rewrite !prefix_cons.
    repeat (match goal with |- context [ascii_dec ?a ?b] =>
              destruct (ascii_dec a b); [|done] end).
    apply prefix_nil. }
  split; [exact Hp|]. by rewrite replace_prefix.
Qed.

(** On a text of decimal digits [parseInt] reads all of it in base 10. *)
Lemma parseInt_all_digits s :
  all_digits s = true → s ≠ EmptyString →
  parseInt s = parse_digits 10 None s ≫= toDouble.
Proof.
  destruct s as [|c s]; [done|]. intros Hall _. simpl in Hall.
  apply andb_true_iff in Hall as [Hc Hs].
  apply andb_true_iff in Hc as [Hlo Hhi].
  apply Z.leb_le in Hlo, Hhi.
  unfold parseInt. cbn [trimStart].
  assert (is_white c = false) as ->.
  { unfold is_white. apply orb_false_iff. split.
    - apply andb_false_iff. right. lia.
    - lia. }
  assert (Ascii.eqb c "-" = false) as ->.
  { apply Ascii.eqb_neq. intros ->. vm_compute in Hlo. done. }
  assert (Ascii.eqb c "+" = false) as ->.
  { apply Ascii.eqb_neq. intros ->. vm_compute in Hlo. done. }
  assert (∀ x, code x < 48 ∨ 57 < code x →
               String.prefix (String "0" (String x "")) (String c s) = false)
    as Hprefix.
  { intros x Hx. rewrite prefix_cons. destruct (ascii_dec "0" c); [|done].
    destruct s as [|c2 s2]; [done|]. rewrite prefix_cons.
    destruct (ascii_dec x c2) as [<-|]; [|done].
    simpl in Hs. apply andb_true_iff in Hs as [Hc2 _].
    apply andb_true_iff in Hc2 as [?%Z.leb_le ?%Z.leb_le]. lia. }
  rewrite !Hprefix by (right; by vm_compute).
  cbn [orb]. generalize (parse_digits 10 None (String c s)).
  intros [z|]; [|done].
  cbn [fmap option_fmap option_map mbind option_bind]. f_equal. lia.
Qed.

(** Below 2^53 every integer is a double. *)
Lemma toDouble_safe n : - 2 ^ 53 < n < 2 ^ 53 → toDouble n = Some n.
Proof.
  intros Hn. unfold toDouble.
  by assert ((Z.abs n <? 2 ^ 53) = true) as -> by lia.
Qed.

(** [parseInt] reads the digits of [n] as the double nearest to [n]. *)
Lemma parseInt_toString n : 0 ≤ n → parseInt (toString n) = toDouble n.
Proof.
  intros Hn. unfold toString.
  assert ((n <? 0) = false) as -> by lia.
  rewrite parseInt_all_digits;
    [|by apply digits_all_digits|apply digits_nonempty].
  destruct (parse_digits_digits (Z.to_nat (Z.log2 n)) n) as (k & _ & ->).
  - split; [done|]. rewrite Nat2Z.inj_succ, Z2Nat.id by apply Z.log2_nonneg.
    destruct (decide (n = 0)) as [->|]; [done|].
    apply Z.log2_spec. lia.
  - cbn [parse_digits mbind option_bind default id].
    by replace (0 * 10 ^ k + n) with n by lia.
Qed.

(** From 2^53 on [parseInt] rounds: to the even neighbour half way between
    two doubles, to the nearer one otherwise, to an infinity beyond the
    doubles. *)
Example parseInt_rounds :
  parseInt "9007199254740992" = Some 9007199254740992
  ∧ parseInt "9007199254740993" = Some 9007199254740992
  ∧ parseInt "9007199254740994" = Some 9007199254740994
  ∧ parseInt "9007199254740995" = Some 9007199254740996
  ∧ parseInt "-9007199254740993" = Some (-9007199254740992)
  ∧ parseInt "36028797018963969" = Some 36028797018963968
  ∧ parseInt "36028797018963975" = Some 36028797018963976
  ∧ toDouble (2 ^ 1024 - 2 ^ 970 - 1) = Some (2 ^ 1024 - 2 ^ 971)
  ∧ toDouble (2 ^ 1024 - 2 ^ 970) = None.
Proof. repeat split; vm_compute; reflexivity. Qed.

End JsFacts.

(** ** The self-report webhook *)

Module WebhookFacts.
Import Daemon.

#[local] Arguments JsMap.keys : simpl never.

Lemma webhook_no_pid sessionId md d :
  hostPid md = None ∨ hostPid md = Some 0 →
  onHappySessionWebhook sessionId md d = d.
Proof. unfold onHappySessionWebhook. by intros [-> | ->]. Qed.

Lemma webhook_daemon_entry sessionId md d p s :
  hostPid md = Some p → p ≠ 0 →
  JsMap.get p (pidToTrackedSession d) = Some s → startedBy s = ByDaemon →
  onHappySessionWebhook sessionId md d =
    let d1 :=
      with_sessions (JsMap.set p (reported sessionId md s) (pidToTrackedSession d)) d in
    match JsMap.get p (pidToAwaiter d) with
    | Some c =>
        awaiter c (reported sessionId md s)
          (with_awaiters (JsMap.delete p (pidToAwaiter d)) d1)
    | None => d1
    end.
Proof.
  intros Hp Hp0 Hs Hby. unfold onHappySessionWebhook.
  rewrite Hp, bool_decide_eq_false_2, Hs by done.
  unfold reported. destruct s; simpl in *. by subst.
Qed.

Lemma webhook_new_entry sessionId md d p :
  hostPid md = Some p → p ≠ 0 →
  JsMap.get p (pidToTrackedSession d) = None →
  onHappySessionWebhook sessionId md d =
    with_sessions (pidToTrackedSession d ++ [(p, external sessionId md p)]) d.
Proof.
  intros Hp Hp0 Hs. unfold onHappySessionWebhook.
  rewrite Hp, bool_decide_eq_false_2, Hs by done.
  by rewrite JsMapFacts.set_fresh.
Qed.

Lemma webhook_other_entry sessionId md d p s :
  hostPid md = Some p →
  JsMap.get p (pidToTrackedSession d) = Some s →
  startedBy s = ByHappyDirectly →
  onHappySessionWebhook sessionId md d = d.
Proof.
  intros Hp Hs Hby. unfold onHappySessionWebhook. rewrite Hp.
  case_bool_decide; [done|]. by rewrite Hs, Hby.
Qed.

Lemma awaiter_sessions c s d :
  pidToTrackedSession (awaiter c s d) = pidToTrackedSession d.
Proof. reflexivity. Qed.

Lemma awaiter_awaiters c s d : pidToAwaiter (awaiter c s d) = pidToAwaiter d.
Proof. reflexivity. Qed.

Lemma awaiter_outcome_pending c s d pr :
  spawnPromises d !! c = Some pr → settled pr = None →
  spawnPromises (awaiter c s d) !! c =
    Some {| settled := Some (Success (happySessionId s)); timerArmed := false;
            awaitedPid := awaitedPid pr |}.
Proof.
  intros Hc Hpend. unfold awaiter; simpl.
  rewrite list_lookup_alter_eq, Hc; simpl. unfold resolve; simpl.
  by rewrite Hpend.
Qed.

(** C5.  A webhook whose metadata has no [hostPid] (it is missing, or it
    is the falsy 0) leaves the daemon as it is.  For a pid with a
    daemon-spawned entry the entry is updated in place with the reported
    session id and metadata, the other entries are untouched, and the
    awaiter of that pid, if one is pending, is resolved with the reported
    id and removed.  For a pid without an entry a new externally-started
    entry is added under that pid. *)
Theorem webhook_cases sessionId md d :
  let d' := onHappySessionWebhook sessionId md d in
  (hostPid md = None ∨ hostPid md = Some 0 → d' = d)
  ∧ (∀ p s, hostPid md = Some p → p ≠ 0 →
       JsMap.get p (pidToTrackedSession d) = Some s → startedBy s = ByDaemon →
       JsMap.get p (pidToTrackedSession d') = Some (reported sessionId md s)
       ∧ JsMap.keys (pidToTrackedSession d') = JsMap.keys (pidToTrackedSession d)
       ∧ (∀ q, q ≠ p →
            JsMap.get q (pidToTrackedSession d') = JsMap.get q (pidToTrackedSession d))
       ∧ JsMap.get p (pidToAwaiter d') = None
       ∧ (∀ c pr, JsMap.get p (pidToAwaiter d) = Some c →
            spawnPromises d !! c = Some pr → settled pr = None →
            outcome c d' = Some (Success (Some sessionId))
            ∧ timerArmed <$> spawnPromises d' !! c = Some false))
  ∧ (∀ p, hostPid md = Some p → p ≠ 0 →
       JsMap.get p (pidToTrackedSession d) = None →
       JsMap.get p (pidToTrackedSession d') = Some (external sessionId md p)
       ∧ pidToTrackedSession d' =
           pidToTrackedSession d ++ [(p, external sessionId md p)]
       ∧ pidToAwaiter d' = pidToAwaiter d
       ∧ spawnPromises d' = spawnPromises d).
Proof.
  intros d'. subst d'. split; [apply webhook_no_pid|]. split.
  - intros p s Hp Hp0 Hs Hby.
    rewrite (webhook_daemon_entry _ _ _ _ _ Hp Hp0 Hs Hby). cbv zeta.
    destruct (JsMap.get p (pidToAwaiter d)) as [c|] eqn:Haw.
    + rewrite awaiter_sessions, awaiter_awaiters. simpl.
      rewrite JsMapFacts.get_set_eq, JsMapFacts.get_delete_eq.
      rewrite JsMapFacts.keys_set_present by (by rewrite Hs).
      split; [done|]. split; [done|].
      split; [by intros; apply JsMapFacts.get_set_ne|]. split; [done|].
      intros c0 pr [= <-] Hc Hpend.
      pose proof (awaiter_outcome_pending c (reported sessionId md s)
        (with_awaiters (JsMap.delete p (pidToAwaiter d))
          (with_sessions
            (JsMap.set p (reported sessionId md s) (pidToTrackedSession d)) d))
        pr Hc Hpend) as Hout.
      split; [unfold outcome; by rewrite Hout|].
      simpl in Hout. by rewrite Hout.
    + simpl. rewrite JsMapFacts.get_set_eq, Haw.
      rewrite JsMapFacts.keys_set_present by (by rewrite Hs).
      repeat split; [by intros; apply JsMapFacts.get_set_ne | done | done].
  - intros p Hp Hp0 Hs. rewrite (webhook_new_entry _ _ _ _ Hp Hp0 Hs). simpl.
    repeat split. rewrite <- (JsMapFacts.set_fresh p _ _ Hs).
    apply JsMapFacts.get_set_eq.
Qed.

(** C10.  A webhook for a pid whose entry was not started by the daemon
    changes nothing: not the entry, not the registry, no awaiter, no
    promise. *)
Theorem webhook_external_unchanged sessionId md d p s :
  hostPid md = Some p →
  JsMap.get p (pidToTrackedSession d) = Some s →
  startedBy s = ByHappyDirectly →
  onHappySessionWebhook sessionId md d = d
  ∧ JsMap.get p (pidToTrackedSession (onHappySessionWebhook sessionId md d))
    = Some s
  ∧ pidToAwaiter (onHappySessionWebhook sessionId md d) = pidToAwaiter d
  ∧ spawnPromises (onHappySessionWebhook sessionId md d) = spawnPromises d.
Proof.
  intros Hp Hs Hby.
  by rewrite (webhook_other_entry sessionId md d p s Hp Hs Hby).
Qed.

End WebhookFacts.

(** ** Spawning *)

Module SpawnFacts.
Import Daemon.

Ltac no_member :=
  let Hin := fresh "Hin" in
  intros; intros Hin;
  repeat (apply elem_of_cons in Hin as [?|Hin]; [done|]);
  by apply elem_of_nil in Hin.

Ltac effects_are es :=
  exists es; split; [by rewrite <- ?app_assoc, ?app_nil_r | split; no_member].

Lemma resolveAuthEnv_frame os options d :
  let d1 := (resolveAuthEnv os options d).1 in
  pidToTrackedSession d1 = pidToTrackedSession d
  ∧ pidToAwaiter d1 = pidToAwaiter d
  ∧ spawnPromises d1 = spawnPromises d
  ∧ directories d1 = directories d
  ∧ ∃ es, effects d1 = effects d ++ es
          ∧ (∀ args cwd det env, SpawnHappyCLI args cwd det env ∉ es)
          ∧ (∀ dir r, FsMkdir dir r ∉ es).
Proof.
  unfold resolveAuthEnv.
  destruct (Js.truthy_opt (token options)); simpl.
  - destruct (agent options) as [[|]|]; simpl.
    + repeat split. effects_are (@nil Effect).
    + destruct (tmp_dirSync os) as [name|thrown]; simpl; repeat split.
      * effects_are [TmpDirSync name;
                     FsWriteFile (join name "auth.json") (default "" (token options))].
      * effects_are (@nil Effect).
    + repeat split. effects_are (@nil Effect).
  - repeat split. effects_are (@nil Effect).
Qed.

Lemma resolveAuthEnv_env os options d d0 :
  (resolveAuthEnv os options d).2 = (resolveAuthEnv os options d0).2.
Proof.
  unfold resolveAuthEnv.
  destruct (Js.truthy_opt (token options)); [|done].
  destruct (agent options) as [[|]|]; [done| |done].
  by destruct (tmp_dirSync os).
Qed.

(** The call that [launchSession] hands to [spawnHappyCLI]. *)
Lemma launchSession_pid os options created d p :
  (∃ authEnv, (resolveAuthEnv os options d).2 = inr authEnv) →
  launch os = LaunchChild (Some p) → p ≠ 0 →
  ∃ d', launchSession os options created d
          = (d', Awaiting (length (spawnPromises d)))
    ∧ pidToTrackedSession d'
        = JsMap.set p (spawned p created (directory options)) (pidToTrackedSession d)
    ∧ pidToAwaiter d' = JsMap.set p (length (spawnPromises d)) (pidToAwaiter d)
    ∧ spawnPromises d' = spawnPromises d ++ [pending p]
    ∧ directories d' = directories d.
Proof.
  intros [authEnv Hauth] Hlaunch Hp.
  pose proof (resolveAuthEnv_frame os options d) as (Hs & Ha & Hpr & Hd & _).
  unfold launchSession.
  destruct (resolveAuthEnv os options d) as [d1 [thrown|env]]; simpl in *; [done|].
  rewrite Hlaunch, bool_decide_eq_false_2 by done.
  simpl. rewrite Hs, Ha, Hpr.
  eexists. split; [reflexivity|]. done.
Qed.

Lemma launchSession_no_pid os options created d :
  (∃ authEnv, (resolveAuthEnv os options d).2 = inr authEnv) →
  launch os = LaunchChild None ∨ launch os = LaunchChild (Some 0) →
  ∃ d', launchSession os options created d = (d', Returned (Error noPidMessage))
    ∧ pidToTrackedSession d' = pidToTrackedSession d
    ∧ pidToAwaiter d' = pidToAwaiter d
    ∧ spawnPromises d' = spawnPromises d.
Proof.
  intros [authEnv Hauth] Hlaunch.
  pose proof (resolveAuthEnv_frame os options d) as (Hs & Ha & Hpr & Hd & _).
  unfold launchSession.
  destruct (resolveAuthEnv os options d) as [d1 [thrown|env]]; simpl in *; [done|].
  destruct Hlaunch as [-> | ->]; eexists; (split; [reflexivity|]); simpl;
    by rewrite Hs, Ha, Hpr.
Qed.

(** A call returns at once and leaves the registry alone, or it hands out
    a new promise for the pid it has registered. *)
Lemma launchSession_shape os options created d :
  let '(d', r) := launchSession os options created d in
  (pidToTrackedSession d' = pidToTrackedSession d
   ∧ pidToAwaiter d' = pidToAwaiter d
   ∧ spawnPromises d' = spawnPromises d
   ∧ ∃ text, r = Returned (Error text))
  ∨ (∃ p, p ≠ 0 ∧ launch os = LaunchChild (Some p)
     ∧ pidToTrackedSession d'
         = JsMap.set p (spawned p created (directory options)) (pidToTrackedSession d)
     ∧ pidToAwaiter d' = JsMap.set p (length (spawnPromises d)) (pidToAwaiter d)
     ∧ spawnPromises d' = spawnPromises d ++ [pending p]
     ∧ r = Awaiting (length (spawnPromises d))).
Proof.
  pose proof (resolveAuthEnv_frame os options d) as (Hs & Ha & Hpr & Hd & _).
  unfold launchSession.
  destruct (resolveAuthEnv os options d) as [d1 [thrown|env]]; simpl in *.
  - left. eauto.
  - destruct (launch os) as [thrown|[p|]] eqn:Hl; simpl.
    + left. rewrite Hs, Ha, Hpr. eauto.
    + case_bool_decide as Hp0.
      * left. simpl. rewrite Hs, Ha, Hpr. eauto.
      * right. exists p. simpl. by rewrite Hs, Ha, Hpr.
    + left. simpl. rewrite Hs, Ha, Hpr. eauto.
Qed.

Lemma spawnSession_shape os options d :
  let '(d', r) := spawnSession os options d in
  (pidToTrackedSession d' = pidToTrackedSession d
   ∧ pidToAwaiter d' = pidToAwaiter d
   ∧ spawnPromises d' = spawnPromises d
   ∧ ∃ res, r = Returned res ∧ ∀ sid, res ≠ Success sid)
  ∨ (∃ p created, p ≠ 0 ∧ launch os = LaunchChild (Some p)
     ∧ pidToTrackedSession d'
         = JsMap.set p (spawned p created (directory options)) (pidToTrackedSession d)
     ∧ pidToAwaiter d' = JsMap.set p (length (spawnPromises d)) (pidToAwaiter d)
     ∧ spawnPromises d' = spawnPromises d ++ [pending p]
     ∧ r = Awaiting (length (spawnPromises d))).
Proof.
  unfold spawnSession. case_bool_decide as Hdir.
  - pose proof (launchSession_shape os options false d) as H.
    destruct (launchSession os options false d) as [d' r].
    destruct H as [(?&?&?&text&->)|(p&?&?&?&?&?&?)]; [left|right; eauto 10].
    repeat split; try done. by eexists.
  - destruct (default true (approvedNewDirectoryCreation options)); simpl.
    + destruct (mkdir os) as [e|].
      * left. repeat split. by eexists.
      * match goal with |- context [launchSession os options true ?d0] =>
          pose proof (launchSession_shape os options true d0) as H;
          destruct (launchSession os options true d0) as [d' r] end.
        simpl in H.
        destruct H as [(?&?&?&text&->)|(p&?&?&?&?&?&?)]; [left|right; eauto 10].
        repeat split; try done. by eexists.
    + left. repeat split. by eexists.
Qed.

Lemma authMaterial_eq os options d :
  (resolveAuthEnv os options d).2 = authMaterial os options.
Proof. apply resolveAuthEnv_env. Qed.

(** What one [launchSession] run does to the outside world. *)
Lemma launchSession_effects os options created d :
  let d' := (launchSession os options created d).1 in
  directories d' = directories d
  ∧ ∃ es, effects d' = effects d ++ es
      ∧ (∀ dir r, FsMkdir dir r ∉ es)
      ∧ (∀ args cwd det env, SpawnHappyCLI args cwd det env ∈ es →
           ∃ authEnv, authMaterial os options = inr authEnv
             ∧ args = cliArgs options ∧ cwd = directory options ∧ det = true
             ∧ env = childEnv os options authEnv)
      ∧ (∀ authEnv, authMaterial os options = inr authEnv →
           SpawnHappyCLI (cliArgs options) (directory options) true
             (childEnv os options authEnv) ∈ es).
Proof.
  pose proof (resolveAuthEnv_frame os options d)
    as (_ & _ & _ & Hd & es0 & He & Hno & Hmk).
  pose proof (authMaterial_eq os options d) as Hauth.
  unfold launchSession.
  destruct (resolveAuthEnv os options d) as [d1 [thrown|authEnv]];
    simpl in *.
  - split; [done|]. exists es0. rewrite <- Hauth.
    repeat split; try done. intros ???? Hin. by apply Hno in Hin.
  - set (e := SpawnHappyCLI (cliArgs options) (directory options) true
                (childEnv os options authEnv)).
    assert (Hall : ∃ es, effects d1 ++ [e] = effects d ++ es
      ∧ (∀ dir r, FsMkdir dir r ∉ es)
      ∧ (∀ args cwd det env, SpawnHappyCLI args cwd det env ∈ es →
           ∃ authEnv0, authMaterial os options = inr authEnv0
             ∧ args = cliArgs options ∧ cwd = directory options ∧ det = true
             ∧ env = childEnv os options authEnv0)
      ∧ (∀ authEnv0, authMaterial os options = inr authEnv0 →
           SpawnHappyCLI (cliArgs options) (directory options) true
             (childEnv os options authEnv0) ∈ es)).
    { exists (es0 ++ [e]). rewrite He, <- app_assoc, <- Hauth.
      split; [done|]. split; [|split].
      - intros dir r [Hin|Hin]%elem_of_app; [by apply Hmk in Hin|].
        by apply list_elem_of_singleton in Hin.
      - intros args cwd det env [Hin|Hin]%elem_of_app; [by apply Hno in Hin|].
        apply list_elem_of_singleton in Hin. injection Hin as -> -> -> ->.
        by exists authEnv.
      - intros authEnv0 [= <-]. apply elem_of_app. right.
        by apply list_elem_of_singleton. }
    destruct (launch os) as [thrown|[p|]]; simpl; [done| |done].
    case_bool_decide; simpl; done.
Qed.

Lemma launchSession_withApproval os options b created d :
  launchSession os (withApproval b options) created d
  = launchSession os options created d.
Proof. by destruct options. Qed.

Lemma launchSession_never_asks os options created d dir :
  (launchSession os options created d).2
    ≠ Returned (RequestToApproveDirectoryCreation dir).
Proof.
  pose proof (launchSession_shape os options created d) as H.
  destruct (launchSession os options created d) as [d' r]; simpl.
  destruct H as [(_&_&_&text&->)|(p&_&_&_&_&_&->)]; congruence.
Qed.

(** The state in which [spawnSession] continues once it has created the
    missing directory. *)
Lemma spawnSession_creates os options d :
  directory options ∉ directories d →
  default true (approvedNewDirectoryCreation options) = true →
  (∃ es, effects (spawnSession os options d).1
           = effects d ++ FsMkdir (directory options) true :: es)
  ∧ (mkdir os = None →
       spawnSession os options d
       = launchSession os options true
           (with_directories (directories d ++ [directory options])
              (emit (FsMkdir (directory options) true) d))).
Proof.
  intros Hdir Happ. unfold spawnSession.
  rewrite bool_decide_eq_false_2, Happ by done. simpl.
  destruct (mkdir os) as [e|]; simpl.
  - split; [by exists []|done].
  - split; [|done].
    match goal with |- context [launchSession os options true ?d0] =>
      pose proof (launchSession_effects os options true d0) as (_ & es & He & _)
    end.
    exists es. rewrite He. simpl. by rewrite <- app_assoc.
Qed.

(** C7.  When the directory does not exist and its creation is not
    approved, [spawnSession] returns [requestToApproveDirectoryCreation]
    for that directory and touches nothing: no directory is created and
    no child is launched.  When creation is approved, [fs.mkdir] is
    called with [recursive: true]; once it succeeds the directory exists
    and the call goes on as it does for an existing directory, to the
    launch of the child in that directory. *)
Theorem directory_creation_needs_approval os options d :
  directory options ∉ directories d →
  (approvedNewDirectoryCreation options = Some false →
     spawnSession os options d
     = (d, Returned (RequestToApproveDirectoryCreation (directory options))))
  ∧ (approvedNewDirectoryCreation options = Some true →
       let d' := (spawnSession os options d).1 in
       (∃ es, effects d' = effects d ++ FsMkdir (directory options) true :: es)
       ∧ (mkdir os = None →
            spawnSession os options d
            = launchSession os options true
                (with_directories (directories d ++ [directory options])
                   (emit (FsMkdir (directory options) true) d))
            ∧ directory options ∈ directories d'
            ∧ (∀ authEnv, authMaterial os options = inr authEnv →
                 SpawnHappyCLI (cliArgs options) (directory options) true
                   (childEnv os options authEnv) ∈ effects d'))).
Proof.
  intros Hdir. split.
  - intros Hno. unfold spawnSession.
    by rewrite bool_decide_eq_false_2, Hno by done.
  - intros Hyes d'. subst d'.
    destruct (spawnSession_creates os options d Hdir) as [Hmk Hgo];
      [by rewrite Hyes|].
    split; [done|]. intros Hok. rewrite (Hgo Hok). split; [done|].
    match goal with |- context [launchSession os options true ?d0] =>
      pose proof (launchSession_effects os options true d0)
        as (Hd & es & He & _ & _ & Hin)
    end.
    split.
    + rewrite Hd. simpl. apply elem_of_app. right. by apply list_elem_of_singleton.
    + intros authEnv Hauth. rewrite He. apply elem_of_app. right. by apply Hin.
Qed.


(** C8.  The environment of every child that [spawnSession] launches is
    [process.env] overridden by the caller's variables, overridden in turn
    by the credential material: a key of the credential material has the
    credential's value, any other key of the caller's variables has the
    caller's value, and the remaining keys are those of [process.env]. *)
Theorem child_environment_precedence os options d es args cwd det env :
  effects (spawnSession os options d).1 = effects d ++ es →
  SpawnHappyCLI args cwd det env ∈ es →
  ∃ authEnv, authMaterial os options = inr authEnv
    ∧ env = childEnv os options authEnv
    ∧ (∀ k, env !! k =
              match authEnv !! k with
              | Some v => Some v
              | None =>
                  match userEnv options !! k with
                  | Some v => Some v
                  | None => process_env os !! k
                  end
              end).
Proof.
  intros He Hin.
  assert (∃ authEnv, authMaterial os options = inr authEnv
                     ∧ env = childEnv os options authEnv) as (authEnv & Ha & ->).
  { revert He. unfold spawnSession. case_bool_decide as Hdir.
    - pose proof (launchSession_effects os options false d)
        as (_ & es' & He' & _ & Hall & _).
      rewrite He'. intros <-%(inj (app (effects d))).
      destruct (Hall _ _ _ _ Hin) as (a & ? & _ & _ & _ & ?). eauto.
    - destruct (negb _); simpl.
      { intros He. assert (es = []) as ->
          by (apply (inj (app (effects d))); by rewrite app_nil_r).
        by apply elem_of_nil in Hin. }
      destruct (mkdir os); simpl.
      { intros <-%(inj (app (effects d))).
        by apply list_elem_of_singleton in Hin. }
      match goal with |- context [launchSession os options true ?d0] =>
        pose proof (launchSession_effects os options true d0)
          as (_ & es' & He' & _ & Hall & _)
      end.
      rewrite He'. simpl. rewrite <- app_assoc.
      intros <-%(inj (app (effects d))).
      apply elem_of_cons in Hin as [?|Hin]; [done|].
      destruct (Hall _ _ _ _ Hin) as (a & ? & _ & _ & _ & ?). eauto. }
  exists authEnv. split; [done|]. split; [done|].
  intros k. unfold childEnv, spread. rewrite !lookup_union.
  destruct (authEnv !! k), (userEnv options !! k), (process_env os !! k); done.
Qed.

End SpawnFacts.

(** ** Awaiters, timers and the order of events *)

Module AwaiterFacts.
Import Daemon.

Lemma consistent_spec d :
  consistent d = true ↔
  ∀ q c, (q, c) ∈ pidToAwaiter d →
         ∃ pr, spawnPromises d !! c = Some pr ∧ awaitedPid pr = q.
Proof.
  unfold consistent. rewrite forallb_forall. split.
  - intros H q c Hin. apply list_elem_of_In in Hin. specialize (H _ Hin).
    simpl in H. destruct (spawnPromises d !! c) as [pr|]; [|done].
    apply bool_decide_eq_true in H. eauto.
  - intros H [q c] Hin. apply list_elem_of_In in Hin.
    destruct (H _ _ Hin) as (pr & -> & <-). by apply bool_decide_eq_true.
Qed.

Lemma resolve_awaitedPid r pr : awaitedPid (resolve r pr) = awaitedPid pr.
Proof. unfold resolve. by destruct (settled pr). Qed.

(** Dropping awaiters and settling promises keeps the awaiters consistent. *)
Lemma consistent_shrink d d' :
  consistent d = true →
  (∀ e, e ∈ pidToAwaiter d' → e ∈ pidToAwaiter d) →
  (∀ c pr, spawnPromises d !! c = Some pr →
           ∃ pr', spawnPromises d' !! c = Some pr'
                  ∧ awaitedPid pr' = awaitedPid pr) →
  consistent d' = true.
Proof.
  intros Hcons Hsub Hpr. apply consistent_spec. intros q c Hin.
  destruct (proj1 (consistent_spec d) Hcons q c (Hsub _ Hin))
    as (pr & Hc & <-).
  destruct (Hpr c pr Hc) as (pr' & ? & ?). eauto.
Qed.

Lemma consistent_webhook sessionId md d :
  consistent d = true → consistent (onHappySessionWebhook sessionId md d) = true.
Proof.
  intros Hcons.
  destruct (hostPid md) as [q|] eqn:Hpid;
    [|by rewrite WebhookFacts.webhook_no_pid by auto].
  destruct (decide (q = 0)) as [->|Hq0];
    [by rewrite WebhookFacts.webhook_no_pid by auto|].
  destruct (JsMap.get q (pidToTrackedSession d)) as [s|] eqn:Hs.
  - destruct (startedBy s) eqn:Hby.
    + rewrite (WebhookFacts.webhook_daemon_entry _ _ _ _ _ Hpid Hq0 Hs Hby).
      cbv zeta. destruct (JsMap.get q (pidToAwaiter d)) as [c'|]; [|done].
      apply (consistent_shrink d); [done| |]; simpl.
      * by intros e [? _]%JsMapFacts.elem_delete.
      * intros c0 pr0 Hc0. destruct (decide (c0 = c')) as [->|Hne0].
        -- rewrite list_lookup_alter_eq, Hc0. simpl. eexists. split; [done|].
           by rewrite resolve_awaitedPid.
        -- rewrite list_lookup_alter_ne by done. eauto.
    + by rewrite (WebhookFacts.webhook_other_entry _ _ _ _ _ Hpid Hs Hby).
  - by rewrite (WebhookFacts.webhook_new_entry _ _ _ _ Hpid Hq0 Hs).
Qed.

Lemma consistent_spawn os options d :
  consistent d = true → consistent (spawnSession os options d).1 = true.
Proof.
  intros Hcons.
  pose proof (SpawnFacts.spawnSession_shape os options d) as H.
  destruct (spawnSession os options d) as [d' r]; simpl.
  destruct H as [(Hs & Ha & Hp & _)|(p' & created & Hp0 & _ & Hs & Ha & Hp & _)].
  - unfold consistent in *. by rewrite Ha, Hp.
  - pose proof (proj1 (consistent_spec d) Hcons) as Hall.
    apply consistent_spec. rewrite Ha, Hp. intros q0 c0 Hin0.
    apply JsMapFacts.elem_set in Hin0 as [[= -> ->]|Hin0].
    + exists (pending p'). split; [|done].
      by rewrite lookup_app_r, Nat.sub_diag by done.
    + destruct (Hall _ _ Hin0) as (pr0 & Hc0 & Hpid0). exists pr0.
      split; [|done]. by apply lookup_app_l_Some.
Qed.

Lemma consistent_timer c d :
  consistent d = true → consistent (fireTimeout c d) = true.
Proof.
  intros Hcons. unfold fireTimeout.
  destruct (spawnPromises d !! c) as [pr|] eqn:Hc; [|done].
  destruct (timerArmed pr); [|done].
  apply (consistent_shrink d); [done| |]; simpl.
  - by intros e [? _]%JsMapFacts.elem_delete.
  - intros c0 pr0 Hc0. destruct (decide (c0 = c)) as [->|Hne0].
    + rewrite list_lookup_insert_eq by (by eapply lookup_lt_Some).
      eexists. split; [done|]. rewrite resolve_awaitedPid. simpl. congruence.
    + rewrite list_lookup_insert_ne by done. eauto.
Qed.

Lemma consistent_stop killThrows sessionId d :
  consistent d = true → consistent (stopSession killThrows sessionId d).2 = true.
Proof.
  intros Hcons. unfold stopSession.
  destruct (firstMatch sessionId (pidToTrackedSession d)) as [[p0 s0]|];
    [|done].
  by destruct (startedBy s0), (childProcess s0).
Qed.

(** The awaiters of a daemon stay consistent whatever happens. *)
Lemma consistent_run es d :
  consistent d = true → consistent (run es d) = true.
Proof.
  unfold run. revert d. induction es as [|e es IH]; intros d Hcons; [done|].
  simpl. apply IH. destruct e; simpl.
  - by apply consistent_webhook.
  - by apply consistent_spawn.
  - by apply consistent_timer.
  - done.
  - by apply consistent_stop.
Qed.

Lemma waiting_webhook c p d sessionId md :
  hostPid md ≠ Some p → waiting c p d →
  waiting c p (onHappySessionWebhook sessionId md d).
Proof.
  intros Hq (Hcons & Hc & Hent).
  split; [by apply consistent_webhook|].
  destruct (hostPid md) as [q|] eqn:Hpid;
    [|by rewrite WebhookFacts.webhook_no_pid by auto].
  destruct (decide (q = 0)) as [->|Hq0];
    [by rewrite WebhookFacts.webhook_no_pid by auto|].
  assert (q ≠ p) as Hqp by congruence.
  destruct (JsMap.get q (pidToTrackedSession d)) as [s|] eqn:Hs.
  - destruct (startedBy s) eqn:Hby.
    + rewrite (WebhookFacts.webhook_daemon_entry _ _ _ _ _ Hpid Hq0 Hs Hby).
      cbv zeta. destruct (JsMap.get q (pidToAwaiter d)) as [c'|] eqn:Haw.
      * apply JsMapFacts.get_Some_elem in Haw as Hin.
        destruct (proj1 (consistent_spec d) Hcons _ _ Hin)
          as (pr' & Hc' & Hpid').
        assert (c' ≠ c) as Hne.
        { intros ->. rewrite Hc in Hc'. injection Hc' as <-. simpl in Hpid'.
          congruence. }
        split; simpl.
        -- by rewrite list_lookup_alter_ne.
        -- intros s0. rewrite JsMapFacts.get_set_ne by done. apply Hent.
      * split; [done|]. simpl. intros s0.
        rewrite JsMapFacts.get_set_ne by done. apply Hent.
    + by rewrite (WebhookFacts.webhook_other_entry _ _ _ _ _ Hpid Hs Hby).
  - rewrite (WebhookFacts.webhook_new_entry _ _ _ _ Hpid Hq0 Hs).
    split; [done|]. simpl. intros s0.
    rewrite <- (JsMapFacts.set_fresh q _ _ Hs).
    rewrite JsMapFacts.get_set_ne by done. apply Hent.
Qed.

Lemma waiting_spawn c p d os options :
  waiting c p d → waiting c p (spawnSession os options d).1.
Proof.
  intros (Hcons & Hc & Hent).
  split; [by apply consistent_spawn|].
  pose proof (SpawnFacts.spawnSession_shape os options d) as H.
  destruct (spawnSession os options d) as [d' r]; simpl.
  destruct H as [(Hs & Ha & Hp & _)|(p' & created & Hp0 & _ & Hs & Ha & Hp & _)].
  - by rewrite Hp, Hs.
  - split.
    + rewrite Hp. by apply lookup_app_l_Some.
    + rewrite Hs. intros s0. destruct (decide (p' = p)) as [->|Hne].
      * rewrite JsMapFacts.get_set_eq. by intros [= <-].
      * rewrite JsMapFacts.get_set_ne by done. apply Hent.
Qed.

Lemma waiting_timer c p d c' :
  c' ≠ c → waiting c p d → waiting c p (fireTimeout c' d).
Proof.
  intros Hne (Hcons & Hc & Hent).
  split; [by apply consistent_timer|]. unfold fireTimeout.
  destruct (spawnPromises d !! c') as [pr'|] eqn:Hc'; [|done].
  destruct (timerArmed pr'); [|done]. simpl.
  by rewrite list_lookup_insert_ne.
Qed.

Lemma waiting_sessions_delete c p d q :
  waiting c p d →
  waiting c p (with_sessions (JsMap.delete q (pidToTrackedSession d)) d).
Proof.
  intros (Hcons & Hc & Hent). split; [done|]. split; [done|]. simpl.
  intros s0 Hs0%JsMapFacts.get_delete_Some. by apply Hent.
Qed.

Lemma waiting_stop c p d killThrows sessionId :
  waiting c p d → waiting c p (stopSession killThrows sessionId d).2.
Proof.
  intros Hw. unfold stopSession.
  destruct (firstMatch sessionId (pidToTrackedSession d)) as [[p0 s0]|];
    [|done].
  simpl. destruct (startedBy s0), (childProcess s0);
    by apply (waiting_sessions_delete c p _ p0) in Hw.
Qed.

Lemma waiting_step c p d e :
  reports p e = false → expires c e = false →
  waiting c p d → waiting c p (step d e).
Proof.
  intros Hrep Hexp Hw. destruct e as [sid md|os options|c'|q|kt sid]; simpl in *.
  - apply waiting_webhook; [|done]. by apply bool_decide_eq_false in Hrep.
  - by apply waiting_spawn.
  - apply waiting_timer; [|done]. by apply bool_decide_eq_false in Hexp.
  - by apply waiting_sessions_delete.
  - by apply waiting_stop.
Qed.

Lemma waiting_run c p es d :
  quiet p c es = true → waiting c p d → waiting c p (run es d).
Proof.
  unfold run, quiet. revert d.
  induction es as [|e es IH]; intros d Hes Hw; [done|].
  simpl in *. apply andb_true_iff in Hes as [He Hes].
  apply andb_true_iff in He as [?%negb_true_iff ?%negb_true_iff].
  apply IH; [done|]. by apply waiting_step.
Qed.

Lemma waiting_after_spawn os options d d1 c p :
  consistent d = true → launch os = LaunchChild (Some p) →
  spawnSession os options d = (d1, Awaiting c) →
  waiting c p d1
  ∧ JsMap.get p (pidToAwaiter d1) = Some c
  ∧ ∃ created,
      JsMap.get p (pidToTrackedSession d1)
      = Some (spawned p created (directory options)).
Proof.
  intros Hcons Hl Hsp.
  pose proof (SpawnFacts.spawnSession_shape os options d) as H.
  pose proof (consistent_spawn os options d Hcons) as Hcons1.
  rewrite Hsp in H, Hcons1.
  destruct H as [(_&_&_&res&?&_)|(p'&created&Hp0&Hl'&Hs&Ha&Hp&Hc)]; [done|].
  assert (p' = p) as -> by congruence. injection Hc as ->.
  split; [|split].
  - split; [done|]. split.
    + rewrite Hp. by rewrite lookup_app_r, Nat.sub_diag by done.
    + rewrite Hs, JsMapFacts.get_set_eq. by intros s0 [= <-].
  - rewrite Ha. apply JsMapFacts.get_set_eq.
  - exists created. rewrite Hs. apply JsMapFacts.get_set_eq.
Qed.

Lemma fireTimeout_waiting c p d :
  waiting c p d →
  outcome c d = None
  ∧ outcome c (fireTimeout c d) = Some (Error (timeoutMessage p))
  ∧ JsMap.get p (pidToAwaiter (fireTimeout c d)) = None
  ∧ pidToTrackedSession (fireTimeout c d) = pidToTrackedSession d.
Proof.
  intros (_ & Hc & _). unfold outcome, fireTimeout. rewrite Hc. simpl.
  rewrite list_lookup_insert_eq by (by eapply lookup_lt_Some).
  by rewrite JsMapFacts.get_delete_eq.
Qed.

Lemma spawnSession_no_pid os options d :
  reachesLaunch os options d = true →
  launch os = LaunchChild None ∨ launch os = LaunchChild (Some 0) →
  ∃ d', spawnSession os options d = (d', Returned (Error noPidMessage))
    ∧ pidToTrackedSession d' = pidToTrackedSession d
    ∧ pidToAwaiter d' = pidToAwaiter d
    ∧ spawnPromises d' = spawnPromises d.
Proof.
  unfold reachesLaunch. intros [Hdir Hauth]%andb_true_iff Hl.
  rewrite SpawnFacts.authMaterial_eq in Hauth.
  assert (∀ d0, ∃ authEnv, (resolveAuthEnv os options d0).2 = inr authEnv)
    as Hauth'.
  { intros d0. rewrite SpawnFacts.authMaterial_eq.
    destruct (authMaterial os options); [done | eauto]. }
  unfold spawnSession. case_bool_decide as Hin.
  - by apply SpawnFacts.launchSession_no_pid.
  - simpl in Hdir. apply andb_true_iff in Hdir as [-> Hmk].
    apply bool_decide_eq_true in Hmk. rewrite Hmk. simpl.
    match goal with |- context [launchSession os options true ?d0] =>
      destruct (SpawnFacts.launchSession_no_pid os options true d0
                  (Hauth' d0) Hl) as (d' & -> & ? & ? & ?)
    end.
    by exists d'.
Qed.

(** C4.  A call whose child has no pid returns at once, never with a
    success, and registers nothing; when it got as far as the launch, what
    it returns is the no-pid error.  The 15 seconds of the timer are not
    modelled: the timer is an event that fires once.  A call that got pid
    [p] and waits: as long as no webhook reports [p], whatever else
    happens, the call is undecided; when its timer fires the call ends
    with the timeout error, the awaiter of [p] is gone, and the timer
    leaves the registry as it is, so an entry for [p] that is still there
    is still the daemon's and still has no session id.  When nothing else
    happened in between, the entry is there. *)
Theorem spawn_without_report os options d :
  (launch os = LaunchChild None ∨ launch os = LaunchChild (Some 0) →
   (∃ res, (spawnSession os options d).2 = Returned res
           ∧ ∀ sid, res ≠ Success sid)
   ∧ pidToTrackedSession (spawnSession os options d).1 = pidToTrackedSession d
   ∧ pidToAwaiter (spawnSession os options d).1 = pidToAwaiter d
   ∧ spawnPromises (spawnSession os options d).1 = spawnPromises d
   ∧ (reachesLaunch os options d = true →
      (spawnSession os options d).2 = Returned (Error noPidMessage)))
  ∧ (∀ p d1 c es,
       consistent d = true → launch os = LaunchChild (Some p) →
       spawnSession os options d = (d1, Awaiting c) →
       quiet p c es = true →
       let d2 := run es d1 in
       let d3 := fireTimeout c d2 in
       outcome c d2 = None
       ∧ outcome c d3 = Some (Error (timeoutMessage p))
       ∧ JsMap.get p (pidToAwaiter d3) = None
       ∧ pidToTrackedSession d3 = pidToTrackedSession d2
       ∧ (∀ s, JsMap.get p (pidToTrackedSession d3) = Some s →
               startedBy s = ByDaemon ∧ happySessionId s = None)
       ∧ (es = [] →
          ∃ created, JsMap.get p (pidToTrackedSession d3)
                     = Some (spawned p created (directory options)))).
Proof.
  split.
  { intros Hl.
    pose proof (SpawnFacts.spawnSession_shape os options d) as H.
    pose proof (λ Hr, spawnSession_no_pid os options d Hr Hl) as Hno.
    destruct (spawnSession os options d) as [d' r]; simpl.
    destruct H as [(Hs & Ha & Hp & Hres)|(p & ? & Hp0 & Hl' & _)].
    - repeat split; try done. intros Hr.
      by destruct (Hno Hr) as (? & [= <- <-] & _).
    - destruct Hl as [Hl|Hl]; congruence. }
  intros p d1 c es Hcons Hl Hsp Hes d2 d3. subst d2 d3.
  destruct (waiting_after_spawn _ _ _ _ _ _ Hcons Hl Hsp)
    as (Hw1 & Haw & created & Hent).
  pose proof (waiting_run c p es d1 Hes Hw1) as Hw2.
  destruct (fireTimeout_waiting c p _ Hw2) as (Hn & Ho & Ha & Hs).
  split; [done|]. split; [done|]. split; [done|]. split; [done|].
  rewrite Hs. split; [apply Hw2|].
  intros ->. by exists created.
Qed.

End AwaiterFacts.

(** ** Stopping a session *)

Module StopFacts.
Import Daemon.

Lemma firstMatch_head sessionId m :
  firstMatch sessionId m
  = head (filter (fun e => matches sessionId e.1 e.2 = true) m).
Proof.
  induction m as [|[p s] m IH]; simpl; [done|].
  rewrite filter_cons. simpl.
  destruct (matches sessionId p s) eqn:Hm.
  - by rewrite decide_True.
  - by rewrite decide_False.
Qed.

Lemma firstMatch_Some sessionId m p s :
  firstMatch sessionId m = Some (p, s) →
  (p, s) ∈ m ∧ matches sessionId p s = true.
Proof.
  rewrite firstMatch_head. intros Hh.
  assert ((p, s) ∈ filter (fun e => matches sessionId e.1 e.2 = true) m) as Hin.
  { destruct (filter _ m) as [|e l]; simplify_eq/=. left. }
  apply list_elem_of_filter in Hin as [? ?]. done.
Qed.

Lemma firstMatch_None sessionId m :
  firstMatch sessionId m = None ↔
  ∀ p s, (p, s) ∈ m → matches sessionId p s = false.
Proof.
  rewrite firstMatch_head. split.
  - intros Hh p s Hin. destruct (matches sessionId p s) eqn:Hm; [|done].
    assert ((p, s) ∈ filter (fun e => matches sessionId e.1 e.2 = true) m) as Hf
      by (by apply list_elem_of_filter).
    destruct (filter _ m); [by apply elem_of_nil in Hf | done].
  - intros Hall.
    destruct (filter _ m) as [|[p s] l] eqn:Hf; [done|].
    assert ((p, s) ∈ filter (fun e => matches sessionId e.1 e.2 = true) m) as Hin
      by (rewrite Hf; left).
    apply list_elem_of_filter in Hin as [Hm Hin]. simpl in Hm.
    by rewrite (Hall _ _ Hin) in Hm.
Qed.

(** The registry after a successful stop. *)
Lemma stopSession_found killThrows sessionId d p s :
  firstMatch sessionId (pidToTrackedSession d) = Some (p, s) →
  (stopSession killThrows sessionId d).1 = true
  ∧ pidToTrackedSession (stopSession killThrows sessionId d).2
    = JsMap.delete p (pidToTrackedSession d)
  ∧ pidToAwaiter (stopSession killThrows sessionId d).2 = pidToAwaiter d
  ∧ spawnPromises (stopSession killThrows sessionId d).2 = spawnPromises d.
Proof.
  intros Hf. unfold stopSession. rewrite Hf.
  by destruct (startedBy s), (childProcess s).
Qed.

Lemma stopSession_not_found killThrows sessionId d :
  firstMatch sessionId (pidToTrackedSession d) = None →
  stopSession killThrows sessionId d = (false, d).
Proof. intros Hf. unfold stopSession. by rewrite Hf. Qed.

Lemma matches_pid_form n p s :
  0 ≤ n →
  matches ("PID-" +:+ Js.toString n) p s
  = bool_decide (happySessionId s = Some ("PID-" +:+ Js.toString n))
    || Js.num_eq p (Js.toDouble n).
Proof.
  intros Hn. unfold matches. f_equal.
  destruct (JsFacts.pid_form_parts (Js.toString n)) as [-> ->].
  by rewrite JsFacts.parseInt_toString.
Qed.

(** The same for a number that is a double. *)
Lemma matches_pid_form_exact n p s :
  0 ≤ n → Js.toDouble n = Some n →
  matches ("PID-" +:+ Js.toString n) p s
  = bool_decide (happySessionId s = Some ("PID-" +:+ Js.toString n))
    || bool_decide (p = n).
Proof. intros Hn Hd. by rewrite matches_pid_form, Hd by done. Qed.

(** C6.  [stopSession] answers [true] exactly when some entry passes its
    test (the session id is the entry's, or the id starts with [PID-] and
    the number [parseInt] reads after it is the entry's pid; for the id
    [PID-n] that is: the session id is the entry's, or the entry's pid is
    the double nearest to [n], which is [n] itself below 2^53).
    The answer and the registry do not depend on
    whether the signal could be delivered.  On [true] the first such
    entry, in the order of the registry, is removed, and on [false]
    nothing changes.  When at most one entry passed the test, none does
    afterwards and a second call answers [false]. *)
Theorem stop_removes_first_match killThrows sessionId d :
  let found := (stopSession killThrows sessionId d).1 in
  let d' := (stopSession killThrows sessionId d).2 in
  (found = true ↔
     ∃ p s, (p, s) ∈ pidToTrackedSession d ∧ matches sessionId p s = true)
  ∧ (∀ n, 0 ≤ n → sessionId = "PID-" +:+ Js.toString n →
       (found = true ↔
          ∃ p s, (p, s) ∈ pidToTrackedSession d
                 ∧ (happySessionId s = Some sessionId
                    ∨ Js.toDouble n = Some p)))
  ∧ (∀ n, 0 ≤ n < 2 ^ 53 → sessionId = "PID-" +:+ Js.toString n →
       (found = true ↔
          ∃ p s, (p, s) ∈ pidToTrackedSession d
                 ∧ (happySessionId s = Some sessionId ∨ p = n)))
  ∧ ((stopSession (negb killThrows) sessionId d).1 = found
     ∧ pidToTrackedSession (stopSession (negb killThrows) sessionId d).2
       = pidToTrackedSession d')
  ∧ (found = true →
       ∃ p s, firstMatch sessionId (pidToTrackedSession d) = Some (p, s)
         ∧ pidToTrackedSession d' = JsMap.delete p (pidToTrackedSession d)
         ∧ JsMap.get p (pidToTrackedSession d') = None)
  ∧ (found = false → d' = d)
  ∧ (length (matching sessionId d) ≤ 1 →
       matching sessionId d' = []
       ∧ ∀ killThrows', (stopSession killThrows' sessionId d').1 = false)%nat.
Proof.
  intros found d'. subst found d'.
  assert ((stopSession killThrows sessionId d).1 = true ↔
          ∃ p s, (p, s) ∈ pidToTrackedSession d ∧ matches sessionId p s = true)
    as Hiff.
  { destruct (firstMatch sessionId (pidToTrackedSession d)) as [[p s]|] eqn:Hf.
    - destruct (stopSession_found killThrows sessionId d p s Hf) as (-> & _).
      destruct (firstMatch_Some _ _ _ _ Hf). split; eauto.
    - rewrite (stopSession_not_found _ _ _ Hf). simpl.
      pose proof (proj1 (firstMatch_None _ _) Hf) as Hall.
      split; [done|]. intros (p & s & Hin & Hm).
      by rewrite (Hall _ _ Hin) in Hm. }
  split; [exact Hiff|]. split.
  { intros n Hn ->. rewrite Hiff. split.
    - intros (p & s & Hin & Hm). exists p, s. split; [done|].
      rewrite matches_pid_form in Hm by done.
      apply orb_true_iff in Hm as [?%bool_decide_eq_true|Hm]; [by left|].
      right. destruct (Js.toDouble n) as [v|]; [|done].
      apply bool_decide_eq_true in Hm. by subst.
    - intros (p & s & Hin & Hm). exists p, s. split; [done|].
      rewrite matches_pid_form by done. apply orb_true_iff.
      destruct Hm as [Hm| ->]; [left|right]; by apply bool_decide_eq_true. }
  split.
  { intros n Hn ->. rewrite Hiff.
    assert (Js.toDouble n = Some n) as Hd by (apply JsFacts.toDouble_safe; lia).
    split.
    - intros (p & s & Hin & Hm). exists p, s. split; [done|].
      rewrite matches_pid_form_exact in Hm by (done || lia).
      apply orb_true_iff in Hm as [?%bool_decide_eq_true|?%bool_decide_eq_true];
        auto.
    - intros (p & s & Hin & Hm). exists p, s. split; [done|].
      rewrite matches_pid_form_exact by (done || lia). apply orb_true_iff.
      destruct Hm; [left|right]; by apply bool_decide_eq_true. }
  clear Hiff.
  destruct (firstMatch sessionId (pidToTrackedSession d)) as [[p s]|] eqn:Hf.
  - destruct (stopSession_found killThrows sessionId d p s Hf)
      as (Ht & Hs & _ & _).
    destruct (stopSession_found (negb killThrows) sessionId d p s Hf)
      as (Ht' & Hs' & _ & _).
    rewrite Ht, Hs, Ht', Hs'.
    destruct (firstMatch_Some _ _ _ _ Hf) as [Hin Hm].
    split; [done|].
    split; [intros _; exists p, s; by rewrite JsMapFacts.get_delete_eq|].
    split; [done|]. intros Hone.
    assert (matching sessionId (stopSession killThrows sessionId d).2 = [])
      as Hnone.
    { unfold matching in *. rewrite Hs.
      rewrite firstMatch_head in Hf.
      destruct (filter _ (pidToTrackedSession d)) as [|e [|e' l]] eqn:Hfil;
        simpl in *; [done| |lia].
      injection Hf as ->.
      destruct (filter _ (JsMap.delete p _)) as [|[q sq] l'] eqn:Hfil'; [done|].
      assert ((q, sq) ∈ filter (fun e => matches sessionId e.1 e.2 = true)
                (JsMap.delete p (pidToTrackedSession d))) as Hq
        by (rewrite Hfil'; left).
      apply list_elem_of_filter in Hq as [Hmq Hq].
      apply JsMapFacts.elem_delete in Hq as [Hq Hne].
      assert ((q, sq) ∈ filter (fun e => matches sessionId e.1 e.2 = true)
                (pidToTrackedSession d)) as Hq'
        by (by apply list_elem_of_filter).
      rewrite Hfil in Hq'. apply list_elem_of_singleton in Hq'.
      by injection Hq' as -> ->. }
    split; [done|]. intros kt'. rewrite stopSession_not_found; [done|].
    rewrite firstMatch_head. unfold matching in Hnone. by rewrite Hnone.
  - rewrite !(stopSession_not_found _ _ _ Hf). simpl.
    split; [done|]. split; [done|]. split; [done|]. intros _.
    assert (matching sessionId d = []) as Hnone.
    { unfold matching. rewrite firstMatch_head in Hf.
      by destruct (filter _ (pidToTrackedSession d)). }
    split; [done|]. intros kt'. by rewrite (stopSession_not_found _ _ _ Hf).
Qed.

(** [parseInt] stops at the first character that is no digit, so the id
    [PID-12abc] names process 12 as well. *)
Example pid_form_is_lenient :
  matches "PID-12abc" 12 (spawned 12 false "/tmp") = true
  ∧ matches "PID-12" 12 (spawned 12 false "/tmp") = true
  ∧ matches "PID-12" 13 (spawned 13 false "/tmp") = false
  ∧ matches "PID-" 12 (spawned 12 false "/tmp") = false.
Proof. repeat split; reflexivity. Qed.

(** From 2^53 on [parseInt] rounds to a double, so the id
    [PID-9007199254740993] names the process 9007199254740992, and
    stopping by it removes that entry. *)
Example pid_form_is_rounded :
  let pid := 9007199254740992 in
  let md := {| path := "/tmp"; host := "box"; hostPid := Some pid |} in
  let d := onHappySessionWebhook "s1" md (initial []) in
  matches "PID-9007199254740993" pid (spawned pid false "/tmp") = true
  ∧ matches "PID-9007199254740993" 9007199254740993
      (spawned 9007199254740993 false "/tmp") = false
  ∧ (∃ s, JsMap.get pid (pidToTrackedSession d) = Some s)
  ∧ (stopSession false "PID-9007199254740993" d).1 = true
  ∧ pidToTrackedSession (stopSession false "PID-9007199254740993" d).2 = [].
Proof.
  split; [by vm_compute|]. split; [by vm_compute|].
  split; [eexists; by vm_compute|]. split; by vm_compute.
Qed.

End StopFacts.

(** ** Starting a second daemon *)

Module LifecycleFacts.
Import Lifecycle.

(** C3.  When the persisted state is that of a daemon of this version,
    [startDaemon] prints that the daemon is already running and exits with
    code 0; it does so before it stops anything, takes the lock or writes
    the state, and the state file and the lock marker are as they were. *)
Theorem same_version_daemon_exits_cleanly s h st :
  stateFile h = Some st →
  startedWithCliVersion st = currentCliVersion s →
  (startDaemon s h).2 = Exited 0
  ∧ stateFile (startDaemon s h).1 = Some st
  ∧ lockFile (startDaemon s h).1 = lockFile h
  ∧ calls (startDaemon s h).1
    = calls h ++ [InstallHandlers; CheckRunningVersion;
                  ConsoleLog "Daemon already running with matching version";
                  ProcessExit 0]
  ∧ (∀ c, c ∈ drop (length (calls h)) (calls (startDaemon s h).1) →
          c ≠ StopDaemon
          ∧ (∀ n ms, c ≠ AcquireDaemonLock n ms)
          ∧ (∀ w, c ≠ WriteDaemonState w)).
Proof.
  intros Hst Hver. unfold startDaemon.
  unfold isDaemonRunningCurrentlyInstalledHappyVersion. simpl.
  rewrite Hst, bool_decide_eq_true_2 by done. simpl.
  split; [done|]. split; [done|]. split; [done|].
  rewrite <- !app_assoc. simpl. split; [done|].
  rewrite drop_app_length. intros c Hin.
  repeat (apply elem_of_cons in Hin as [->|Hin]; [by repeat split|]).
  by apply elem_of_nil in Hin.
Qed.

(** Without such a daemon the start goes on to the lock. *)
Lemma other_start_takes_lock s h :
  isDaemonRunningCurrentlyInstalledHappyVersion s h = false →
  AcquireDaemonLock 5 200 ∈ calls (startDaemon s h).1.
Proof.
  intros Hno. unfold startDaemon.
  assert (isDaemonRunningCurrentlyInstalledHappyVersion s
            (call CheckRunningVersion (call InstallHandlers h)) = false)
    as -> by done.
  simpl.
  unfold acquireDaemonLock, startup; simpl.
  destruct (lockFile _); simpl; [set_solver|].
  destruct (authThrows s); simpl; [set_solver|].
  destruct (controlPort s); simpl; [|set_solver].
  destruct (registerThrows s); simpl; set_solver.
Qed.

End LifecycleFacts.

(** ** Optimistic-concurrency writes *)

Module ApiFacts.
Import ApiSession.

Section Retry.
Context {M A Blob : Type}.
Variable encryptM : M -> Blob.
Variable decryptM : Blob -> Decryption M.
Variable encryptA : A -> Blob.
Variable decryptA : Blob -> Decryption A.
Variable nonempty : Blob -> bool.
Variable emptyAgentState : A.

Abbreviation receivedMetadata := (receivedMetadata decryptM).
Abbreviation receivedAgentState := (receivedAgentState decryptA nonempty).
Abbreviation updateMetadataOnce := (updateMetadataOnce encryptM decryptM).
Abbreviation updateAgentStateOnce :=
  (updateAgentStateOnce encryptA decryptA nonempty emptyAgentState).
Abbreviation updateMetadata := (updateMetadata encryptM decryptM).
Abbreviation updateAgentState :=
  (updateAgentState encryptA decryptA nonempty emptyAgentState).
Abbreviation metadataWrite := (metadataWrite encryptM).
Abbreviation agentStateWrite := (agentStateWrite encryptA emptyAgentState).
Implicit Types (c : Client (M := M) (A := A) (Blob := Blob)).
Implicit Types (ms : list (Z * option Blob)).

Lemma held_last {V} (received : option Blob -> Decryption V) f ms :
  last (held received f ms) = Some (foldl (adopt received) f ms).
Proof.
  revert f. induction ms as [|m ms IH]; intros f; [done|].
  simpl. rewrite <- IH. by destruct ms.
Qed.

Lemma metadata_mismatch_step handler m c :
  let r := updateMetadataOnce handler (mismatch m) c in
  r.2 = Throws
  ∧ metadataField r.1 = adopt receivedMetadata (metadataField c) m
  ∧ agentStateField r.1 = agentStateField c
  ∧ sent r.1 = sent c ++ [metadataWrite handler (metadataField c)].
Proof.
  destruct m as [ver payload]. simpl. unfold adopt. simpl.
  case_bool_decide; [|done]. by destruct (receivedMetadata payload).
Qed.

Lemma agentState_mismatch_step handler m c :
  let r := updateAgentStateOnce handler (mismatch m) c in
  r.2 = Throws
  ∧ agentStateField r.1 = adopt receivedAgentState (agentStateField c) m
  ∧ metadataField r.1 = metadataField c
  ∧ sent r.1 = sent c ++ [agentStateWrite handler (agentStateField c)].
Proof.
  destruct m as [ver payload]. simpl. unfold adopt. simpl.
  case_bool_decide; [|done]. by destruct (receivedAgentState payload).
Qed.

(** A run of [updateMetadata] through the mismatches [ms]: the loop goes
    on with what the last of them left. *)
Lemma updateMetadata_retries handler ms rest c :
  ∃ c', updateMetadata handler ((mismatch <$> ms) ++ rest) c
        = updateMetadata handler rest c'
    ∧ metadataField c' = foldl (adopt receivedMetadata) (metadataField c) ms
    ∧ agentStateField c' = agentStateField c
    ∧ sent c' ++ [metadataWrite handler (metadataField c')]
      = sent c
        ++ (metadataWrite handler
              <$> held receivedMetadata (metadataField c) ms).
Proof.
  revert c. induction ms as [|m ms IH]; intros c.
  - by exists c.
  - pose proof (metadata_mismatch_step handler m c) as Hstep.
    cbv zeta in Hstep. unfold updateMetadata in *.
    rewrite fmap_cons, <- app_comm_cons. cbn [backoff].
    destruct (updateMetadataOnce handler (mismatch m) c) as [c1 k].
    cbn [fst snd] in Hstep. destruct Hstep as (-> & Hf & Ha & Hs).
    destruct (IH c1) as (c' & Hr & Hm & Ha' & Hs'). exists c'.
    split; [done|]. split; [by rewrite Hm, Hf|]. split; [congruence|].
    rewrite Hs', Hs, Hf, <- app_assoc. done.
Qed.

Lemma updateAgentState_retries handler ms rest c :
  ∃ c', updateAgentState handler ((mismatch <$> ms) ++ rest) c
        = updateAgentState handler rest c'
    ∧ agentStateField c'
      = foldl (adopt receivedAgentState) (agentStateField c) ms
    ∧ metadataField c' = metadataField c
    ∧ sent c' ++ [agentStateWrite handler (agentStateField c')]
      = sent c
        ++ (agentStateWrite handler
              <$> held receivedAgentState (agentStateField c) ms).
Proof.
  revert c. induction ms as [|m ms IH]; intros c.
  - by exists c.
  - pose proof (agentState_mismatch_step handler m c) as Hstep.
    cbv zeta in Hstep. unfold updateAgentState in *.
    rewrite fmap_cons, <- app_comm_cons. cbn [backoff].
    destruct (updateAgentStateOnce handler (mismatch m) c) as [c1 k].
    cbn [fst snd] in Hstep. destruct Hstep as (-> & Hf & Ha & Hs).
    destruct (IH c1) as (c' & Hr & Hm & Ha' & Hs'). exists c'.
    split; [done|]. split; [by rewrite Hm, Hf|]. split; [congruence|].
    rewrite Hs', Hs, Hf, <- app_assoc. done.
Qed.

(** While only mismatches have arrived the loop is still retrying. *)
Lemma updateMetadata_pending handler ms c :
  (updateMetadata handler (mismatch <$> ms) c).2 = None.
Proof.
  destruct (updateMetadata_retries handler ms [] c) as (c' & Hr & _).
  rewrite app_nil_r in Hr. by rewrite Hr.
Qed.

(** The retry loop takes up the answers that come after those it has
    used without leaving. *)
Lemma backoff_pending callback (answers rest : list Answer) c :
  (backoff callback answers c).2 = None →
  backoff callback (answers ++ rest) c
  = backoff callback rest (backoff callback answers c).1.
Proof.
  revert c. induction answers as [|a answers IH]; intros c; [done|].
  simpl. destruct (callback a c) as [c' []]; [done|]. apply IH.
Qed.


End Retry.
End ApiFacts.

(** ** Scenarios on concrete inputs *)

Module Scenarios.
Import Daemon.

(** The webhook reports session [s-1] of process 4242 to a daemon that
    does not know the process. *)
Lemma webhook_cases_witness :
  hostPid (Sample.md 4242) = Some 4242
  ∧ JsMap.get 4242 (pidToTrackedSession Sample.fresh) = None
  ∧ pidToTrackedSession
      (onHappySessionWebhook "s-1" (Sample.md 4242) Sample.fresh)
    = [(4242, external "s-1" (Sample.md 4242) 4242)].
Proof.
  split; [reflexivity|]. split; [reflexivity|].
  pose proof (WebhookFacts.webhook_cases "s-1" (Sample.md 4242) Sample.fresh)
    as H.
  cbv zeta in H. destruct H as (_ & _ & H).
  destruct (H 4242 eq_refl ltac:(lia) eq_refl) as (_ & Hs & _).
  exact Hs.
Defined.

(** A second report for an externally started process changes nothing. *)
Lemma webhook_external_witness :
  JsMap.get 77
    (pidToTrackedSession (onHappySessionWebhook "ext" (Sample.md 77) Sample.fresh))
  = Some (external "ext" (Sample.md 77) 77)
  ∧ onHappySessionWebhook "again" (Sample.md 77)
      (onHappySessionWebhook "ext" (Sample.md 77) Sample.fresh)
    = onHappySessionWebhook "ext" (Sample.md 77) Sample.fresh.
Proof.
  split; [reflexivity|].
  destruct (WebhookFacts.webhook_external_unchanged "again" (Sample.md 77)
              (onHappySessionWebhook "ext" (Sample.md 77) Sample.fresh) 77
              (external "ext" (Sample.md 77) 77) eq_refl eq_refl eq_refl)
    as [Hsame _].
  exact Hsame.
Defined.

(** A spawn into a directory that does not exist: refused without
    approval, created with it. *)
Lemma directory_creation_witness :
  ("/new/dir" ∉ directories Sample.fresh)
  ∧ spawnSession (Sample.os (Some 4242)) (Sample.options "/new/dir" (Some false))
      Sample.fresh
    = (Sample.fresh, Returned (RequestToApproveDirectoryCreation "/new/dir"))
  ∧ "/new/dir"
    ∈ directories
        (spawnSession (Sample.os (Some 4242))
           (Sample.options "/new/dir" (Some true)) Sample.fresh).1.
Proof.
  assert ("/new/dir" ∉ directories Sample.fresh) as Hdir by compute_done.
  split; [exact Hdir|].
  pose proof (SpawnFacts.directory_creation_needs_approval
                (Sample.os (Some 4242)) (Sample.options "/new/dir" (Some false))
                Sample.fresh Hdir) as [Hno _].
  pose proof (SpawnFacts.directory_creation_needs_approval
                (Sample.os (Some 4242)) (Sample.options "/new/dir" (Some true))
                Sample.fresh Hdir) as [_ Hyes].
  split; [exact (Hno eq_refl)|].
  destruct (Hyes eq_refl) as [_ Hgo]. destruct (Hgo eq_refl) as (_ & Hin & _).
  exact Hin.
Defined.


(** The token beats the caller's forged token, the caller's [PATH] beats
    the one of the daemon, and [HOME] is inherited. *)
Lemma child_environment_witness :
  effects (Sample.spawnedInto 4242 Sample.fresh)
  = effects Sample.fresh
    ++ [SpawnHappyCLI (cliArgs (Sample.options "/tmp" None)) "/tmp" true Sample.env]
  ∧ Sample.env !! "CLAUDE_CODE_OAUTH_TOKEN" = Some "secret"
  ∧ Sample.env !! "PATH" = Some "/opt/bin"
  ∧ Sample.env !! "HOME" = Some "/root".
Proof.
  assert (effects (Sample.spawnedInto 4242 Sample.fresh)
          = effects Sample.fresh
            ++ [SpawnHappyCLI (cliArgs (Sample.options "/tmp" None)) "/tmp" true
                  Sample.env]) as He by reflexivity.
  split; [exact He|].
  destruct (SpawnFacts.child_environment_precedence (Sample.os (Some 4242))
              (Sample.options "/tmp" None) Sample.fresh _ _ _ _ _ He
              ltac:(left)) as (authEnv & Ha & _ & Hk).
  injection Ha as <-.
  split; [exact (Hk "CLAUDE_CODE_OAUTH_TOKEN")|].
  split; [exact (Hk "PATH") | exact (Hk "HOME")].
Defined.

(** A child is spawned, another process reports itself, an unrelated
    child exits, and then the timer of the call fires. *)
Lemma spawn_without_report_witness :
  consistent Sample.fresh = true
  ∧ spawnSession (Sample.os (Some 4242)) (Sample.options "/tmp" None) Sample.fresh
    = (Sample.spawnedInto 4242 Sample.fresh, Awaiting 0%nat)
  ∧ quiet 4242 0 [Webhook "other" (Sample.md 5); ChildExited 9] = true
  ∧ outcome 0
      (fireTimeout 0
         (run [Webhook "other" (Sample.md 5); ChildExited 9]
            (Sample.spawnedInto 4242 Sample.fresh)))
    = Some (Error "Session webhook timeout for PID 4242").
Proof.
  split; [reflexivity|]. split; [reflexivity|]. split; [reflexivity|].
  destruct (AwaiterFacts.spawn_without_report (Sample.os (Some 4242))
              (Sample.options "/tmp" None) Sample.fresh) as [_ H].
  destruct (H 4242 (Sample.spawnedInto 4242 Sample.fresh) 0%nat
              [Webhook "other" (Sample.md 5); ChildExited 9]
              eq_refl eq_refl eq_refl eq_refl) as (_ & Hout & _).
  exact Hout.
Defined.

(** The child exits before its timer fires: the call times out and the
    registry has no entry for the child. *)
Lemma timeout_after_exit_leaves_no_entry :
  spawnSession (Sample.os (Some 4242)) (Sample.options "/tmp" None) Sample.fresh
  = (Sample.spawnedInto 4242 Sample.fresh, Awaiting 0%nat)
  ∧ quiet 4242 0 [ChildExited 4242] = true
  ∧ outcome 0
      (fireTimeout 0 (run [ChildExited 4242] (Sample.spawnedInto 4242 Sample.fresh)))
    = Some (Error "Session webhook timeout for PID 4242")
  ∧ JsMap.get 4242
      (pidToTrackedSession
         (fireTimeout 0
            (run [ChildExited 4242] (Sample.spawnedInto 4242 Sample.fresh))))
    = None
  ∧ ¬ (∃ s, JsMap.get 4242
              (pidToTrackedSession
                 (fireTimeout 0
                    (run [ChildExited 4242]
                       (Sample.spawnedInto 4242 Sample.fresh))))
            = Some s
            ∧ startedBy s = ByDaemon ∧ happySessionId s = None).
Proof.
  split; [reflexivity|]. split; [reflexivity|]. split; [reflexivity|].
  split; [reflexivity|]. by intros (s & Hs & _).
Qed.

(** The report of process 4242 runs before the call registers its entry:
    the entry of the call replaces the reported one, its session id is
    lost, the call stays undecided and ends with the timeout error.  In
    the other order it succeeds. *)
Lemma report_before_registration_times_out :
  outcome 0
    (onHappySessionWebhook "s-1" (Sample.md 4242)
       (Sample.spawnedInto 4242 Sample.fresh))
  = Some (Success (Some "s-1"))
  ∧ JsMap.get 4242
      (pidToTrackedSession
         (Sample.spawnedInto 4242
            (onHappySessionWebhook "s-1" (Sample.md 4242) Sample.fresh)))
    = Some (spawned 4242 false "/tmp")
  ∧ outcome 0
      (Sample.spawnedInto 4242
         (onHappySessionWebhook "s-1" (Sample.md 4242) Sample.fresh))
    = None
  ∧ outcome 0
      (fireTimeout 0
         (Sample.spawnedInto 4242
            (onHappySessionWebhook "s-1" (Sample.md 4242) Sample.fresh)))
    = Some (Error "Session webhook timeout for PID 4242")
  ∧ ¬ (∃ s, JsMap.get 4242
              (pidToTrackedSession
                 (Sample.spawnedInto 4242
                    (onHappySessionWebhook "s-1" (Sample.md 4242) Sample.fresh)))
            = Some s
            ∧ happySessionId s = Some "s-1").
Proof.
  split; [reflexivity|]. split; [reflexivity|]. split; [reflexivity|].
  split; [reflexivity|]. by intros (s & [= <-] & Hid).
Qed.

(** One tracked session is stopped; a second stop finds nothing. *)
Lemma stop_witness :
  (length (matching "ext" (onHappySessionWebhook "ext" (Sample.md 77) Sample.fresh))
   ≤ 1)%nat
  ∧ (stopSession true "ext"
       (onHappySessionWebhook "ext" (Sample.md 77) Sample.fresh)).1 = true
  ∧ (stopSession true "ext"
       (stopSession true "ext"
          (onHappySessionWebhook "ext" (Sample.md 77) Sample.fresh)).2).1
    = false.
Proof.
  assert (length (matching "ext"
                    (onHappySessionWebhook "ext" (Sample.md 77) Sample.fresh))
          ≤ 1)%nat as Hone by (vm_compute; lia).
  split; [exact Hone|]. split; [reflexivity|].
  pose proof (StopFacts.stop_removes_first_match true "ext"
                (onHappySessionWebhook "ext" (Sample.md 77) Sample.fresh)) as H.
  cbv zeta in H. destruct H as (_ & _ & _ & _ & _ & _ & H).
  destruct (H Hone) as [_ Hsecond]. exact (Hsecond true).
Defined.

(** Two entries carry the session id [dup]: the first stop removes the
    entry of process 11, the second stop answers [true] again and removes
    the entry of process 12. *)
Lemma second_stop_finds_twin :
  getCurrentChildren Sample.twins
  = [external "dup" (Sample.md 11) 11; external "dup" (Sample.md 12) 12]
  ∧ (stopSession false "dup" Sample.twins).1 = true
  ∧ getCurrentChildren (stopSession false "dup" Sample.twins).2
    = [external "dup" (Sample.md 12) 12]
  ∧ (stopSession false "dup" (stopSession false "dup" Sample.twins).2).1 = true
  ∧ (stopSession false "dup" (stopSession false "dup" Sample.twins).2).1 ≠ false
  ∧ matches "dup" 12 (external "dup" (Sample.md 12) 12) = true.
Proof. repeat split; try reflexivity. discriminate. Qed.

(** A daemon of version 1.2.3 runs; a second one of the same version is
    started. *)
Lemma same_version_witness :
  Lifecycle.stateFile (Sample.host "1.2.3") = Some (Sample.persisted "1.2.3")
  ∧ Lifecycle.startedWithCliVersion (Sample.persisted "1.2.3")
    = Lifecycle.currentCliVersion Sample.setup
  ∧ (Lifecycle.startDaemon Sample.setup (Sample.host "1.2.3")).2
    = Lifecycle.Exited 0
  ∧ Lifecycle.stateFile
      (Lifecycle.startDaemon Sample.setup (Sample.host "1.2.3")).1
    = Some (Sample.persisted "1.2.3")
  ∧ Lifecycle.lockFile
      (Lifecycle.startDaemon Sample.setup (Sample.host "1.2.3")).1
    = Some 100.
Proof.
  split; [reflexivity|]. split; [reflexivity|].
  destruct (LifecycleFacts.same_version_daemon_exits_cleanly Sample.setup
              (Sample.host "1.2.3") (Sample.persisted "1.2.3") eq_refl eq_refl)
    as (Hout & Hfile & Hlock & _).
  split; [exact Hout|]. split; [exact Hfile | exact Hlock].
Defined.

(** A daemon of another version runs: the new one stops it, takes the
    lock and writes its own state. *)
Example other_version_is_replaced :
  (Lifecycle.startDaemon Sample.setup (Sample.host "1.2.2")).2
  = Lifecycle.AwaitingShutdown
  ∧ Lifecycle.pid
    <$> Lifecycle.stateFile
          (Lifecycle.startDaemon Sample.setup (Sample.host "1.2.2")).1
    = Some 200
  ∧ Lifecycle.lockFile
      (Lifecycle.startDaemon Sample.setup (Sample.host "1.2.2")).1
    = Some 200.
Proof. repeat split; reflexivity. Qed.



(** A success answer that carries no metadata, or one that cannot be
    opened, is not adopted: the callback throws, and the loop writes again
    and takes the next answer.  A mismatch of a higher version whose value
    cannot be opened leaves that version with the old value.  A success
    answer without an agent state sets [null]. *)
Example undecodable_answer_is_retried :
  ApiSession.updateMetadata id Sample.decryptText Sample.markMetadata
    [ApiSession.ResultSuccess 8 None; ApiSession.ResultSuccess 9 (Some "");
     ApiSession.ResultSuccess 10 (Some "x")]
    (Sample.client "mine" 7)
  = ({| ApiSession.metadata := Some "x"; ApiSession.metadataVersion := 10;
        ApiSession.agentState := Some "mine";
        ApiSession.agentStateVersion := 7;
        ApiSession.sent := [ApiSession.UpdateMetadata 7 "mine!";
                            ApiSession.UpdateMetadata 7 "mine!";
                            ApiSession.UpdateMetadata 7 "mine!"] |},
     Some ApiSession.Returns)
  ∧ ApiSession.updateMetadata id Sample.decryptText Sample.markMetadata
      [ApiSession.ResultSuccess 8 None] (Sample.client "mine" 7)
    = ({| ApiSession.metadata := Some "mine"; ApiSession.metadataVersion := 7;
          ApiSession.agentState := Some "mine";
          ApiSession.agentStateVersion := 7;
          ApiSession.sent := [ApiSession.UpdateMetadata 7 "mine!"] |}, None)
  ∧ ApiSession.metadataField
      (ApiSession.updateMetadataOnce id Sample.decryptText
         Sample.markMetadata (ApiSession.ResultVersionMismatch 9 None)
         (Sample.client "mine" 7)).1
    = (Some "mine", 9)
  ∧ ApiSession.agentStateField
      (ApiSession.updateAgentState id Sample.decryptText Js.truthy ""
         Sample.mark [ApiSession.ResultSuccess 8 None]
         (Sample.client "mine" 7)).1
    = (None, 8).
Proof. repeat split; reflexivity. Qed.

(** The round trip of the daemon's integration test: nothing is tracked,
    a session is spawned and reports itself, it is listed as started by
    the daemon under the reported id, it is stopped, and nothing is
    tracked. *)
Example spawn_report_stop_round_trip :
  getCurrentChildren Sample.fresh = []
  ∧ getCurrentChildren
      (run [Spawn (Sample.os (Some 4242)) (Sample.options "/tmp" None);
            Webhook "s-1" (Sample.md 4242)] Sample.fresh)
    = [reported "s-1" (Sample.md 4242) (spawned 4242 false "/tmp")]
  ∧ outcome 0
      (run [Spawn (Sample.os (Some 4242)) (Sample.options "/tmp" None);
            Webhook "s-1" (Sample.md 4242)] Sample.fresh)
    = Some (Success (Some "s-1"))
  ∧ (stopSession false "s-1"
       (run [Spawn (Sample.os (Some 4242)) (Sample.options "/tmp" None);
             Webhook "s-1" (Sample.md 4242)] Sample.fresh)).1
    = true
  ∧ getCurrentChildren
      (run [Spawn (Sample.os (Some 4242)) (Sample.options "/tmp" None);
            Webhook "s-1" (Sample.md 4242); Stop false "s-1"] Sample.fresh)
    = [].
Proof. repeat split; reflexivity. Qed.

End Scenarios.

(** ** The sweep, and what holds of the daemon over time *)

Module HeartbeatFacts.
Import Daemon Heartbeat.

Lemma filter_agree {X} (P Q : X -> Prop) `{∀ x, Decision (P x)}
    `{∀ x, Decision (Q x)} (l : list X) :
  (∀ x, x ∈ l → P x ↔ Q x) → filter P l = filter Q l.
Proof.
  induction l as [|x l IH]; intros Hl; [done|].
  rewrite !filter_cons, IH by (intros; apply Hl; by right).
  destruct (decide (P x)) as [HP|HP], (decide (Q x)) as [HQ|HQ]; try done;
    exfalso; apply (Hl x) in HP || apply (Hl x) in HQ; try done; left.
Qed.

Lemma filter_all {X} (P : X -> Prop) `{∀ x, Decision (P x)} (l : list X) :
  (∀ x, x ∈ l → P x) → filter P l = l.
Proof.
  induction l as [|x l IH]; intros Hl; [done|].
  rewrite filter_cons, decide_True, IH; [done| |apply Hl; left].
  intros; apply Hl; by right.
Qed.

Lemma delete_filter {V} (k : Z) (m : list (Z * V)) :
  JsMap.delete k m = filter (fun e => e.1 ≠ k) m.
Proof.
  induction m as [|[k' v] m IH]; simpl; [done|].
  rewrite filter_cons. simpl. destruct (decide (k' = k)) as [->|Hne].
  - by rewrite decide_False by auto.
  - by rewrite decide_True, IH by done.
Qed.

Lemma get_filter_alive {V} (alive : Z -> bool) p (m : list (Z * V)) :
  JsMap.get p (filter (fun e => alive e.1 = true) m)
  = if alive p then JsMap.get p m else None.
Proof.
  induction m as [|[k v] m IH]; simpl; [by destruct (alive p)|].
  rewrite filter_cons. simpl. destruct (decide (alive k = true)) as [Hk|Hk];
    simpl.
  - destruct (decide (k = p)) as [->|Hne]; [by rewrite Hk|done].
  - rewrite IH. destruct (decide (k = p)) as [->|Hne]; [|done].
    by destruct (alive p).
Qed.

Lemma prune_loop_filter {V} (alive : Z -> bool) (l m : list (Z * V)) :
  foldl (fun m e => if alive e.1 then m else JsMap.delete e.1 m) m l
  = filter (fun e => alive e.1 = true ∨ e.1 ∉ JsMap.keys l) m.
Proof.
  revert m. induction l as [|[k v] l IH]; intros m; simpl.
  - symmetry. apply filter_all. intros e _. right. apply not_elem_of_nil.
  - rewrite IH. destruct (alive k) eqn:Hk.
    + apply list_filter_iff. intros [k' v']. simpl.
      rewrite elem_of_cons. destruct (decide (k' = k)) as [->|Hne]; tauto.
    + rewrite delete_filter, list_filter_filter.
      apply list_filter_iff. intros [k' v']. simpl.
      assert (alive k ≠ true) by congruence.
      rewrite elem_of_cons. destruct (decide (k' = k)) as [->|Hne]; tauto.
Qed.

Lemma pruneStale_sessions alive d :
  pidToTrackedSession (pruneStale alive d)
  = filter (fun e => alive e.1 = true) (pidToTrackedSession d).
Proof.
  unfold pruneStale. simpl. rewrite prune_loop_filter.
  apply filter_agree. intros [k v] Hin. simpl. split; [|by left].
  intros [?|Hn]; [done|]. exfalso. apply Hn. unfold JsMap.keys.
  apply list_elem_of_fmap. by exists (k, v).
Qed.

(** X1.  The sweep keeps exactly the entries whose process is alive, in
    their order; it touches neither the awaiters nor the promises, and a
    second sweep with the same answers changes nothing. *)
Theorem sweep_keeps_the_living alive d :
  pidToTrackedSession (pruneStale alive d)
  = filter (fun e => alive e.1 = true) (pidToTrackedSession d)
  ∧ (∀ p, JsMap.get p (pidToTrackedSession (pruneStale alive d))
          = if alive p then JsMap.get p (pidToTrackedSession d) else None)
  ∧ pidToAwaiter (pruneStale alive d) = pidToAwaiter d
  ∧ spawnPromises (pruneStale alive d) = spawnPromises d
  ∧ effects (pruneStale alive d) = effects d
  ∧ pruneStale alive (pruneStale alive d) = pruneStale alive d.
Proof.
  split; [apply pruneStale_sessions|]. split.
  { intros p. rewrite pruneStale_sessions.
    apply get_filter_alive. }
  split; [done|]. split; [done|]. split; [done|].
  assert (pidToTrackedSession (pruneStale alive (pruneStale alive d))
          = pidToTrackedSession (pruneStale alive d)) as Hs.
  { rewrite !pruneStale_sessions, list_filter_filter.
    apply list_filter_iff. tauto. }
  unfold pruneStale in *. simpl in *. by rewrite Hs.
Qed.

End HeartbeatFacts.

(** ** What holds of the daemon over time *)

Module RegistryFacts.
Import Daemon Heartbeat.

Lemma get_elem_NoDup {V} (m : list (Z * V)) k v :
  NoDup (JsMap.keys m) → (k, v) ∈ m → JsMap.get k m = Some v.
Proof.
  unfold JsMap.keys. induction m as [|[k' v'] m IH]; simpl.
  - by intros _ ?%elem_of_nil.
  - rewrite NoDup_cons. intros [Hn Hnd] [[= -> ->]|He]%elem_of_cons.
    + by rewrite decide_True.
    + rewrite decide_False; [by apply IH|]. intros ->. apply Hn.
      apply list_elem_of_fmap. by exists (k, v).
Qed.

Lemma keyed_spec d :
  keyed d = true ↔
  NoDup (JsMap.keys (pidToTrackedSession d))
  ∧ ∀ e, e ∈ pidToTrackedSession d → fits e.
Proof.
  unfold keyed, fits. rewrite andb_true_iff, bool_decide_eq_true, forallb_forall.
  split; intros [Hnd Hall]; (split; [done|]); intros e He.
  - apply list_elem_of_In, Hall in He.
    apply andb_true_iff in He as [He H3]. apply andb_true_iff in He as [H1 H2].
    apply bool_decide_eq_true in H1, H3.
    apply negb_true_iff, bool_decide_eq_false in H2. done.
  - apply list_elem_of_In, Hall in He. destruct He as (H1 & H2 & H3).
    rewrite !andb_true_iff, negb_true_iff, bool_decide_eq_false,
      !bool_decide_eq_true. done.
Qed.

Lemma keyed_set d k s :
  keyed d = true → fits (k, s) →
  keyed (with_sessions (JsMap.set k s (pidToTrackedSession d)) d) = true.
Proof.
  rewrite !keyed_spec. simpl. intros [Hnd Hall] Hfit. split.
  - by apply JsMapFacts.keys_set_NoDup.
  - intros e [->|He]%JsMapFacts.elem_set; auto.
Qed.

Lemma keyed_filter d (P : Z * TrackedSession -> Prop) `{∀ e, Decision (P e)} :
  keyed d = true →
  keyed (with_sessions (filter P (pidToTrackedSession d)) d) = true.
Proof.
  rewrite !keyed_spec. simpl. intros [Hnd Hall]. split.
  - apply (sublist_NoDup _ (JsMap.keys (pidToTrackedSession d))); [done|].
    apply fmap_sublist, sublist_filter.
  - intros e [_ He]%list_elem_of_filter. auto.
Qed.

Lemma keyed_delete d k :
  keyed d = true →
  keyed (with_sessions (JsMap.delete k (pidToTrackedSession d)) d) = true.
Proof.
  intros Hk. rewrite HeartbeatFacts.delete_filter. by apply keyed_filter.
Qed.

Lemma keyed_same d d' :
  pidToTrackedSession d' = pidToTrackedSession d →
  keyed d = true → keyed d' = true.
Proof. unfold keyed. by intros ->. Qed.

Lemma keyed_webhook sessionId md d :
  keyed d = true → keyed (onHappySessionWebhook sessionId md d) = true.
Proof.
  intros Hk.
  destruct (hostPid md) as [q|] eqn:Hpid;
    [|by rewrite WebhookFacts.webhook_no_pid by auto].
  destruct (decide (q = 0)) as [->|Hq0];
    [by rewrite WebhookFacts.webhook_no_pid by auto|].
  destruct (JsMap.get q (pidToTrackedSession d)) as [s|] eqn:Hs.
  - destruct (startedBy s) eqn:Hby.
    + rewrite (WebhookFacts.webhook_daemon_entry _ _ _ _ _ Hpid Hq0 Hs Hby).
      cbv zeta.
      assert (fits (q, reported sessionId md s)) as Hfit.
      { apply JsMapFacts.get_Some_elem in Hs.
        destruct (proj1 (keyed_spec d) Hk) as [_ Hall].
        apply (Hall (q, s)) in Hs. done. }
      pose proof (keyed_set d q _ Hk Hfit) as Hk'.
      destruct (JsMap.get q (pidToAwaiter d)); [|done].
      eapply keyed_same; [|exact Hk']. done.
    + by rewrite (WebhookFacts.webhook_other_entry _ _ _ _ _ Hpid Hs Hby).
  - rewrite (WebhookFacts.webhook_new_entry _ _ _ _ Hpid Hq0 Hs).
    rewrite <- (JsMapFacts.set_fresh q _ _ Hs). by apply keyed_set.
Qed.

Lemma keyed_spawn os options d :
  keyed d = true → keyed (spawnSession os options d).1 = true.
Proof.
  intros Hk.
  pose proof (SpawnFacts.spawnSession_shape os options d) as H.
  destruct (spawnSession os options d) as [d' r]; simpl.
  destruct H as [(Hs & _)|(p & created & Hp0 & _ & Hs & _)].
  - by eapply keyed_same.
  - eapply keyed_same; [|apply (keyed_set d p (spawned p created (directory options)) Hk)];
      done.
Qed.

Lemma keyed_stop killThrows sessionId d :
  keyed d = true → keyed (stopSession killThrows sessionId d).2 = true.
Proof.
  intros Hk.
  destruct (firstMatch sessionId (pidToTrackedSession d)) as [[p s]|] eqn:Hf.
  - destruct (StopFacts.stopSession_found killThrows sessionId d p s Hf)
      as (_ & Hs & _).
    eapply keyed_same; [|apply (keyed_delete d p Hk)]. done.
  - by rewrite (StopFacts.stopSession_not_found _ _ _ Hf).
Qed.

Lemma keyed_happen d h : keyed d = true → keyed (happen d h) = true.
Proof.
  intros Hk. destruct h as [[sid md|os options|c|p|kt sid]|alive]; simpl.
  - by apply keyed_webhook.
  - by apply keyed_spawn.
  - eapply keyed_same; [|done]. unfold fireTimeout.
    destruct (spawnPromises d !! c) as [pr|]; [|done]. by destruct (timerArmed pr).
  - by apply keyed_delete.
  - by apply keyed_stop.
  - eapply keyed_same;
      [|apply (keyed_filter d (fun e => alive e.1 = true) Hk)].
    simpl. apply HeartbeatFacts.pruneStale_sessions.
Qed.

(** X2.  Whatever happens to a daemon whose registry is keyed by pid, the
    registry stays so: the list of sessions never shows a pid twice and
    never pid 0, each listed session is the one found under its pid, and a
    session has a child handle exactly when the daemon spawned it. *)
Theorem registry_stays_keyed hs d :
  keyed d = true →
  keyed (history hs d) = true
  ∧ NoDup (pid <$> getCurrentChildren (history hs d))
  ∧ ∀ s, s ∈ getCurrentChildren (history hs d) →
         JsMap.get (pid s) (pidToTrackedSession (history hs d)) = Some s
         ∧ pid s ≠ 0
         ∧ (is_Some (childProcess s) ↔ startedBy s = ByDaemon).
Proof.
  intros Hk.
  assert (keyed (history hs d) = true) as Hk'.
  { unfold history. revert d Hk. induction hs as [|h hs IH]; intros d Hk;
      [done|]. simpl. by apply IH, keyed_happen. }
  split; [done|]. destruct (proj1 (keyed_spec _) Hk') as [Hnd Hall].
  assert (pid <$> getCurrentChildren (history hs d)
          = JsMap.keys (pidToTrackedSession (history hs d))) as Hkeys.
  { unfold getCurrentChildren, JsMap.keys. rewrite <- list_fmap_compose.
    apply Forall_fmap_ext_1, Forall_forall. intros e He.
    by destruct (Hall e He). }
  split; [by rewrite Hkeys|].
  intros s Hs. unfold getCurrentChildren in Hs.
  apply list_elem_of_fmap in Hs as ([k s'] & -> & He). simpl.
  destruct (Hall _ He) as (Hp & H0 & Hc). simpl in *. subst k.
  split; [|split; [done|]].
  - by apply get_elem_NoDup.
  - rewrite Hc. destruct (startedBy s'); split; try done; by intros [? ?].
Qed.

End RegistryFacts.

(** ** The promises of the spawn calls over time *)

Module PromiseFacts.
Import Daemon Heartbeat.

#[local] Arguments timeoutMessage : simpl never.

Lemma orderly_spec d :
  orderly d = true ↔
  ∀ c pr, spawnPromises d !! c = Some pr → inOrder pr = true.
Proof.
  unfold orderly. rewrite forallb_forall. split.
  - intros H c pr Hc. apply H, list_elem_of_In. by eapply list_elem_of_lookup_2.
  - intros H pr [c Hc]%list_elem_of_In%list_elem_of_lookup. eauto.
Qed.

Lemma resolve_clear r pr :
  awaitedPid (resolve r (clearTimeout pr)) = awaitedPid pr
  ∧ ∀ r0, settled pr = Some r0 →
          settled (resolve r (clearTimeout pr)) = Some r0.
Proof.
  unfold resolve. destruct pr as [[r1|] armed q]; cbn; split; congruence.
Qed.

Lemma inOrder_resolved sid pr :
  inOrder pr = true →
  inOrder (resolve (Success (Some sid)) (clearTimeout pr)) = true.
Proof.
  unfold inOrder, resolve. destruct pr as [[r|] armed q]; simpl; [|done].
  destruct r as [[?|]|text|]; simpl; try done.
  rewrite !andb_true_iff. by intros [_ ->].
Qed.

Lemma inOrder_expired pr :
  inOrder pr = true →
  inOrder (resolve (Error (timeoutMessage (awaitedPid pr))) (clearTimeout pr))
  = true.
Proof.
  unfold inOrder, resolve.
  destruct pr as [[r|] armed q]; cbn [settled timerArmed awaitedPid negb andb].
  - destruct r as [[?|]|text|]; try done.
    rewrite !andb_true_iff. by intros [_ ?].
  - intros _. apply bool_decide_eq_true_2. reflexivity.
Qed.

(** The promises after a self-report: untouched, or one of them resolved
    with the reported session id. *)
Lemma webhook_promises sessionId md d :
  spawnPromises (onHappySessionWebhook sessionId md d) = spawnPromises d
  ∨ ∃ c, spawnPromises (onHappySessionWebhook sessionId md d)
         = alter (fun p => resolve (Success (Some sessionId)) (clearTimeout p))
             c (spawnPromises d).
Proof.
  unfold onHappySessionWebhook.
  destruct (hostPid md) as [q|]; [|by left].
  case_bool_decide; [by left|].
  destruct (JsMap.get q (pidToTrackedSession d)) as [s|]; [|by left].
  destruct (startedBy s); [|by left]. cbv zeta. simpl.
  destruct (JsMap.get q (pidToAwaiter d)) as [c|]; [|by left].
  right. by exists c.
Qed.

Lemma fireTimeout_promises c d :
  spawnPromises (fireTimeout c d) = spawnPromises d
  ∨ ∃ pr, spawnPromises d !! c = Some pr ∧ timerArmed pr = true
          ∧ spawnPromises (fireTimeout c d)
            = <[c := resolve (Error (timeoutMessage (awaitedPid pr)))
                       (clearTimeout pr)]> (spawnPromises d).
Proof.
  unfold fireTimeout. destruct (spawnPromises d !! c) as [pr|] eqn:Hc; [|by left].
  destruct (timerArmed pr) eqn:Ha; [|by left]. right. by exists pr.
Qed.

Lemma stop_promises killThrows sessionId d :
  spawnPromises (stopSession killThrows sessionId d).2 = spawnPromises d.
Proof.
  unfold stopSession.
  destruct (firstMatch sessionId (pidToTrackedSession d)) as [[p s]|]; [|done].
  by destruct (startedBy s), (childProcess s).
Qed.

Lemma spawn_promises os options d :
  spawnPromises (spawnSession os options d).1 = spawnPromises d
  ∨ ∃ p, spawnPromises (spawnSession os options d).1
         = spawnPromises d ++ [pending p].
Proof.
  pose proof (SpawnFacts.spawnSession_shape os options d) as H.
  destruct (spawnSession os options d) as [d' r]; simpl.
  destruct H as [(_ & _ & Hs & _)|(p & created & _ & _ & _ & _ & Hs & _)];
    [by left|right; by exists p].
Qed.

(** What one happening does to the promise of call [c]. *)
Lemma happen_promise d h c pr :
  spawnPromises d !! c = Some pr →
  ∃ pr', spawnPromises (happen d h) !! c = Some pr'
         ∧ awaitedPid pr' = awaitedPid pr
         ∧ (∀ r, settled pr = Some r → settled pr' = Some r)
         ∧ (inOrder pr = true → inOrder pr' = true).
Proof.
  intros Hc.
  assert (∀ d', spawnPromises d' = spawnPromises d →
    ∃ pr', spawnPromises d' !! c = Some pr'
           ∧ awaitedPid pr' = awaitedPid pr
           ∧ (∀ r, settled pr = Some r → settled pr' = Some r)
           ∧ (inOrder pr = true → inOrder pr' = true)) as Hsame.
  { intros d' ->. by exists pr. }
  destruct h as [[sid md|os options|c'|p|kt sid]|alive]; simpl.
  - destruct (webhook_promises sid md d) as [H|[c' H]]; [by apply Hsame|].
    rewrite H. destruct (decide (c' = c)) as [->|Hne].
    + rewrite list_lookup_alter_eq, Hc. simpl. eexists; split; [done|].
      split; [apply resolve_clear|].
      split; [apply resolve_clear|apply inOrder_resolved].
    + rewrite list_lookup_alter_ne by done. by exists pr.
  - destruct (spawn_promises os options d) as [H|[p H]]; [by apply Hsame|].
    rewrite H. exists pr. by rewrite (lookup_app_l_Some _ _ _ _ Hc).
  - destruct (fireTimeout_promises c' d) as [H|(pr0 & Hc' & Ha & H)];
      [by apply Hsame|].
    rewrite H. destruct (decide (c' = c)) as [->|Hne].
    + rewrite list_lookup_insert_eq by by eapply lookup_lt_Some.
      assert (pr0 = pr) as -> by congruence.
      eexists; split; [done|].
      split; [apply resolve_clear|].
      split; [apply resolve_clear|apply inOrder_expired].
    + rewrite list_lookup_insert_ne by done. by exists pr.
  - by apply Hsame.
  - apply Hsame, stop_promises.
  - by apply Hsame.
Qed.

Lemma history_promise hs d c pr :
  spawnPromises d !! c = Some pr →
  ∃ pr', spawnPromises (history hs d) !! c = Some pr'
         ∧ awaitedPid pr' = awaitedPid pr
         ∧ (∀ r, settled pr = Some r → settled pr' = Some r)
         ∧ (inOrder pr = true → inOrder pr' = true).
Proof.
  unfold history. revert d pr. induction hs as [|h hs IH]; intros d pr Hc.
  - by exists pr.
  - simpl. destruct (happen_promise d h c pr Hc) as (pr1 & H1 & Hp1 & Hs1 & Ho1).
    destruct (IH _ _ H1) as (pr2 & H2 & Hp2 & Hs2 & Ho2).
    exists pr2. split; [done|]. split; [congruence|]. split; [|tauto].
    intros r Hr. eauto.
Qed.

Lemma orderly_happen d h : orderly d = true → orderly (happen d h) = true.
Proof.
  rewrite !orderly_spec. intros Hall c pr' Hc'.
  destruct (spawnPromises d !! c) as [pr|] eqn:Hc.
  - destruct (happen_promise d h c pr Hc) as (pr1 & H1 & _ & _ & Ho).
    assert (pr1 = pr') as <- by congruence. eauto.
  - (* a call that did not exist: the spawn that just registered it *)
    destruct h as [[sid md|os options|c0|p|kt sid]|alive]; simpl in Hc'.
    + destruct (webhook_promises sid md d) as [H|[c0 H]]; rewrite H in Hc'.
      * congruence.
      * apply lookup_ge_None in Hc. apply lookup_lt_Some in Hc'.
        rewrite length_alter in Hc'. lia.
    + destruct (spawn_promises os options d) as [H|[p H]]; rewrite H in Hc'.
      * congruence.
      * apply lookup_ge_None in Hc. rewrite lookup_app_r in Hc' by done.
        apply list_lookup_singleton_Some in Hc' as [_ <-]. done.
    + destruct (fireTimeout_promises c0 d) as [H|(pr0 & _ & _ & H)];
        rewrite H in Hc'.
      * congruence.
      * apply lookup_ge_None in Hc. apply lookup_lt_Some in Hc'.
        rewrite length_insert in Hc'. lia.
    + simpl in Hc'. congruence.
    + rewrite stop_promises in Hc'. congruence.
    + simpl in Hc'. congruence.
Qed.

Lemma orderly_history hs d : orderly d = true → orderly (history hs d) = true.
Proof.
  unfold history. revert d. induction hs as [|h hs IH]; intros d Ho; [done|].
  simpl. by apply IH, orderly_happen.
Qed.

(** X3.  The result of a spawn call is final: once the caller has an
    answer, nothing that happens to the daemon afterwards, neither a late
    self-report nor the timer nor a stop or a sweep, changes it. *)
Theorem spawn_result_is_final hs c r d :
  outcome c d = Some r → outcome c (history hs d) = Some r.
Proof.
  unfold outcome. intros H.
  destruct (spawnPromises d !! c) as [pr|] eqn:Hc; [|done]. simpl in H.
  destruct (history_promise hs d c pr Hc) as (pr' & -> & _ & Hs & _).
  simpl. auto.
Qed.

(** X4.  Every spawn call ends.  The promises stay in order whatever
    happens, and when the timer of a registered call fires after any
    history, the call has a result: the one it had already, else the
    timeout error for its pid.  A result is always a success carrying a
    session id or that timeout error. *)
Theorem spawn_call_ends hs c pr d :
  orderly d = true →
  spawnPromises d !! c = Some pr →
  orderly (history hs d) = true
  ∧ ∃ pr', spawnPromises (history hs d) !! c = Some pr'
      ∧ awaitedPid pr' = awaitedPid pr
      ∧ outcome c (fireTimeout c (history hs d))
        = Some (default (Error (timeoutMessage (awaitedPid pr))) (settled pr'))
      ∧ ∀ r, settled pr' = Some r →
             (∃ sid, r = Success (Some sid))
             ∨ r = Error (timeoutMessage (awaitedPid pr)).
Proof.
  intros Ho Hc. split; [by apply orderly_history|].
  destruct (history_promise hs d c pr Hc) as (pr' & Hc' & Hp & _ & Hin).
  specialize (Hin (proj1 (orderly_spec d) Ho _ _ Hc)).
  exists pr'. split; [done|]. split; [done|]. rewrite <- Hp. split.
  - unfold outcome.
    destruct (fireTimeout_promises c (history hs d)) as [H|(pr0 & Hc0 & Ha & H)].
    + rewrite H, Hc'. simpl.
      destruct (settled pr') eqn:Hs; [done|].
      (* an undecided call has its timer armed, so the timer did act *)
      exfalso. unfold fireTimeout in H. rewrite Hc' in H.
      unfold inOrder in Hin. rewrite Hs in Hin. rewrite Hin in H. simpl in H.
      apply (f_equal (.!! c)) in H.
      rewrite list_lookup_insert_eq in H by by eapply lookup_lt_Some.
      rewrite Hc' in H. injection H as H. apply (f_equal settled) in H.
      unfold resolve in H. simpl in H. rewrite Hs in H. simpl in H. congruence.
    + assert (pr0 = pr') as -> by congruence.
      rewrite H, list_lookup_insert_eq by by eapply lookup_lt_Some.
      cbn [mbind option_bind]. unfold resolve.
      by destruct pr' as [[r|] armed q].
  - intros r Hr. unfold inOrder in Hin. rewrite Hr in Hin.
    destruct r as [[sid|]|text|]; try done; [left; by exists sid|right].
    apply andb_true_iff in Hin as [_ Hin%bool_decide_eq_true]. by subst.
Qed.

End PromiseFacts.

(** ** Stopping, with the registry keyed by pid *)

Module SignalFacts.
Import Daemon Heartbeat.

Lemma keyed_history hs d : keyed d = true → keyed (history hs d) = true.
Proof.
  unfold history. revert d. induction hs as [|h hs IH]; intros d Hk; [done|].
  simpl. by apply IH, RegistryFacts.keyed_happen.
Qed.

Lemma lastSignal_emit e d :
  lastSignal (emit e d)
  = match e with
    | ChildKill target signal _ => Some (target, signal)
    | ProcessKill target signal _ => Some (target, signal)
    | _ => None
    end.
Proof. unfold lastSignal, emit. simpl. by rewrite last_snoc. Qed.

(** X5.  After any history of a daemon whose registry is keyed by pid, a
    stop that answers [true] has sent one SIGTERM and nothing else, and
    the process it signalled is the one whose entry it removed: through
    the child handle for a session the daemon spawned, by pid otherwise.
    Every other entry is kept.  A stop that answers [false] does nothing
    at all. *)
Theorem stop_signals_the_removed_process hs killThrows sessionId d :
  keyed d = true →
  let d0 := history hs d in
  let d' := (stopSession killThrows sessionId d0).2 in
  ((stopSession killThrows sessionId d0).1 = true →
     ∃ p s, JsMap.get p (pidToTrackedSession d0) = Some s
       ∧ matches sessionId p s = true
       ∧ effects d'
         = effects d0
           ++ [match startedBy s with
               | ByDaemon => ChildKill p "SIGTERM" killThrows
               | ByHappyDirectly => ProcessKill p "SIGTERM" killThrows
               end]
       ∧ lastSignal d' = Some (p, "SIGTERM")
       ∧ JsMap.get p (pidToTrackedSession d') = None
       ∧ ∀ q, q ≠ p →
              JsMap.get q (pidToTrackedSession d')
              = JsMap.get q (pidToTrackedSession d0))
  ∧ ((stopSession killThrows sessionId d0).1 = false → d' = d0).
Proof.
  intros Hk d0 d'. subst d'.
  pose proof (keyed_history hs d Hk) as Hk0. fold d0 in Hk0.
  destruct (proj1 (RegistryFacts.keyed_spec d0) Hk0) as [Hnd Hall].
  unfold stopSession.
  destruct (firstMatch sessionId (pidToTrackedSession d0)) as [[p s]|] eqn:Hf;
    [|done].
  split; [intros _|done].
  destruct (StopFacts.firstMatch_Some _ _ _ _ Hf) as [Hin Hm].
  destruct (Hall _ Hin) as (_ & _ & Hc). simpl in Hc.
  exists p, s. split; [by apply RegistryFacts.get_elem_NoDup|].
  split; [done|].
  destruct (startedBy s); rewrite ?Hc; simpl;
    (split; [done|]); (split; [unfold lastSignal; simpl; by rewrite last_snoc|]);
    (split; [apply JsMapFacts.get_delete_eq|]);
    intros q Hq; by apply JsMapFacts.get_delete_ne.
Qed.

(** X6.  A session the daemon has just spawned can be stopped by the
    synthetic id [PID-<pid>] before it has reported itself, provided no
    tracked session carries that very string as its session id: the stop
    answers [true], signals the child, and the registry is the one from
    before the spawn without an entry for the pid.  The spawn call is not
    told: it still waits, and ends with the timeout error.  The pid is a
    number as the program holds it, a double: every integer below 2^53
    is one. *)
Theorem stop_by_pid_before_report os options killThrows d d1 c p :
  consistent d = true → 0 < p → Js.toDouble p = Some p →
  launch os = LaunchChild (Some p) →
  spawnSession os options d = (d1, Awaiting c) →
  forallb (fun e => negb (bool_decide
             (happySessionId e.2 = Some ("PID-" +:+ Js.toString p))))
    (pidToTrackedSession d) = true →
  let stopped := stopSession killThrows ("PID-" +:+ Js.toString p) d1 in
  stopped.1 = true
  ∧ lastSignal stopped.2 = Some (p, "SIGTERM")
  ∧ pidToTrackedSession stopped.2 = JsMap.delete p (pidToTrackedSession d)
  ∧ outcome c stopped.2 = None
  ∧ outcome c (fireTimeout c stopped.2) = Some (Error (timeoutMessage p)).
Proof.
  intros Hcons Hp Hdouble Hl Hsp Hids stopped. subst stopped.
  destruct (AwaiterFacts.waiting_after_spawn os options d d1 c p Hcons Hl Hsp)
    as (Hw & _ & created & Hget).
  pose proof (SpawnFacts.spawnSession_shape os options d) as H.
  rewrite Hsp in H.
  destruct H as [(_&_&_&res&?&_)|(p'&created'&_&Hl'&Hs&_&_&_)]; [done|].
  assert (p' = p) as -> by congruence.
  set (sid := "PID-" +:+ Js.toString p) in *.
  assert (firstMatch sid (pidToTrackedSession d1)
          = Some (p, spawned p created' (directory options))) as Hf.
  { rewrite Hs. clear Hs Hget Hw Hsp Hcons.
    induction (pidToTrackedSession d) as [|[k v] m IH]; simpl.
    - subst sid. rewrite StopFacts.matches_pid_form_exact by (done || lia).
      by rewrite (bool_decide_eq_true_2 (p = p)), orb_true_r.
    - simpl in Hids. apply andb_true_iff in Hids as [Hk Hids].
      apply negb_true_iff in Hk.
      destruct (decide (k = p)) as [->|Hne]; simpl.
      + subst sid. rewrite StopFacts.matches_pid_form_exact by (done || lia).
        by rewrite (bool_decide_eq_true_2 (p = p)), orb_true_r.
      + assert (matches sid k v = false) as ->.
        { subst sid. rewrite StopFacts.matches_pid_form_exact by (done || lia).
          simpl in Hk. rewrite Hk. simpl. by apply bool_decide_eq_false_2. }
        by apply IH. }
  destruct (StopFacts.stopSession_found killThrows sid d1 _ _ Hf)
    as (Ht & Hs' & Ha' & Hp').
  split; [done|]. split.
  { unfold stopSession. rewrite Hf. simpl. unfold lastSignal. simpl.
    by rewrite last_snoc. }
  split.
  { rewrite Hs', Hs. clear.
    induction (pidToTrackedSession d) as [|[k v] m IH]; simpl.
    - by rewrite decide_True.
    - destruct (decide (k = p)) as [->|Hne]; simpl.
      + by rewrite decide_True.
      + rewrite decide_False by done. by rewrite IH. }
  assert (waiting c p (stopSession killThrows sid d1).2) as Hw'.
  { by apply AwaiterFacts.waiting_stop. }
  destruct (AwaiterFacts.fireTimeout_waiting c p _ Hw') as (H1 & H2 & _).
  done.
Qed.

End SignalFacts.

(** ** A self-report while the spawn call waits *)

Module ReportFacts.
Import Daemon Heartbeat.

(** From the start on, every awaiter belongs to a call that waits for
    its pid. *)
Lemma consistent_history hs d :
  consistent d = true → consistent (history hs d) = true.
Proof.
  unfold history. revert d. induction hs as [|h hs IH]; intros d Hd; [done|].
  simpl. apply IH. destruct h as [e|alive]; [|done].
  by apply (AwaiterFacts.consistent_run [e]).
Qed.

Lemma consistent_reachable dirs hs :
  consistent (history hs (initial dirs)) = true.
Proof. by apply consistent_history. Qed.

Lemma registered_waiting c p s d :
  startedBy s = ByDaemon → happySessionId s = None →
  registered c p s d → waiting c p d.
Proof.
  intros Hby Hid (Hcons & _ & Hc & Hs). split; [done|]. split; [done|].
  intros s0 Hs0. by assert (s0 = s) as -> by congruence.
Qed.

(** A sparing happening leaves the registration of the call as it is. *)
Lemma registered_happen c p s d h :
  startedBy s = ByDaemon → happySessionId s = None →
  sparing p d h = true →
  registered c p s d → registered c p s (happen d h).
Proof.
  intros Hby Hid Hh Hreg.
  pose proof (registered_waiting c p s d Hby Hid Hreg) as Hw.
  destruct Hreg as (Hcons & Ha & Hc & Hs).
  destruct h as [[sid md|os options|c'|q|kt sid]|alive];
    cbn [sparing happen step] in *.
  - (* the report of another process *)
    apply negb_true_iff, bool_decide_eq_false in Hh.
    destruct (AwaiterFacts.waiting_webhook c p d sid md Hh Hw)
      as (Hcons' & Hc' & _).
    split; [done|]. split; [|split; [done|]].
    + destruct (hostPid md) as [q|] eqn:Hpid;
        [|by rewrite WebhookFacts.webhook_no_pid by auto].
      destruct (decide (q = 0)) as [->|Hq0];
        [by rewrite WebhookFacts.webhook_no_pid by auto|].
      assert (q ≠ p) as Hqp by congruence.
      destruct (JsMap.get q (pidToTrackedSession d)) as [s'|] eqn:Hs'.
      * destruct (startedBy s') eqn:Hby'.
        -- rewrite (WebhookFacts.webhook_daemon_entry _ _ _ _ _
                      Hpid Hq0 Hs' Hby').
           cbv zeta. destruct (JsMap.get q (pidToAwaiter d)); simpl;
             by rewrite ?JsMapFacts.get_delete_ne by done.
        -- by rewrite (WebhookFacts.webhook_other_entry _ _ _ _ _
                         Hpid Hs' Hby').
      * by rewrite (WebhookFacts.webhook_new_entry _ _ _ _ Hpid Hq0 Hs').
    + destruct (hostPid md) as [q|] eqn:Hpid;
        [|by rewrite WebhookFacts.webhook_no_pid by auto].
      destruct (decide (q = 0)) as [->|Hq0];
        [by rewrite WebhookFacts.webhook_no_pid by auto|].
      assert (q ≠ p) as Hqp by congruence.
      destruct (JsMap.get q (pidToTrackedSession d)) as [s'|] eqn:Hs'.
      * destruct (startedBy s') eqn:Hby'.
        -- rewrite (WebhookFacts.webhook_daemon_entry _ _ _ _ _
                      Hpid Hq0 Hs' Hby').
           cbv zeta. destruct (JsMap.get q (pidToAwaiter d)); simpl;
             by rewrite JsMapFacts.get_set_ne by done.
        -- by rewrite (WebhookFacts.webhook_other_entry _ _ _ _ _
                         Hpid Hs' Hby').
      * rewrite (WebhookFacts.webhook_new_entry _ _ _ _ Hpid Hq0 Hs').
        simpl. rewrite <- (JsMapFacts.set_fresh q _ _ Hs').
        by rewrite JsMapFacts.get_set_ne by done.
  - (* a spawn of another process *)
    assert (launch os ≠ LaunchChild (Some p)) as Hos.
    { intros Hl. rewrite Hl in Hh.
      by rewrite bool_decide_eq_true_2 in Hh. }
    destruct (AwaiterFacts.waiting_spawn c p d os options Hw)
      as (Hcons' & Hc' & _).
    split; [done|]. split; [|split; [done|]].
    + pose proof (SpawnFacts.spawnSession_shape os options d) as H.
      destruct (spawnSession os options d) as [d' r]; simpl.
      destruct H as [(_ & Ha' & _)
                    |(p' & created & _ & Hl & _ & Ha' & _)].
      * by rewrite Ha'.
      * rewrite Ha'. rewrite JsMapFacts.get_set_ne; [done|]. congruence.
    + pose proof (SpawnFacts.spawnSession_shape os options d) as H.
      destruct (spawnSession os options d) as [d' r]; simpl.
      destruct H as [(Hs' & _)
                    |(p' & created & _ & Hl & Hs' & _)].
      * by rewrite Hs'.
      * rewrite Hs'. rewrite JsMapFacts.get_set_ne; [done|]. congruence.
  - (* the timer of a call that does not wait for [p] *)
    assert (c' ≠ c) as Hne.
    { intros ->. by rewrite Hc, bool_decide_eq_true_2 in Hh. }
    destruct (AwaiterFacts.waiting_timer c p d c' Hne Hw)
      as (Hcons' & Hc' & _).
    split; [done|]. split; [|split; [done|]].
    + unfold fireTimeout.
      destruct (spawnPromises d !! c') as [pr'|]; [|done].
      destruct (timerArmed pr'); [|done]. simpl in *.
      apply negb_true_iff, bool_decide_eq_false in Hh.
      by rewrite JsMapFacts.get_delete_ne by done.
    + unfold fireTimeout.
      destruct (spawnPromises d !! c') as [pr'|]; [|done].
      by destruct (timerArmed pr').
  - (* the exit of another child *)
    apply negb_true_iff, bool_decide_eq_false in Hh.
    split; [done|]. split; [done|]. split; [done|]. simpl.
    by rewrite JsMapFacts.get_delete_ne by done.
  - (* a stop that finds another entry *)
    destruct (firstMatch sid (pidToTrackedSession d)) as [[q sq]|] eqn:Hf.
    + apply negb_true_iff, bool_decide_eq_false in Hh.
      destruct (StopFacts.stopSession_found kt sid d q sq Hf)
        as (_ & Hs' & Ha' & Hp').
      pose proof (AwaiterFacts.consistent_stop kt sid d Hcons) as Hcons'.
      split; [done|]. rewrite Hs', Ha', Hp'.
      split; [done|]. split; [done|].
      by rewrite JsMapFacts.get_delete_ne by done.
    + by rewrite (StopFacts.stopSession_not_found _ _ _ Hf).
  - (* a sweep that finds [p] alive *)
    split; [done|]. split; [done|]. split; [done|].
    rewrite HeartbeatFacts.pruneStale_sessions,
      HeartbeatFacts.get_filter_alive. by rewrite Hh.
Qed.

Lemma registered_history c p s hs d :
  startedBy s = ByDaemon → happySessionId s = None →
  undisturbed p d hs = true →
  registered c p s d → registered c p s (history hs d).
Proof.
  intros Hby Hid. unfold history. revert d.
  induction hs as [|h hs IH]; intros d Hhs Hreg; [done|].
  simpl in *. apply andb_true_iff in Hhs as [Hh Hhs].
  apply IH; [done|]. by apply registered_happen.
Qed.

(** The report of [p] while the call stands registered. *)
Lemma report_registered c p s d sessionId md :
  p ≠ 0 → startedBy s = ByDaemon →
  registered c p s d → hostPid md = Some p →
  let d' := onHappySessionWebhook sessionId md d in
  JsMap.get p (pidToTrackedSession d') = Some (reported sessionId md s)
  ∧ spawnPromises d' !! c
    = Some {| settled := Some (Success (Some sessionId));
              timerArmed := false; awaitedPid := p |}
  ∧ JsMap.get p (pidToAwaiter d') = None.
Proof.
  intros Hp0 Hby (_ & Ha & Hc & Hs) Hpid d'.
  pose proof (WebhookFacts.webhook_daemon_entry sessionId md d p s
                Hpid Hp0 Hs Hby) as Hd'.
  rewrite Ha in Hd'. cbv zeta in Hd'. fold d' in Hd'.
  split; [|split].
  - rewrite Hd'. simpl. apply JsMapFacts.get_set_eq.
  - rewrite Hd'. by erewrite WebhookFacts.awaiter_outcome_pending by done.
  - rewrite Hd'. simpl. apply JsMapFacts.get_delete_eq.
Qed.

(** C2.  In a state of the daemon (one in which every awaiter belongs
    to a call that waits for its pid, as it is from the start on) a spawn
    call registers its entry and its awaiter for the child [p], and then
    anything happens that is sparing for [p]: reports of other processes,
    spawns that launch no child of pid [p], timers that are not armed for
    a call that waits for [p], exits of other children, stops that find
    another entry or none, sweeps that find [p] alive.  The call is still
    undecided then, and when the webhook for [p] runs, the entry ends with
    the reported session id, still started by the daemon, the call
    succeeds with that id, its awaiter is gone and its timer can no longer
    fire.  A report for [p] that follows resolves nothing: the promises
    and the awaiters stay as they are; and whatever happens later, the
    result of the call is unchanged. *)
Theorem report_after_registration os options d d1 c p hs sessionId md :
  consistent d = true →
  spawnSession os options d = (d1, Awaiting c) →
  launch os = LaunchChild (Some p) →
  undisturbed p d1 hs = true →
  hostPid md = Some p →
  let d2 := history hs d1 in
  let d3 := onHappySessionWebhook sessionId md d2 in
  outcome c d2 = None
  ∧ (∃ created s,
       JsMap.get p (pidToTrackedSession d3) = Some s
       ∧ s = reported sessionId md (spawned p created (directory options))
       ∧ startedBy s = ByDaemon
       ∧ happySessionId s = Some sessionId
       ∧ happySessionMetadataFromLocalWebhook s = Some md)
  ∧ outcome c d3 = Some (Success (Some sessionId))
  ∧ JsMap.get p (pidToAwaiter d3) = None
  ∧ fireTimeout c d3 = d3
  ∧ (∀ sessionId' md', hostPid md' = Some p →
       let d4 := onHappySessionWebhook sessionId' md' d3 in
       outcome c d4 = Some (Success (Some sessionId))
       ∧ spawnPromises d4 = spawnPromises d3
       ∧ pidToAwaiter d4 = pidToAwaiter d3
       ∧ fireTimeout c d4 = d4)
  ∧ (∀ hs', outcome c (history hs' d3) = Some (Success (Some sessionId))).
Proof.
  intros Hcons Hsp Hl Hhs Hpid d2 d3.
  pose proof (SpawnFacts.spawnSession_shape os options d) as H.
  pose proof (AwaiterFacts.consistent_spawn os options d Hcons) as Hcons1.
  rewrite Hsp in H, Hcons1. simpl in Hcons1.
  destruct H as [(_&_&_&res&?&_)|(p'&created&Hp0&Hl'&Hs&Ha&Hp&Hc)]; [done|].
  assert (p' = p) as -> by congruence. injection Hc as ->.
  set (s1 := spawned p created (directory options)) in *.
  assert (registered (length (spawnPromises d)) p s1 d1) as Hreg.
  { split; [done|]. split; [rewrite Ha; apply JsMapFacts.get_set_eq|].
    split; [by rewrite Hp, lookup_app_r, Nat.sub_diag by done|].
    rewrite Hs. apply JsMapFacts.get_set_eq. }
  apply (registered_history _ _ _ hs) in Hreg; [|done..].
  fold d2 in Hreg.
  destruct (report_registered _ p s1 d2 sessionId md Hp0 eq_refl Hreg Hpid)
    as (Hent3 & Hpr3 & Haw3).
  fold d3 in Hent3, Hpr3, Haw3.
  split.
  { destruct Hreg as (_ & _ & Hc & _). unfold outcome. by rewrite Hc. }
  split; [by exists created, (reported sessionId md s1)|].
  split; [unfold outcome; by rewrite Hpr3|].
  split; [done|]. split; [unfold fireTimeout; by rewrite Hpr3|].
  split.
  - intros sessionId' md' Hpid' d4.
    pose proof (WebhookFacts.webhook_daemon_entry sessionId' md' d3 p _
                  Hpid' Hp0 Hent3 eq_refl) as Hd4.
    rewrite Haw3 in Hd4. cbv zeta in Hd4. fold d4 in Hd4.
    rewrite Hd4. simpl. unfold outcome, fireTimeout. simpl. by rewrite Hpr3.
  - intros hs'.
    destruct (PromiseFacts.history_promise hs' d3 _ _ Hpr3)
      as (pr' & Hpr' & _ & Hset & _).
    unfold outcome. rewrite Hpr'. simpl. by apply Hset.
Qed.

End ReportFacts.

(** ** A report in the middle of other traffic *)

Module ReportEpisodes.
Import Daemon Heartbeat.

(** While the call for process 4242 waits, a second session is spawned,
    an outside session reports itself and is stopped, the heartbeat finds
    everybody alive and the second child exits; then process 4242
    reports itself and the call succeeds. *)
Lemma report_after_registration_witness :
  spawnSession (Sample.os (Some 4242)) (Sample.options "/tmp" None) Sample.fresh
  = (Sample.spawnedInto 4242 Sample.fresh, Awaiting 0%nat)
  ∧ undisturbed 4242 (Sample.spawnedInto 4242 Sample.fresh) Episode.bystanders
    = true
  ∧ hostPid (Sample.md 4242) = Some 4242
  ∧ outcome 0
      (onHappySessionWebhook "s-1" (Sample.md 4242)
         (history Episode.bystanders (Sample.spawnedInto 4242 Sample.fresh)))
    = Some (Success (Some "s-1")).
Proof.
  split; [reflexivity|]. split; [reflexivity|]. split; [reflexivity|].
  pose proof (ReportFacts.report_after_registration (Sample.os (Some 4242))
                (Sample.options "/tmp" None) Sample.fresh
                (Sample.spawnedInto 4242 Sample.fresh) 0%nat 4242
                Episode.bystanders "s-1" (Sample.md 4242)
                eq_refl eq_refl eq_refl eq_refl eq_refl) as H.
  cbv zeta in H. destruct H as (_ & _ & Hout & _). exact Hout.
Defined.

(** What is not sparing: after a stop by the synthetic id of the pid, or
    after the exit of the child, the report finds no entry and registers
    an outside session; after the timer the call has ended with the
    timeout error; after the timer of an older call that waited for the
    same pid the awaiter is gone.  In none of these cases does the call
    succeed. *)
Example disturbed_report_does_not_resolve :
  let d1 := Sample.spawnedInto 4242 Sample.fresh in
  let report := onHappySessionWebhook "s-1" (Sample.md 4242) in
  (sparing 4242 d1 (Handled (Stop false "PID-4242")) = false
   ∧ outcome 0 (report (stopSession false "PID-4242" d1).2) = None
   ∧ JsMap.get 4242 (pidToTrackedSession (report (stopSession false "PID-4242" d1).2))
     = Some (external "s-1" (Sample.md 4242) 4242))
  ∧ (sparing 4242 d1 (Handled (ChildExited 4242)) = false
     ∧ outcome 0 (report (onChildExited 4242 d1)) = None
     ∧ JsMap.get 4242 (pidToTrackedSession (report (onChildExited 4242 d1)))
       = Some (external "s-1" (Sample.md 4242) 4242))
  ∧ (sparing 4242 d1 (Handled (TimerFires 0)) = false
     ∧ outcome 0 (report (fireTimeout 0 d1))
       = Some (Error "Session webhook timeout for PID 4242"))
  ∧ (let d2 := Sample.spawnedInto 4242 d1 in
     sparing 4242 d2 (Handled (TimerFires 0)) = false
     ∧ outcome 1 (report (fireTimeout 0 d2)) = None
     ∧ outcome 1 (fireTimeout 1 (report (fireTimeout 0 d2)))
       = Some (Error "Session webhook timeout for PID 4242")).
Proof. repeat split; reflexivity. Qed.

End ReportEpisodes.

(** ** Incoming updates: the queue of user messages and the versions *)

Module InboxFacts.
Import Inbox.

#[local] Arguments Z.max : simpl never.
Section Client.
Context {M A U Plain Blob : Type}.
Variable decrypt : Blob -> option Plain.
Variable safeParse : Plain -> option U.
Variable asMetadata : Plain -> option M.
Variable asAgentState : Plain -> option A.
Variable nonempty : Blob -> bool.

#[local] Abbreviation Client := (Client (M := M) (A := A) (U := U) (Plain := Plain) (Blob := Blob)).
#[local] Abbreviation metadataPart := (metadataPart decrypt asMetadata).
#[local] Abbreviation agentStatePart := (agentStatePart decrypt asAgentState nonempty).
#[local] Abbreviation onUpdate := (onUpdate decrypt safeParse asMetadata asAgentState nonempty).
#[local] Abbreviation step := (step decrypt safeParse asMetadata asAgentState nonempty).
#[local] Abbreviation run := (run decrypt safeParse asMetadata asAgentState nonempty).
#[local] Abbreviation arrivals := (arrivals decrypt safeParse).
#[local] Abbreviation userMessage := (userMessage decrypt safeParse).
#[local] Abbreviation metadataVersions := (metadataVersions decrypt).
#[local] Abbreviation readable := (readable decrypt nonempty).

(** The messages a client has seen, handed out or still waiting. *)
#[local] Abbreviation seen c := ((snd <$> delivered c) ++ pendingMessages c).

Lemma drain_spec callback queue (c : Client) :
  delivered (drain callback queue c)
  = delivered c ++ ((fun m => (callback, m)) <$> queue)
  ∧ pendingMessages (drain callback queue c) = []
  ∧ pendingMessageCallback (drain callback queue c) = pendingMessageCallback c
  ∧ emitted (drain callback queue c) = emitted c
  ∧ metadata (drain callback queue c) = metadata c
  ∧ metadataVersion (drain callback queue c) = metadataVersion c
  ∧ agentState (drain callback queue c) = agentState c
  ∧ agentStateVersion (drain callback queue c) = agentStateVersion c.
Proof.
  revert c. induction queue as [|m rest IH]; intros c; simpl.
  - by rewrite app_nil_r.
  - destruct (IH (deliver callback m (with_pending rest c)))
      as (-> & -> & -> & -> & -> & -> & -> & ->).
    simpl. by rewrite <- app_assoc.
Qed.

Lemma settledQueue_spec (c : Client) :
  settledQueue c = true ↔
  (pendingMessageCallback c = None ∨ pendingMessages c = []).
Proof.
  unfold settledQueue. destruct (pendingMessageCallback c) as [cb|].
  - rewrite bool_decide_eq_true, length_zero_iff_nil.
    split; [by right|by intros [?|?]].
  - split; [by left|done].
Qed.

(** An ['update-session'] touches the two fields only. *)
Lemma metadataPart_spec md (c c1 : Client) :
  metadataPart md c = Some c1 →
  delivered c1 = delivered c
  ∧ pendingMessages c1 = pendingMessages c
  ∧ pendingMessageCallback c1 = pendingMessageCallback c
  ∧ agentState c1 = agentState c
  ∧ agentStateVersion c1 = agentStateVersion c
  ∧ (c1 = c
     ∨ ∃ version value v,
         md = Some (version, value) ∧ version > metadataVersion c
         ∧ decrypt value = Some v
         ∧ c1 = setMetadata (asMetadata v) version c).
Proof.
  unfold Inbox.metadataPart. destruct md as [[version value]|].
  - case_bool_decide as Hv.
    + destruct (decrypt value) as [v|] eqn:Hd; simpl; [|done].
      intros [= <-]. repeat split; try done. right. by exists version, value, v.
    + intros [= <-]. repeat split; try done. by left.
  - intros [= <-]. repeat split; try done. by left.
Qed.

Lemma agentStatePart_spec st (c c1 : Client) :
  agentStatePart st c = Some c1 →
  delivered c1 = delivered c
  ∧ pendingMessages c1 = pendingMessages c
  ∧ pendingMessageCallback c1 = pendingMessageCallback c
  ∧ metadata c1 = metadata c
  ∧ metadataVersion c1 = metadataVersion c
  ∧ (c1 = c
     ∨ ∃ version value v,
         st = Some (version, value) ∧ version > agentStateVersion c
         ∧ c1 = setAgentState v version c).
Proof.
  unfold Inbox.agentStatePart. destruct st as [[version value]|].
  - case_bool_decide as Hv.
    + destruct value as [blob|].
      * destruct (nonempty blob).
        -- destruct (decrypt blob) as [v|] eqn:Hd; simpl; [|done].
           intros [= <-]. repeat split; try done. right.
           by exists version, (Some blob), (asAgentState v).
        -- intros [= <-]. repeat split; try done. right.
           by exists version, (Some blob), None.
      * intros [= <-]. repeat split; try done. right.
        by exists version, None, None.
    + intros [= <-]. repeat split; try done. by left.
  - intros [= <-]. repeat split; try done. by left.
Qed.

Lemma session_update_spec md st (c : Client) :
  let c' := onUpdate (Some (UpdateSession md st)) c in
  delivered c' = delivered c
  ∧ pendingMessages c' = pendingMessages c
  ∧ pendingMessageCallback c' = pendingMessageCallback c.
Proof.
  simpl. destruct (metadataPart md c) as [c1|] eqn:H1; [|done].
  destruct (metadataPart_spec _ _ _ H1) as (Hd & Hp & Hc & _).
  destruct (agentStatePart st c1) as [c2|] eqn:H2; simpl; [|done].
  destruct (agentStatePart_spec _ _ _ H2) as (Hd' & Hp' & Hc' & _).
  by rewrite Hd', Hp', Hc'.
Qed.

Lemma step_queue (c : Client) e :
  settledQueue c = true →
  seen (step c e) = seen c ++ option_list (userMessage e)
  ∧ settledQueue (step c e) = true
  ∧ (is_Some (pendingMessageCallback c) →
       is_Some (pendingMessageCallback (step c e))).
Proof.
  intros Hq. pose proof (proj1 (settledQueue_spec c) Hq) as Hq'.
  destruct e as [[body|]|callback]; cbn [Inbox.step Inbox.userMessage].
  - destruct body as [[blob|]|md st| |]; cbn [Inbox.onUpdate option_list];
      try (by rewrite app_nil_r).
    + destruct (decrypt blob) as [plain|]; cbn [mbind option_bind];
        [|by rewrite app_nil_r].
      destruct (safeParse plain) as [m|] eqn:Hm; simpl.
      * unfold settledQueue in *.
        destruct (pendingMessageCallback c) as [cb|] eqn:Hcb; simpl.
        -- rewrite Hcb. destruct Hq' as [?|Hp]; [done|]. rewrite Hp in *.
           rewrite fmap_app, !app_nil_r. simpl. split; [done|]. split; [done|].
           by eauto.
        -- rewrite Hcb. rewrite app_assoc. split; [done|]. split; [done|].
           by intros [? ?].
      * by rewrite app_nil_r.
    + rewrite app_nil_r.
      destruct (session_update_spec md st c) as (H1 & H2 & H3).
      cbn [Inbox.onUpdate] in H1, H2, H3.
      unfold settledQueue in *. by rewrite H1, H2, H3.
  - by rewrite app_nil_r.
  - unfold onUserMessage.
    destruct (drain_spec callback
                (pendingMessages (with_callback (Some callback) c))
                (with_callback (Some callback) c))
      as (Hd & Hp & Hc & _).
    unfold settledQueue. rewrite Hd, Hp, Hc. simpl.
    rewrite fmap_app, <- list_fmap_compose, !app_nil_r.
    split; [|split; [done|by eauto]].
    f_equal. by rewrite list_fmap_id.
Qed.

(** X7.  User messages are handed out exactly once and in the order of
    their arrival, whenever the listener registers: what has been handed
    to callbacks, followed by what still waits, is what was there before
    followed by the arrivals.  Once a listener has registered nothing
    waits any more. *)
Theorem user_messages_once_in_order es (c : Client) :
  settledQueue c = true →
  seen (run es c) = seen c ++ arrivals es
  ∧ settledQueue (run es c) = true
  ∧ ((is_Some (pendingMessageCallback c) ∨ ∃ callback, Listen callback ∈ es) →
       pendingMessages (run es c) = []
       ∧ snd <$> delivered (run es c) = seen c ++ arrivals es).
Proof.
  revert c. induction es as [|e es IH]; intros c Hq.
  - simpl. rewrite app_nil_r. split; [done|]. split; [done|].
    intros [[cb Hcb]|[cb H]]; [|by apply elem_of_nil in H].
    apply settledQueue_spec in Hq as [Hq|Hq]; [congruence|].
    by rewrite Hq, app_nil_r.
  - destruct (step_queue c e Hq) as (Hs & Hq1 & Hcb).
    destruct (IH _ Hq1) as (IH1 & IH2 & IH3).
    assert (seen c ++ arrivals (e :: es)
            = seen (step c e) ++ arrivals es) as Heq.
    { rewrite Hs.
      rewrite <- (app_assoc _ (option_list (userMessage e)) (arrivals es)).
      f_equal.
      change (arrivals (e :: es))
        with (match userMessage e with
              | Some m => m :: arrivals es
              | None => arrivals es
              end).
      by destruct (userMessage e). }
    change (run (e :: es) c) with (run es (step c e)).
    rewrite Heq. split; [done|]. split; [done|].
    intros Hl. apply IH3.
    destruct Hl as [Hl|[cb [He|Hin]%elem_of_cons]]; [by left; apply Hcb| |eauto].
    subst e. left. simpl. unfold onUserMessage.
    destruct (drain_spec cb
                (pendingMessages (with_callback (Some cb) c))
                (with_callback (Some cb) c)) as (_ & _ & -> & _).
    by eexists.
Qed.

Lemma foldl_max_le x l : x ≤ foldl Z.max x l.
Proof.
  revert x. induction l as [|y l IH]; intros x; simpl; [lia|].
  specialize (IH (Z.max x y)). lia.
Qed.

Lemma foldl_max_mono x y l : x ≤ y → foldl Z.max x l ≤ foldl Z.max y l.
Proof.
  revert x y. induction l as [|z l IH]; intros x y Hxy; simpl; [done|].
  apply IH. lia.
Qed.

(** What one ['update-session'] does to the versions. *)
Lemma session_update_versions md st (c : Client) :
  let c' := onUpdate (Some (UpdateSession md st)) c in
  metadataVersion c'
  = foldl Z.max (metadataVersion c)
      (metadataVersions [Update (Some (UpdateSession md st))])
  ∧ agentStateVersion c ≤ agentStateVersion c'
  ∧ agentStateVersion c'
    ≤ foldl Z.max (agentStateVersion c)
        (agentStateVersions [Update (Some (UpdateSession md st))])
  ∧ (readable (Update (Some (UpdateSession md st))) = true →
     agentStateVersion c'
     = foldl Z.max (agentStateVersion c)
         (agentStateVersions [Update (Some (UpdateSession md st))]))
  ∧ (metadataVersion c' = metadataVersion c → metadata c' = metadata c)
  ∧ (agentStateVersion c' = agentStateVersion c →
       agentState c' = agentState c).
Proof.
  cbn [Inbox.onUpdate Inbox.readable].
  unfold Inbox.metadataVersions, agentStateVersions. cbn [omap foldl].
  unfold Inbox.metadataPart, Inbox.agentStatePart.
  destruct md as [[v b]|], st as [[v' [b'|]]|]; simpl;
    repeat first
      [ case_bool_decide
      | match goal with
        | |- context [decrypt ?x] => destruct (decrypt x) eqn:?
        | |- context [nonempty ?x] => destruct (nonempty x) eqn:?
        end
      | progress simpl in * ];
    repeat split; intros; simplify_eq; try lia; try done;
    match goal with
    | H : ¬ is_Some (Some _) |- _ => by destruct H
    | H : is_Some None |- _ => by destruct H
    | _ => idtac
    end.
Qed.

Lemma step_versions (c : Client) e :
  metadataVersion (step c e)
  = foldl Z.max (metadataVersion c) (metadataVersions [e])
  ∧ agentStateVersion c ≤ agentStateVersion (step c e)
  ∧ agentStateVersion (step c e)
    ≤ foldl Z.max (agentStateVersion c) (agentStateVersions [e])
  ∧ (readable e = true →
     agentStateVersion (step c e)
     = foldl Z.max (agentStateVersion c) (agentStateVersions [e]))
  ∧ (metadataVersion (step c e) = metadataVersion c →
       metadata (step c e) = metadata c)
  ∧ (agentStateVersion (step c e) = agentStateVersion c →
       agentState (step c e) = agentState c).
Proof.
  destruct e as [[body|]|callback]; try (simpl; repeat split; done || lia).
  - destruct body as [[blob|]|md st| |];
      try (simpl; repeat split; done || lia).
    + simpl. destruct (decrypt blob) as [plain|];
        [|repeat split; done || lia].
      destruct (safeParse plain); simpl; [|repeat split; done || lia].
      destruct (pendingMessageCallback c); repeat split; done || lia.
    + apply session_update_versions.
  - cbn [Inbox.step]. unfold onUserMessage.
    destruct (drain_spec callback
                (pendingMessages (with_callback (Some callback) c))
                (with_callback (Some callback) c))
      as (_ & _ & _ & _ & -> & -> & -> & ->).
    simpl. repeat split; done || lia.
Qed.

Lemma metadataVersions_cons e es :
  metadataVersions (e :: es) = metadataVersions [e] ++ metadataVersions es.
Proof.
  unfold Inbox.metadataVersions. simpl.
  by destruct (match e with Update (Some (UpdateSession (Some (version, value)) _)) => _ | _ => None end).
Qed.

Lemma agentStateVersions_cons (e : Event (Blob := Blob)) es :
  agentStateVersions (e :: es)
  = agentStateVersions [e] ++ agentStateVersions es.
Proof.
  unfold agentStateVersions. simpl.
  by destruct (match e with Update (Some (UpdateSession _ (Some (version, _)))) => _ | _ => None end).
Qed.

Lemma run_metadataVersion es (c : Client) :
  metadataVersion (run es c)
  = foldl Z.max (metadataVersion c) (metadataVersions es).
Proof.
  revert c. induction es as [|e es IH]; intros c; [done|].
  change (run (e :: es) c) with (run es (step c e)).
  rewrite IH, metadataVersions_cons, foldl_app.
  by destruct (step_versions c e) as (-> & _).
Qed.

Lemma run_agentStateVersion es (c : Client) :
  agentStateVersion c ≤ agentStateVersion (run es c)
  ∧ agentStateVersion (run es c)
    ≤ foldl Z.max (agentStateVersion c) (agentStateVersions es).
Proof.
  revert c. induction es as [|e es IH]; intros c; [simpl; lia|].
  change (run (e :: es) c) with (run es (step c e)).
  destruct (IH (step c e)) as [IH1 IH2].
  destruct (step_versions c e) as (_ & H1 & H2 & _).
  split; [lia|]. rewrite agentStateVersions_cons, foldl_app.
  etrans; [exact IH2|]. by apply foldl_max_mono.
Qed.

(** X8.  The versions the client holds only grow.  After any run of
    events the version of the metadata is the largest of the one held
    before and those announced with a value that decrypts.  The version of
    the agent state is at least the one held before and at most the
    largest of it and those announced, and it is that largest one when
    every value of the run decrypts.  While a version stands the value
    held with it stands too.  Replaying an ['update-session'] changes
    nothing, and one whose metadata is newer but does not decrypt changes
    nothing at all: its agent state is dropped with it. *)
Theorem session_versions_only_grow es (c : Client) :
  metadataVersion (run es c)
  = foldl Z.max (metadataVersion c) (metadataVersions es)
  ∧ (agentStateVersion c ≤ agentStateVersion (run es c)
     ∧ agentStateVersion (run es c)
       ≤ foldl Z.max (agentStateVersion c) (agentStateVersions es))
  ∧ (forallb readable es = true →
     agentStateVersion (run es c)
     = foldl Z.max (agentStateVersion c) (agentStateVersions es))
  ∧ (metadataVersion (run es c) = metadataVersion c →
       metadata (run es c) = metadata c)
  ∧ (agentStateVersion (run es c) = agentStateVersion c →
       agentState (run es c) = agentState c)
  ∧ (∀ md st,
       onUpdate (Some (UpdateSession md st))
         (onUpdate (Some (UpdateSession md st)) c)
       = onUpdate (Some (UpdateSession md st)) c)
  ∧ (∀ version value st,
       version > metadataVersion c → decrypt value = None →
       onUpdate (Some (UpdateSession (Some (version, value)) st)) c = c).
Proof.
  split; [apply run_metadataVersion|].
  split; [apply run_agentStateVersion|].
  split; [|split; [|split; [|split]]].
  - revert c. induction es as [|e es IH]; intros c Hes; [done|].
    simpl in Hes. apply andb_true_iff in Hes as [He Hes].
    change (run (e :: es) c) with (run es (step c e)).
    rewrite IH, agentStateVersions_cons, foldl_app by done.
    destruct (step_versions c e) as (_ & _ & _ & Hv & _). by rewrite Hv.
  - revert c. induction es as [|e es IH]; intros c; [done|].
    change (run (e :: es) c) with (run es (step c e)). intros Heq.
    destruct (step_versions c e) as (Hv & _ & _ & _ & Hm & _).
    assert (metadataVersion (step c e) = metadataVersion c) as Hsame.
    { pose proof (foldl_max_le (metadataVersion c) (metadataVersions [e])).
      rewrite <- Hv in H.
      pose proof (run_metadataVersion es (step c e)) as Hrun.
      pose proof (foldl_max_le (metadataVersion (step c e))
                    (metadataVersions es)).
      lia. }
    rewrite <- (Hm Hsame). apply IH. congruence.
  - revert c. induction es as [|e es IH]; intros c; [done|].
    change (run (e :: es) c) with (run es (step c e)). intros Heq.
    destruct (step_versions c e) as (_ & Hlo & _ & _ & _ & Hm).
    assert (agentStateVersion (step c e) = agentStateVersion c) as Hsame.
    { destruct (run_agentStateVersion es (step c e)) as [Hrun _]. lia. }
    rewrite <- (Hm Hsame). apply IH. congruence.
  - intros md st. cbn [Inbox.onUpdate].
    unfold Inbox.metadataPart, Inbox.agentStatePart.
    destruct md as [[v b]|], st as [[v' [b'|]]|]; simpl;
      repeat first
        [ case_bool_decide
        | match goal with
          | |- context [decrypt ?x] => destruct (decrypt x) eqn:?
          | |- context [nonempty ?x] => destruct (nonempty x) eqn:?
          end
        | progress simpl in * ];
      simplify_eq; try done; try lia.
  - intros version value st Hv Hd. cbn [Inbox.onUpdate].
    unfold Inbox.metadataPart.
    by rewrite bool_decide_eq_true_2, Hd by done.
Qed.

End Client.
End InboxFacts.

(** ** RPC handlers: registration, scope and announcements *)

Module RpcFacts.
Import Rpc.
Section Manager.
Context {Plain Blob : Type}.
Variable encrypt : Plain -> Blob.
Variable decrypt : Blob -> Settlement (Plain := Plain).
Variable errorResponse : string -> Plain.

#[local] Abbreviation Manager := (Manager (Plain := Plain)).
#[local] Abbreviation create := (create (Plain := Plain)).
#[local] Abbreviation handleRequest := (handleRequest encrypt decrypt errorResponse).

Lemma prefix_append a b : String.prefix a (a +:+ b) = true.
Proof.
  induction a as [|x a IH]; [apply JsFacts.prefix_nil|].
  change (String x a +:+ b) with (String x (a +:+ b)).
  rewrite JsFacts.prefix_cons. by destruct (ascii_dec x x).
Qed.

Lemma get_is_Some_keys {V} k (m : list (string * V)) :
  is_Some (JsMap.get k m) ↔ k ∈ JsMap.keys m.
Proof.
  unfold JsMap.keys. induction m as [|[k' v] m IH]; simpl.
  - split; [by intros [? ?]|by intros ?%elem_of_nil].
  - destruct (decide (k' = k)) as [->|Hne].
    + split; [left|by eauto].
    + rewrite IH. split; [by right|]. by intros [?|?]%elem_of_cons.
Qed.

Lemma keys_set {V} k (v : V) (m : list (string * V)) :
  JsMap.keys (JsMap.set k v m)
  = if bool_decide (is_Some (JsMap.get k m)) then JsMap.keys m
    else JsMap.keys m ++ [k].
Proof.
  case_bool_decide as Hk.
  - by apply JsMapFacts.keys_set_present.
  - assert (JsMap.get k m = None) as Hn.
    { destruct (JsMap.get k m); [|done]. exfalso. by apply Hk. }
    rewrite (JsMapFacts.set_fresh _ _ _ Hn). unfold JsMap.keys.
    by rewrite fmap_app.
Qed.


Lemma scoped_apply (m : Manager) o : scoped m → scoped (apply m o).
Proof.
  unfold scoped. intros Hs. destruct o as [method handler|s| |]; simpl; try done.
  - intros k. rewrite keys_set. case_bool_decide; [by auto|].
    intros [Hk|Hk%list_elem_of_singleton]%elem_of_app; [by auto|].
    subst k. by exists method.
  - by intros k ?%elem_of_nil.
Qed.

Lemma scopePrefix_apply (m : Manager) o : scopePrefix (apply m o) = scopePrefix m.
Proof. by destruct o. Qed.

Lemma scoped_run os (m : Manager) :
  scoped m → scoped (run os m) ∧ scopePrefix (run os m) = scopePrefix m.
Proof.
  revert m. induction os as [|o os IH]; intros m Hs; [done|].
  change (run (o :: os) m) with (run os (apply m o)).
  destruct (IH _ (scoped_apply m o Hs)) as [H1 H2].
  split; [done|]. by rewrite H2, scopePrefix_apply.
Qed.

(** X10.  A manager answers only for its own scope: whatever has been
    registered, connected or cleared since it was created, a request whose
    method does not start with the scope prefix and a colon is answered
    with the encrypted error [Method not found]. *)
Theorem manager_answers_only_its_scope prefix os request :
  Js.startsWith (Rpc.method request) (prefix +:+ ":") = false →
  handleRequest request (run os (create prefix))
  = encrypt (errorResponse "Method not found").
Proof.
  intros Hp.
  assert (scoped (create prefix)) as Hs0
    by (by intros k ?%elem_of_nil).
  destruct (scoped_run os _ Hs0) as [Hs Hpre]. simpl in Hpre.
  assert (∀ method, prefix +:+ ":" +:+ method ≠ Rpc.method request) as Hne.
  { intros method Heq. rewrite <- Heq in Hp. unfold Js.startsWith in Hp.
    assert (prefix +:+ ":" +:+ method = (prefix +:+ ":") +:+ method) as Ha.
    { clear. induction prefix as [|x a IH]; [done|].
      change (String x a +:+ ":" +:+ method)
        with (String x (a +:+ ":" +:+ method)).
      by rewrite IH. }
    rewrite Ha, prefix_append in Hp. done. }
  unfold Rpc.handleRequest.
  destruct (JsMap.get (Rpc.method request) (handlers (run os (create prefix))))
    as [h|] eqn:Hg; [|done].
  exfalso.
  assert (Rpc.method request ∈ JsMap.keys (handlers (run os (create prefix))))
    as Hin by (apply get_is_Some_keys; by rewrite Hg).
  destruct (Hs _ Hin) as [method Hk]. unfold getPrefixedMethod in Hk.
  rewrite Hpre in Hk. by apply (Hne method).
Qed.

(** X11.  While a socket stays connected every handler of the manager has
    been announced on it since it connected: those registered before are
    announced at the connect, those registered later when they are
    registered.  Nothing is announced on another socket meanwhile. *)
Theorem handlers_announced_on_connection (m : Manager) s os :
  forallb keepsSocket os = true →
  let m' := run os (onSocketConnect s m) in
  socket m' = Some s
  ∧ ∃ announced,
      emitted m' = emitted m ++ announced
      ∧ (∀ k, k ∈ JsMap.keys (handlers m') → (s, k) ∈ announced)
      ∧ ∀ x, x ∈ announced → x.1 = s.
Proof.
  intros Hos m'. subst m'.
  assert (∀ m1 : Manager, ∀ ann0,
    socket m1 = Some s → emitted m1 = emitted m ++ ann0 →
    (∀ k, k ∈ JsMap.keys (handlers m1) → (s, k) ∈ ann0) →
    (∀ x, x ∈ ann0 → x.1 = s) →
    socket (run os m1) = Some s
    ∧ ∃ announced,
        emitted (run os m1) = emitted m ++ announced
        ∧ (∀ k, k ∈ JsMap.keys (handlers (run os m1)) → (s, k) ∈ announced)
        ∧ ∀ x, x ∈ announced → x.1 = s) as Hgen.
  { induction os as [|o os IH]; intros m1 ann0 Hsock Hem Hall Hon.
    - split; [done|]. by exists ann0.
    - simpl in Hos. apply andb_true_iff in Hos as [Ho Hos].
      change (run (o :: os) m1) with (run os (apply m1 o)).
      destruct o as [method handler|s'| |]; try done; simpl.
      + apply (IH Hos _ (ann0 ++ [(s, getPrefixedMethod m1 method)])).
        * done.
        * simpl. by rewrite Hsock, Hem, app_assoc.
        * simpl. intros k. rewrite keys_set, elem_of_app.
          case_bool_decide; [by auto|].
          intros [Hk|Hk%list_elem_of_singleton]%elem_of_app; [by auto|].
          subst k. right. by apply list_elem_of_singleton.
        * intros x [?|Hx%list_elem_of_singleton]%elem_of_app; [by auto|].
          by subst x.
      + apply (IH Hos _ ann0); try done. by intros k ?%elem_of_nil. }
  apply (Hgen _ ((fun k => (s, k)) <$> JsMap.keys (handlers m))).
  - done.
  - done.
  - simpl. intros k Hk. apply list_elem_of_fmap. by exists k.
  - intros x (k & -> & _)%list_elem_of_fmap. done.
Qed.

End Manager.
End RpcFacts.

(** ** Bundles and encodings: round trips *)

Module EncryptionFacts.
Import Encryption.

(** Writing [source] over the middle of [pre ++ mid ++ post]. *)
Lemma set_layout source pre mid post :
  length mid = length source →
  set source (length pre) (pre ++ mid ++ post) = Some (pre ++ source ++ post).
Proof.
  intros Hlen. unfold set. rewrite !length_app.
  rewrite bool_decide_eq_true_2 by lia.
  rewrite take_app_length. f_equal. f_equal. f_equal.
  rewrite drop_app_ge by (rewrite ?length_app; lia).
  replace (length pre + length source - length pre)%nat with (length mid) by lia.
  by rewrite drop_app_length.
Qed.

Lemma zeros_add n k : zeros (n + k) = zeros n ++ zeros k.
Proof. unfold zeros. apply replicate_add. Qed.

Lemma length_zeros n : length (zeros n) = n.
Proof. apply length_replicate. Qed.

Lemma slice_middle pre mid post :
  slice (length pre) (length pre + length mid) (pre ++ mid ++ post) = mid.
Proof.
  unfold slice. rewrite drop_app_length.
  replace (length pre + length mid - length pre)%nat with (length mid) by lia.
  apply take_app_length.
Qed.

Lemma sliceFrom_end pre post : sliceFrom (length pre) (pre ++ post) = post.
Proof. apply drop_app_length. Qed.

Section Cipher.
Context {Json : Type}.
Variable stringify : Json -> list Z.
Variable parse : list Z -> option Json.
Variable secretbox : list Z -> list Z -> list Z -> list Z.
Variable secretbox_open : list Z -> list Z -> list Z -> Opened.
Variable gcm : list Z -> list Z -> list Z -> list Z * list Z.
Variable gcm_open : list Z -> list Z -> list Z -> list Z -> option (list Z).

#[local] Abbreviation encrypt :=
  (encrypt stringify secretbox gcm).
#[local] Abbreviation decrypt :=
  (decrypt parse secretbox_open gcm_open).

Lemma legacy_layout nonce data secret :
  encryptLegacy stringify secretbox nonce data secret
  = Some (nonce ++ secretbox (stringify data) nonce secret).
Proof.
  unfold encryptLegacy. rewrite zeros_add.
  pose proof (set_layout nonce [] (zeros (length nonce))
                (zeros (length (secretbox (stringify data) nonce secret))))
    as H1.
  simpl in H1. rewrite H1 by apply length_zeros. simpl.
  pose proof (set_layout (secretbox (stringify data) nonce secret) nonce
                (zeros (length (secretbox (stringify data) nonce secret))) [])
    as H2.
  rewrite !app_nil_r in H2. by apply H2, length_zeros.
Qed.

Lemma dataKey_layout nonce data dataKey :
  length nonce = 12%nat →
  length (gcm dataKey nonce (stringify data)).2 = 16%nat →
  encryptWithDataKey stringify gcm nonce data dataKey
  = Some ([0] ++ nonce ++ (gcm dataKey nonce (stringify data)).1
            ++ (gcm dataKey nonce (stringify data)).2).
Proof.
  intros Hn Ht. unfold encryptWithDataKey.
  destruct (gcm dataKey nonce (stringify data)) as [encrypted authTag].
  cbn [fst snd] in *.
  replace (12 + length encrypted + 16 + 1)%nat
    with (1 + (12 + (length encrypted + 16)))%nat by lia.
  rewrite !zeros_add.
  pose proof (set_layout [0] [] (zeros 1)
                (zeros 12 ++ zeros (length encrypted) ++ zeros 16)) as H1.
  simpl length in H1. rewrite !app_nil_l in H1. rewrite H1 by (rewrite ?length_zeros; simpl; lia).
  cbn [mbind option_bind].
  pose proof (set_layout nonce [0] (zeros 12)
                (zeros (length encrypted) ++ zeros 16)) as H2.
  simpl length in H2. rewrite H2 by (rewrite ?length_zeros; simpl; lia).
  cbn [mbind option_bind].
  pose proof (set_layout encrypted ([0] ++ nonce) (zeros (length encrypted))
                (zeros 16)) as H3.
  rewrite length_app, Hn in H3. simpl length in H3.
  change (1 + 12)%nat with 13%nat in H3.
  rewrite <- !app_assoc in H3. rewrite H3 by (rewrite ?length_zeros; simpl; lia).
  cbn [mbind option_bind].
  pose proof (set_layout authTag ([0] ++ nonce ++ encrypted) (zeros 16) [])
    as H4.
  rewrite !length_app, Hn in H4. simpl length in H4.
  replace (1 + (12 + length encrypted))%nat with (13 + length encrypted)%nat
    in H4 by lia.
  rewrite <- !app_assoc, !app_nil_r in H4.
  by rewrite H4 by (rewrite ?length_zeros; simpl; lia).
Qed.

(** X12.  Decrypting what was encrypted gives the data back, for both
    variants: the bundle that [encrypt] lays out (for a data key: a zero
    byte, the nonce, the ciphertext and the tag; for the legacy variant:
    the nonce and the box) is taken apart by [decrypt] at the same
    offsets.  This needs a nonce of the variant's size, a tag of 16
    bytes, ciphers that open what they seal and a JSON text that parses
    back. *)
Theorem decrypt_encrypt_round_trip nonce key variant data :
  length nonce = nonceLength variant →
  (∀ k n p, length (gcm k n p).2 = 16%nat) →
  (∀ k n p, gcm_open k n (gcm k n p).2 (gcm k n p).1 = Some p) →
  (∀ k n p, secretbox_open (secretbox p n k) n k = Plaintext p) →
  (∀ d, parse (stringify d) = Some d) →
  ∃ bundle,
    encrypt nonce key variant data = Some bundle
    ∧ decrypt key variant bundle = Value data
    ∧ length bundle
      = match variant with
        | Legacy => (24 + length (secretbox (stringify data) nonce key))%nat
        | DataKey =>
            (29 + length (gcm key nonce (stringify data)).1)%nat
        end.
Proof.
  intros Hn Htag Hgcm Hbox Hjson. destruct variant; simpl in *.
  - eexists. split; [apply legacy_layout|]. split.
    + unfold decryptLegacy, slice, sliceFrom.
      rewrite drop_0, Nat.sub_0_r.
      rewrite <- Hn, take_app_length, drop_app_length.
      by rewrite Hbox, Hjson.
    + rewrite length_app. lia.
  - eexists. split; [by apply dataKey_layout|].
    specialize (Htag key nonce (stringify data)).
    specialize (Hgcm key nonce (stringify data)).
    destruct (gcm key nonce (stringify data)) as [encrypted authTag].
    simpl in *. split.
    + unfold decryptWithDataKey.
      assert (length (0 :: nonce ++ encrypted ++ authTag)
              = (29 + length encrypted)%nat) as Hlen.
      { simpl. rewrite !length_app. lia. }
      rewrite Hlen.
      rewrite bool_decide_eq_false_2 by lia.
      rewrite (bool_decide_eq_true_2 (_ !! 0%nat = Some 0)) by done.
      rewrite bool_decide_eq_false_2 by lia.
      cbn [negb].
      assert (slice 1 13 (0 :: nonce ++ encrypted ++ authTag) = nonce) as ->.
      { etrans; [|apply (slice_middle [0] nonce (encrypted ++ authTag))].
        simpl length. by rewrite Hn. }
      assert (sliceFrom (29 + length encrypted - 16)
                (0 :: nonce ++ encrypted ++ authTag) = authTag) as ->.
      { etrans; [|apply (sliceFrom_end (0 :: nonce ++ encrypted) authTag)].
        f_equal.
        - simpl. rewrite length_app. lia.
        - simpl. by rewrite <- app_assoc. }
      assert (slice 13 (29 + length encrypted - 16)
                (0 :: nonce ++ encrypted ++ authTag) = encrypted) as ->.
      { etrans; [|apply (slice_middle (0 :: nonce) encrypted authTag)].
        simpl length. f_equal; lia. }
      by rewrite Hgcm, Hjson.
    + simpl. rewrite !length_app. lia.
Qed.

End Cipher.

Lemma append_cons c s t : String c s +:+ t = String c (s +:+ t).
Proof. reflexivity. Qed.

Lemma append_nil t : "" +:+ t = t.
Proof. reflexivity. Qed.

Lemma eqb_false_ne (c a : ascii) : Ascii.eqb c a = false → c ≠ a.
Proof. intros H ->. by rewrite Ascii.eqb_refl in H. Qed.

(** The padding goes, and only the padding. *)
Lemma toBase64Url_padding n :
  toBase64Url (repeat "=" n) = "".
Proof. induction n as [|n IH]; [done|]. exact IH. Qed.

Lemma toBase64Url_cons c s :
  Ascii.eqb c "=" = false →
  toBase64Url (String c s)
  = String (if Ascii.eqb (if Ascii.eqb c "+" then "-"%char else c) "/"
            then "_"%char
            else if Ascii.eqb c "+" then "-"%char else c)
      (toBase64Url s).
Proof.
  intros Hc. unfold toBase64Url. cbn [replaceAll removeAll].
  destruct (Ascii.eqb c "+") eqn:Hplus.
  - apply Ascii.eqb_eq in Hplus. by subst c.
  - destruct (Ascii.eqb c "/") eqn:Hslash.
    + apply Ascii.eqb_eq in Hslash. by subst c.
    + by rewrite Hc.
Qed.

Lemma toBase64Url_body body n :
  plain body = true →
  String.length (toBase64Url (body +:+ repeat "=" n)) = String.length body
  ∧ replaceAll "_" "/" (replaceAll "-" "+" (toBase64Url (body +:+ repeat "=" n)))
    = body.
Proof.
  induction body as [|c body IH]; intros Hp.
  - rewrite append_nil, toBase64Url_padding. done.
  - cbn [plain] in Hp. rewrite !andb_true_iff, !negb_true_iff in Hp.
    destruct Hp as (((Heq & Hminus) & Hunder) & Hp).
    destruct (IH Hp) as [IHl IHr].
    rewrite append_cons, (toBase64Url_cons _ _ Heq).
    cbn [String.length replaceAll]. rewrite IHl, IHr. split; [done|].
    f_equal.
    destruct (Ascii.eqb c "+") eqn:Hplus.
    + apply Ascii.eqb_eq in Hplus. by subst c.
    + destruct (Ascii.eqb c "/") eqn:Hslash.
      * apply Ascii.eqb_eq in Hslash. by subst c.
      * by rewrite Hminus, Hunder.
Qed.

Lemma padding_count len n :
  (n < 4)%nat → ((len + n) mod 4 = 0)%nat → ((4 - len mod 4) mod 4 = n)%nat.
Proof.
  intros Hn Hm.
  pose proof (Nat.mod_upper_bound len 4 ltac:(done)) as Hr.
  rewrite <- Nat.Div0.add_mod_idemp_l in Hm.
  destruct (len mod 4)%nat as [|[|[|[|r]]]]; [| | | |lia];
    destruct n as [|[|[|[|n]]]]; try lia;
    vm_compute in Hm |- *; congruence.
Qed.

(** X13.  The URL-safe text decodes as the standard one: for a base64
    text made of a body without padding or URL-safe signs and of up to
    three padding signs that fill it to a multiple of four, the text that
    [decodeBase64] rebuilds from what [encodeBase64Url] made of it is the
    text itself, padding included. *)
Theorem base64url_restores_the_padding body n :
  plain body = true →
  (n < 4)%nat →
  ((String.length body + n) mod 4 = 0)%nat →
  base64Standard (toBase64Url (body +:+ repeat "=" n)) = body +:+ repeat "=" n.
Proof.
  intros Hp Hn Hm. unfold base64Standard.
  destruct (toBase64Url_body body n Hp) as [-> ->].
  by rewrite (padding_count _ _ Hn Hm).
Qed.

End EncryptionFacts.

(** ** Permission requests: tool call ids and the agent state *)

Module PermissionFacts.
Import Permission.

#[local] Set Warnings "-clear-no-such-hyp".
Section Handler.
Context {I : Type} `{EqDecision I}.

#[local] Abbreviation ToolCall := (ToolCall (I := I)).
#[local] Abbreviation AgentState := (AgentState (I := I)).
#[local] Abbreviation Mutation := (Mutation (I := I)).

(** Does [call] carry this name and input? *)
#[local] Abbreviation fitting name0 args call :=
  (name call = name0 ∧ input call = args).

Lemma resolveFrom_spec name0 args (recent : list ToolCall) :
  match resolveFrom name0 args recent with
  | (Some id0, recent') =>
      ∃ pre call post,
        recent = pre ++ call :: post
        ∧ Forall (fun c => ¬ fitting name0 args c) pre
        ∧ fitting name0 args call ∧ used call = false ∧ id call = id0
        ∧ recent' = pre ++ markUsed call :: post
  | (None, recent') => recent' = recent
  end.
Proof.
  induction recent as [|call older IH]; simpl; [done|].
  destruct (bool_decide (name call = name0) && bool_decide (input call = args))
    eqn:Hfit.
  - apply andb_true_iff in Hfit as [Hn%bool_decide_eq_true Hi%bool_decide_eq_true].
    destruct (used call) eqn:Hu; [done|].
    exists [], call, older. by repeat split.
  - destruct (resolveFrom name0 args older) as [[id0|] older']; [|by subst].
    destruct IH as (pre & c & post & -> & Hpre & Hc & Hu & Hid & ->).
    exists (call :: pre), c, post. repeat split; try done; try apply Hc.
    apply Forall_cons. split; [|done]. intros [Hn Hi].
    by rewrite !bool_decide_eq_true_2 in Hfit.
Qed.

Lemma resolveFrom_again name0 args (recent : list ToolCall) :
  resolveFrom name0 args (resolveFrom name0 args recent).2
  = (None, (resolveFrom name0 args recent).2).
Proof.
  induction recent as [|call older IH]; simpl; [done|].
  destruct (bool_decide (name call = name0) && bool_decide (input call = args))
    eqn:Hfit.
  - destruct (used call) eqn:Hu; simpl.
    + by rewrite Hfit, Hu.
    + by rewrite Hfit.
  - destruct (resolveFrom name0 args older) as [found older'] eqn:Hr.
    simpl in *. by rewrite Hfit, IH.
Qed.

Lemma resolve_shape name0 args (toolCalls : list ToolCall) :
  match (resolveToolCallId name0 args toolCalls).1 with
  | Some id0 =>
      ∃ older call newer,
        toolCalls = older ++ call :: newer
        ∧ Forall (fun c => ¬ fitting name0 args c) newer
        ∧ fitting name0 args call ∧ used call = false ∧ id call = id0
        ∧ (resolveToolCallId name0 args toolCalls).2
          = older ++ markUsed call :: newer
  | None => (resolveToolCallId name0 args toolCalls).2 = toolCalls
  end.
Proof.
  unfold resolveToolCallId.
  pose proof (resolveFrom_spec name0 args (rev toolCalls)) as Hspec.
  destruct (resolveFrom name0 args (rev toolCalls)) as [found recent'].
  simpl in *. destruct found as [id0|].
  - destruct Hspec as (pre & call & post & Hrev & Hpre & Hc & Hu & Hid & ->).
    exists (rev post), call, (rev pre).
    assert (toolCalls = rev post ++ call :: rev pre) as ->.
    { rewrite <- (rev_involutive toolCalls), Hrev.
      rewrite rev_app_distr. simpl. by rewrite <- app_assoc. }
    split; [done|]. split; [by apply Forall_rev|].
    split; [done|]. split; [done|]. split; [done|].
    rewrite rev_app_distr. simpl. by rewrite <- app_assoc.
  - subst recent'. apply rev_involutive.
Qed.

(** X14.  A tool call id is handed out at most once.  When
    [resolveToolCallId] finds an id, it is the id of the most recent call
    with this name and input, that call was not used, and it is used
    afterwards while nothing else changes; when it finds none, nothing
    changes.  Asking again for the same name and input right away finds
    nothing, even when an older call with them is still unused. *)
Theorem tool_call_id_is_handed_out_once name0 args (toolCalls : list ToolCall) :
  match (resolveToolCallId name0 args toolCalls).1 with
  | Some id0 =>
      ∃ older call newer,
        toolCalls = older ++ call :: newer
        ∧ Forall (fun c => ¬ fitting name0 args c) newer
        ∧ fitting name0 args call ∧ used call = false ∧ id call = id0
        ∧ (resolveToolCallId name0 args toolCalls).2
          = older ++ markUsed call :: newer
  | None => (resolveToolCallId name0 args toolCalls).2 = toolCalls
  end
  ∧ resolveToolCallId name0 args (resolveToolCallId name0 args toolCalls).2
    = (None, (resolveToolCallId name0 args toolCalls).2).
Proof.
  split; [apply resolve_shape|].
  unfold resolveToolCallId.
  pose proof (resolveFrom_again name0 args (rev toolCalls)) as Hagain.
  destruct (resolveFrom name0 args (rev toolCalls)) as [found recent'].
  simpl in *. by rewrite rev_involutive, Hagain.
Qed.

(** The same call, possibly used by now. *)
#[local] Abbreviation later a b :=
  (id b = id a ∧ name b = name a ∧ input b = input a
   ∧ (used a = true → used b = true)).

(** Every call of [l] is still at its place in [l']. *)
#[local] Abbreviation kept l l' :=
  (∀ (i : nat) (call : ToolCall), l !! i = Some call →
     ∃ call' : ToolCall, l' !! i = Some call' ∧ later call call').

Lemma kept_refl (l : list ToolCall) : kept l l.
Proof. intros i call Hi. by exists call. Qed.

Lemma kept_trans (l1 l2 l3 : list ToolCall) : kept l1 l2 → kept l2 l3 → kept l1 l3.
Proof.
  intros H12 H23 i call Hi.
  destruct (H12 i call Hi) as (c2 & H2 & E1 & E2 & E3 & E4).
  destruct (H23 i c2 H2) as (c3 & H3 & F1 & F2 & F3 & F4).
  exists c3. split; [done|]. repeat split; try congruence. auto.
Qed.

Lemma markFirst_kept id0 (l : list ToolCall) : kept l (markFirst id0 l).
Proof.
  induction l as [|c rest IH]; intros i call Hi; simpl; [done|].
  case_bool_decide.
  - destruct i as [|i]; simpl in *; [|by exists call].
    injection Hi as ->. destruct (used call) eqn:Hu; [by exists call|].
    by exists (markUsed call).
  - destruct i as [|i]; simpl in *; [by exists call|]. by apply IH.
Qed.

Lemma resolve_kept name0 args (l : list ToolCall) :
  kept l (resolveToolCallId name0 args l).2.
Proof.
  pose proof (resolve_shape name0 args l) as H.
  destruct (resolveToolCallId name0 args l).1 as [id0|].
  - destruct H as (older & c & newer & -> & _ & _ & _ & _ & ->).
    intros i call Hi.
    destruct (decide (i < length older)%nat) as [Hlt|Hge].
    + rewrite lookup_app_l in Hi |- * by done. by exists call.
    + rewrite lookup_app_r in Hi |- * by lia.
      destruct (i - length older)%nat as [|j]; simpl in *; [|by exists call].
      injection Hi as ->. by exists (markUsed call).
  - rewrite H. apply kept_refl.
Qed.

Lemma apply_kept (l : list ToolCall) o : kept l (apply l o).
Proof.
  destruct o as [[content|content|]|name0 args]; simpl.
  - destruct content as [content|]; [|apply kept_refl].
    revert l. induction content as [|block content IH]; intros l; simpl;
      [apply kept_refl|].
    eapply kept_trans; [|apply IH].
    destruct block; try apply kept_refl.
    intros i call Hi. exists call. by rewrite (lookup_app_l_Some _ _ _ _ Hi).
  - destruct content as [content|]; [|apply kept_refl].
    revert l. induction content as [|block content IH]; intros l; simpl;
      [apply kept_refl|].
    eapply kept_trans; [|apply IH].
    destruct block as [| [id0|] |]; try apply kept_refl.
    apply markFirst_kept.
  - apply kept_refl.
  - apply resolve_kept.
Qed.

(** X15.  The record of tool calls is only ever extended: whatever
    messages arrive and whatever is resolved, a call stays at its place
    with its id, name and input, and once it is used it stays used. *)
Theorem tool_calls_are_kept os (toolCalls : list ToolCall) i call :
  toolCalls !! i = Some call →
  ∃ call', run os toolCalls !! i = Some call'
    ∧ id call' = id call ∧ name call' = name call ∧ input call' = input call
    ∧ (used call = true → used call' = true).
Proof.
  revert toolCalls call. induction os as [|o os IH]; intros l call Hi.
  - by exists call.
  - change (run (o :: os) l) with (run os (apply l o)).
    destruct (apply_kept l o i call Hi) as (c1 & H1 & E1 & E2 & E3 & E4).
    destruct (IH _ _ H1) as (c2 & H2 & F1 & F2 & F3 & F4).
    exists c2. split; [done|]. repeat split; try congruence. auto.
Qed.

(** *** The agent state *)

Lemma reset_completed now (pendingRequests : gmap string (Request (I := I)))
    (completed0 : gmap string Completed) :
  map_fold (fun id0 request acc => <[id0 := canceled now request]> acc)
    completed0 pendingRequests
  = (canceled now <$> pendingRequests) ∪ completed0.
Proof.
  apply (map_fold_weak_ind
           (fun acc m => acc = (canceled now <$> m) ∪ completed0)).
  - by rewrite fmap_empty, (left_id_L ∅ (∪)).
  - intros id0 request m acc Hm ->.
    by rewrite fmap_insert, insert_union_l.
Qed.

Lemma known_mutate (s : AgentState) m :
  known (mutate s m)
  = known s ∪ match m with
              | Ask id0 _ _ _ => {[ id0 ]}
              | _ => ∅
              end
  ∧ dom (default ∅ (completedRequests s))
    ⊆ dom (default ∅ (completedRequests (mutate s m))).
Proof.
  unfold known. destruct m as [id0 toolName input0 now|message now|now]; simpl.
  - rewrite dom_insert_L. split; set_solver.
  - unfold completed.
    destruct (requests s ≫= (.!! r_id message)) as [request|] eqn:Hr;
      [|split; set_solver].
    simpl. destruct (requests s) as [rs|]; [|done]. simpl in *.
    rewrite dom_delete_L, dom_insert_L.
    assert (r_id message ∈ dom rs) as Hin by (by apply elem_of_dom; eexists).
    split; [|set_solver].
    apply set_eq. intros x. destruct (decide (x = r_id message)); set_solver.
  - rewrite reset_completed, dom_union_L, dom_fmap_L, dom_empty_L.
    split; set_solver.
Qed.

(** X16.  No request is lost from the agent state: after any run of the
    handler's mutators the ids it knows, pending or completed, are those
    it knew before and those asked about since, and an id that is
    completed stays completed. *)
Theorem no_request_is_lost ms (s : AgentState) :
  known (mutations ms s) = known s ∪ asked ms
  ∧ dom (default ∅ (completedRequests s))
    ⊆ dom (default ∅ (completedRequests (mutations ms s))).
Proof.
  revert s. induction ms as [|m ms IH]; intros s.
  - unfold asked. simpl. split; set_solver.
  - change (mutations (m :: ms) s) with (mutations ms (mutate s m)).
    destruct (IH (mutate s m)) as [IH1 IH2].
    destruct (known_mutate s m) as [H1 H2].
    rewrite IH1, H1. split; [|set_solver].
    unfold asked. destruct m; simpl; set_solver.
Qed.

(** X17.  Asking and answering is a round trip: the request leaves the
    pending ones, and it stands among the completed ones with the tool,
    the arguments and the time of the request, the time of the answer,
    the status [approved] or [denied] and what else the answer said.  No
    other completed request changes, and the same answer once more
    changes nothing. *)
Theorem answered_request_is_completed toolName input0 asked_at message
    answered_at again (s : AgentState) :
  let s' := completed message answered_at
              (requested (r_id message) toolName input0 asked_at s) in
  requests s' = Some (delete (r_id message) (default ∅ (requests s)))
  ∧ default ∅ (completedRequests s') !! r_id message
    = Some {| c_tool := toolName; c_arguments := input0;
              c_createdAt := asked_at; completedAt := answered_at;
              status := if approved message then Approved else Denied;
              reason := r_reason message; mode := r_mode message;
              allowTools := r_allowTools message |}
  ∧ (∀ other, other ≠ r_id message →
       default ∅ (completedRequests s') !! other
       = default ∅ (completedRequests s) !! other)
  ∧ completed message again s' = s'.
Proof.
  intros s'. subst s'. unfold completed at 1 2 3. simpl.
  rewrite lookup_insert_eq. simpl.
  rewrite delete_insert_eq, lookup_insert_eq.
  split; [done|]. split; [done|].
  split; [intros other Hne; by rewrite lookup_insert_ne|].
  unfold completed. simpl. rewrite lookup_insert_eq. simpl.
  by rewrite delete_insert_eq, lookup_delete_eq.
Qed.

(** X18.  A reset cancels every pending request and nothing else: no
    request is pending afterwards, each one that was stands among the
    completed ones as canceled at the time of the reset (replacing what
    was completed under its id), the other completed requests stay, and
    neither a second reset nor an answer that comes late changes the
    agent state again. *)
Theorem reset_cancels_the_pending now again message (s : AgentState) :
  requests (reset now s) = Some ∅
  ∧ (∀ id0 request,
       default ∅ (requests s) !! id0 = Some request →
       default ∅ (completedRequests (reset now s)) !! id0
       = Some (canceled now request))
  ∧ (∀ id0,
       default ∅ (requests s) !! id0 = None →
       default ∅ (completedRequests (reset now s)) !! id0
       = default ∅ (completedRequests s) !! id0)
  ∧ reset again (reset now s) = reset now s
  ∧ completed message again (reset now s) = reset now s.
Proof.
  unfold reset. simpl. rewrite !reset_completed.
  split; [done|]. split.
  { intros id0 request Hr. apply lookup_union_Some_l.
    by rewrite lookup_fmap, Hr. }
  split.
  { intros id0 Hr. apply lookup_union_r. by rewrite lookup_fmap, Hr. }
  split.
  - by rewrite fmap_empty, (left_id_L ∅ (∪)).
  - unfold completed. simpl. by rewrite lookup_empty.
Qed.

End Handler.
End PermissionFacts.

(** ** Startup outcomes and the heartbeat *)

Module PulseFacts.
Import Lifecycle Pulse.

(** X19.  [startDaemon] ends in one of three ways.  It waits for a
    shutdown request, and then the lock marker names this process and the
    state file holds its record, without a heartbeat yet.  Or it exits
    with code 0, and then it has not written the state.  Or it exits with
    code 1, and then the lock it took still names it.  The last call it
    makes before an exit is that exit. *)
Theorem start_ends_in_one_of_three_ways s h :
  ∃ new, calls (startDaemon s h).1 = calls h ++ new
  ∧ match (startDaemon s h).2 with
    | AwaitingShutdown =>
        lockFile (startDaemon s h).1 = Some (selfPid s)
        ∧ ∃ port, controlPort s = Some port
            ∧ stateFile (startDaemon s h).1
              = Some {| pid := selfPid s; httpPort := port;
                        startTime := now s;
                        startedWithCliVersion := currentCliVersion s;
                        lastHeartbeat := None;
                        daemonLogPath := logFilePath s |}
    | Exited code =>
        last new = Some (ProcessExit code)
        ∧ ((code = 0 ∧ ∀ w, WriteDaemonState w ∉ new)
           ∨ (code = 1 ∧ lockFile (startDaemon s h).1 = Some (selfPid s)))
    end.
Proof.
  unfold startDaemon.
  destruct (isDaemonRunningCurrentlyInstalledHappyVersion s
              (call CheckRunningVersion (call InstallHandlers h))) eqn:Hv;
    simpl.
  - eexists. rewrite <- !app_assoc. split; [done|]. simpl.
    split; [done|]. left. split; [done|]. intros w Hin.
    repeat (apply elem_of_cons in Hin as [?|Hin]; [done|]).
    by apply elem_of_nil in Hin.
  - set (h2 := stopDaemon (call StopDaemon
                 (call CheckRunningVersion (call InstallHandlers h)))).
    assert (calls h2 = calls h ++ [InstallHandlers; CheckRunningVersion; StopDaemon])
      as Hc2.
    { unfold h2, stopDaemon. simpl.
      destruct (stateFile h); simpl; by rewrite <- !app_assoc. }
    unfold acquireDaemonLock. simpl.
    destruct (lockFile h2) as [q|] eqn:Hl; simpl.
    + eexists. rewrite Hc2, <- !app_assoc. split; [done|]. simpl.
      split; [done|]. left. split; [done|]. intros w Hin.
      repeat (apply elem_of_cons in Hin as [?|Hin]; [done|]).
      by apply elem_of_nil in Hin.
    + unfold startup. simpl.
      destruct (authThrows s); simpl.
      { eexists. rewrite Hc2, <- !app_assoc. split; [done|]. simpl.
        split; [done|]. by right. }
      destruct (controlPort s) as [port|]; simpl.
      2:{ eexists. rewrite Hc2, <- !app_assoc. split; [done|]. simpl.
          split; [done|]. by right. }
      destruct (registerThrows s); simpl.
      { eexists. rewrite Hc2, <- !app_assoc. split; [done|]. simpl.
        split; [done|]. by right. }
      eexists. rewrite Hc2, <- !app_assoc. split; [done|]. simpl.
      split; [done|]. by exists port.
Qed.

(** What a calm course keeps true of the running daemon. *)
Lemma calm_meet s st beat r i :
  calm s i = true →
  exited r = None → heartbeatRunning r = false → intervalSet r = true →
  handingOver r = false → shutdownRequested r = None →
  fileState r = st →
  stateFile (host r) = Some (stamped s st beat) →
  let r' := meet s r i in
  exited r' = None ∧ heartbeatRunning r' = false ∧ intervalSet r' = true
  ∧ handingOver r' = false ∧ shutdownRequested r' = None
  ∧ fileState r' = st
  ∧ lockFile (host r') = lockFile (host r)
  ∧ stateFile (host r')
    = Some (stamped s st
              (match lastWrite s [i] with Some t => Some t | None => beat end)).
Proof.
  intros Hcalm Hex Hrun Hint Hho Hreq Hfs Hst r'. subst r'. unfold meet.
  rewrite Hex.
  destruct i as [b|st'|]; simpl in Hcalm; [| done |].
  - apply bool_decide_eq_true in Hcalm. rewrite Hint, Hreq. simpl.
    unfold heartbeat, lastWrite. rewrite Hrun. simpl.
    rewrite (bool_decide_eq_true_2 _ Hcalm). simpl.
    rewrite Hst. simpl.
    rewrite (bool_decide_eq_true_2 (selfPid s = selfPid s)) by done.
    simpl. repeat split; try done.
    + by destruct (writeThrows b).
    + destruct (writeThrows b); simpl; [done|].
      unfold stamped, updatedState. by rewrite Hfs.
  - unfold graceOver. rewrite Hho. by repeat split.
Qed.

Lemma lastWrite_cons s i incidents :
  lastWrite s (i :: incidents)
  = match lastWrite s incidents with
    | Some t => Some t
    | None => lastWrite s [i]
    end.
Proof.
  unfold lastWrite. simpl.
  destruct i as [b| |]; simpl.
  - destruct (bool_decide (projectVersion b = currentCliVersion s)
              && negb (writeThrows b)); simpl;
      rewrite ?last_cons; by destruct (last _).
  - by destruct (last _).
  - by destruct (last _).
Qed.

Lemma calm_course s st incidents : ∀ beat r,
  forallb (calm s) incidents = true →
  exited r = None → heartbeatRunning r = false → intervalSet r = true →
  handingOver r = false → shutdownRequested r = None →
  fileState r = st →
  stateFile (host r) = Some (stamped s st beat) →
  let r' := course s incidents r in
  exited r' = None ∧ heartbeatRunning r' = false ∧ intervalSet r' = true
  ∧ shutdownRequested r' = None
  ∧ lockFile (host r') = lockFile (host r)
  ∧ stateFile (host r')
    = Some (stamped s st
              (match lastWrite s incidents with
               | Some t => Some t
               | None => beat
               end)).
Proof.
  induction incidents as [|i incidents IH];
    intros beat r Hcalm Hex Hrun Hint Hho Hreq Hfs Hst.
  - simpl. by repeat split.
  - simpl in Hcalm. apply andb_true_iff in Hcalm as [Hi Hcalm].
    destruct (calm_meet s st beat r i Hi Hex Hrun Hint Hho Hreq Hfs Hst)
      as (H1 & H2 & H3 & H4 & H5 & H6 & H7 & H8).
    destruct (IH _ _ Hcalm H1 H2 H3 H4 H5 H6 H8)
      as (I1 & I2 & I3 & I4 & I5 & I6).
    change (course s (i :: incidents) r) with (course s incidents (meet s r i)).
    cbv zeta. split; [done|]. split; [done|]. split; [done|].
    split; [done|]. split; [congruence|].
    rewrite I6, (lastWrite_cons s i incidents).
    by destruct (lastWrite s incidents).
Qed.

(** X20.  The heartbeat keeps the record written at startup.  When
    [startDaemon] has come to wait, then after any course of ticks that
    find this version on disk, with nobody else writing the state file,
    the file still holds this daemon's pid, port, start time, version and
    log path; its heartbeat is the time of the last tick that could
    write.  The lock is still held, the process has not exited, and no
    tick has asked for a shutdown. *)
Theorem heartbeat_keeps_the_startup_record s h incidents :
  (startDaemon s h).2 = AwaitingShutdown →
  forallb (calm s) incidents = true →
  ∃ st, stateFile (startDaemon s h).1 = Some st
    ∧ let r := course s incidents (begin (startDaemon s h).1 st) in
      stateFile (host r)
      = Some {| pid := selfPid s; httpPort := httpPort st;
                startTime := now s;
                startedWithCliVersion := currentCliVersion s;
                lastHeartbeat := lastWrite s incidents;
                daemonLogPath := logFilePath s |}
      ∧ lockFile (host r) = Some (selfPid s)
      ∧ exited r = None
      ∧ shutdownRequested r = None.
Proof.
  intros Hwait Hcalm.
  assert (lockFile (startDaemon s h).1 = Some (selfPid s)
          ∧ ∃ port, stateFile (startDaemon s h).1
              = Some {| pid := selfPid s; httpPort := port;
                        startTime := now s;
                        startedWithCliVersion := currentCliVersion s;
                        lastHeartbeat := None;
                        daemonLogPath := logFilePath s |}) as [Hlock [port Hst]].
  { revert Hwait. unfold startDaemon.
    destruct (isDaemonRunningCurrentlyInstalledHappyVersion s _); simpl; [done|].
    unfold acquireDaemonLock. simpl.
    destruct (lockFile (stopDaemon _)); simpl; [done|].
    unfold startup. simpl.
    destruct (authThrows s); simpl; [done|].
    destruct (controlPort s) as [port|]; simpl; [|done].
    destruct (registerThrows s); simpl; [done|].
    intros _. split; [done|]. by exists port. }
  eexists. split; [exact Hst|].
  match goal with |- context [begin _ ?st0] => set (st := st0) end.
  destruct (calm_course s st incidents None (begin (startDaemon s h).1 st)
              Hcalm eq_refl eq_refl eq_refl eq_refl eq_refl eq_refl)
    as (H1 & _ & _ & H4 & H5 & H6).
  { simpl. by rewrite Hst. }
  cbv zeta. rewrite H6, H5. simpl. split.
  { unfold stamped. simpl. by destruct (lastWrite s incidents). }
  by repeat split.
Qed.


(** X22.  A daemon that finds another version on disk hands over: it
    clears the interval and starts a new daemon, without a shutdown
    request and without touching the state file or the lock.  No tick
    runs any more, and when the idle wait is over it exits with code 0,
    the state file and the lock still as they were. *)
Theorem outdated_daemon_hands_over s b r incidents :
  exited r = None →
  heartbeatRunning r = false →
  projectVersion b ≠ currentCliVersion s →
  forallb isTick incidents = true →
  let r' := heartbeat s b r in
  intervalSet r' = false
  ∧ daemonStarts r' = S (daemonStarts r)
  ∧ shutdownRequested r' = shutdownRequested r
  ∧ host r' = host r
  ∧ exited r' = None
  ∧ course s incidents r' = r'
  ∧ exited (meet s r' GraceOver) = Some 0
  ∧ stateFile (host (meet s r' GraceOver)) = stateFile (host r)
  ∧ lockFile (host (meet s r' GraceOver)) = lockFile (host r)
  ∧ calls (host (meet s r' GraceOver)) = calls (host r) ++ [ProcessExit 0].
Proof.
  intros Hex Hrun Hv Hticks r'.
  assert (intervalSet r' = false ∧ daemonStarts r' = S (daemonStarts r)
          ∧ shutdownRequested r' = shutdownRequested r ∧ host r' = host r
          ∧ exited r' = None ∧ handingOver r' = true)
    as (Hint & Hstarts & Hreq & Hhost & Hex' & Hho).
  { subst r'. unfold heartbeat.
    rewrite Hrun, (bool_decide_eq_false_2 _ Hv). by simpl. }
  split; [done|]. split; [done|]. split; [done|]. split; [done|].
  split; [done|]. split.
  - clearbody r'. induction incidents as [|i incidents IH]; [done|].
    simpl in Hticks. apply andb_true_iff in Hticks as [Hi Hticks].
    destruct i as [b'| |]; try done.
    change (course s (Tick b' :: incidents) r')
      with (course s incidents (meet s r' (Tick b'))).
    assert (meet s r' (Tick b') = r') as ->; [|by apply IH].
    unfold meet. by rewrite Hex', Hint.
  - unfold meet, graceOver. rewrite Hex', Hho. simpl. by rewrite Hhost.
Qed.

End PulseFacts.

(** ** The properties at work on the sample runs *)

Module Episodes.
Import Daemon Heartbeat.

(** After the busy stretch the registry lists child 7 and child 8, each
    once and under its own pid. *)
Lemma registry_stays_keyed_witness :
  keyed Sample.fresh = true
  ∧ keyed (history Episode.busy Sample.fresh) = true
  ∧ pid <$> getCurrentChildren (history Episode.busy Sample.fresh) = [7; 8].
Proof.
  split; [reflexivity|].
  destruct (RegistryFacts.registry_stays_keyed Episode.busy Sample.fresh
              eq_refl) as (Hk & _ & _).
  split; [exact Hk|]. vm_compute. reflexivity.
Defined.

(** The caller of the spawn has its session id; the timer, the exit of the
    child, a sweep and a second report do not take it back. *)
Lemma spawn_result_is_final_witness :
  outcome 0 Episode.reportedSpawn = Some (Success (Some "s-1"))
  ∧ outcome 0 (history Episode.aftermath Episode.reportedSpawn)
    = Some (Success (Some "s-1")).
Proof.
  split; [reflexivity|].
  apply (PromiseFacts.spawn_result_is_final Episode.aftermath 0
           (Success (Some "s-1")) Episode.reportedSpawn).
  reflexivity.
Defined.

(** The child exits before it reports itself: the call ends with the
    timeout error when the timer fires. *)
Lemma spawn_call_ends_witness :
  orderly (Sample.spawnedInto 4242 Sample.fresh) = true
  ∧ spawnPromises (Sample.spawnedInto 4242 Sample.fresh) !! 0%nat
    = Some (pending 4242)
  ∧ ∃ pr,
      spawnPromises
        (history Episode.earlyExit (Sample.spawnedInto 4242 Sample.fresh))
        !! 0%nat = Some pr
      ∧ outcome 0
          (fireTimeout 0
             (history Episode.earlyExit (Sample.spawnedInto 4242 Sample.fresh)))
        = Some (default (Error (timeoutMessage 4242)) (settled pr)).
Proof.
  split; [reflexivity|]. split; [reflexivity|].
  destruct (PromiseFacts.spawn_call_ends Episode.earlyExit 0 (pending 4242)
              (Sample.spawnedInto 4242 Sample.fresh) eq_refl eq_refl)
    as (_ & pr & Hpr & _ & Hout & _).
  exists pr. split; [exact Hpr|exact Hout].
Defined.

(** Stopping session [a] after the busy stretch sends SIGTERM to the
    process whose entry goes. *)
Lemma stop_signals_the_removed_process_witness :
  keyed Sample.fresh = true
  ∧ (stopSession false "a" (history Episode.busy Sample.fresh)).1 = true
  ∧ ∃ p,
      lastSignal (stopSession false "a" (history Episode.busy Sample.fresh)).2
      = Some (p, "SIGTERM")
      ∧ JsMap.get p
          (pidToTrackedSession
             (stopSession false "a" (history Episode.busy Sample.fresh)).2)
        = None.
Proof.
  split; [reflexivity|]. split; [reflexivity|].
  destruct (SignalFacts.stop_signals_the_removed_process Episode.busy false
              "a" Sample.fresh eq_refl) as (Hfound & _).
  destruct (Hfound eq_refl) as (p & s & _ & _ & _ & Hsig & Hgone & _).
  exists p. split; [exact Hsig|exact Hgone].
Defined.

(** Child 4242 is stopped as [PID-4242] before it has reported itself. *)
Lemma stop_by_pid_before_report_witness :
  consistent Sample.fresh = true
  ∧ 0 < 4242
  ∧ Js.toDouble 4242 = Some 4242
  ∧ (stopSession false ("PID-" +:+ Js.toString 4242)
       (Sample.spawnedInto 4242 Sample.fresh)).1 = true.
Proof.
  split; [reflexivity|]. split; [lia|]. split; [reflexivity|].
  destruct (SignalFacts.stop_by_pid_before_report (Sample.os (Some 4242))
              (Sample.options "/tmp" None) false Sample.fresh
              (Sample.spawnedInto 4242 Sample.fresh) 0%nat 4242
              eq_refl ltac:(lia) eq_refl eq_refl eq_refl eq_refl) as (Ht & _).
  exact Ht.
Defined.

(** Two messages wait for the listener and one finds it there: callback 1
    gets all three, in the order of their arrival. *)
Lemma user_messages_once_in_order_witness :
  Inbox.settledQueue Episode.inbox = true
  ∧ Inbox.pendingMessages
      (Inbox.run Episode.unseal Episode.safeParse Some Some Episode.nonempty
         Episode.traffic Episode.inbox) = []
  ∧ snd <$> Inbox.delivered
              (Inbox.run Episode.unseal Episode.safeParse Some Some
                 Episode.nonempty Episode.traffic Episode.inbox)
    = ["user:one"; "user:two"; "user:three"].
Proof.
  split; [reflexivity|].
  destruct (InboxFacts.user_messages_once_in_order Episode.unseal
              Episode.safeParse Some Some Episode.nonempty Episode.traffic
              Episode.inbox eq_refl)
    as (_ & _ & Hl).
  destruct Hl as [Hp Hd].
  { right. exists 1%nat. vm_compute. repeat constructor. }
  split; [exact Hp|]. rewrite Hd. reflexivity.
Defined.

(** An update whose newer metadata cannot be decrypted is dropped as a
    whole, the agent state of version 4 with it; a message that cannot be
    decrypted is dropped too; the agent state of version 2 that comes
    later is taken, so the client ends below the largest version that was
    announced. *)
Example unreadable_update_is_dropped :
  let c := Inbox.run Episode.unseal Episode.safeParse Some Some
             Episode.nonempty Episode.garbled Episode.inbox in
  Inbox.metadataVersion c = 3
  ∧ Inbox.metadataVersions Episode.unseal Episode.garbled = []
  ∧ Inbox.agentStateVersion c = 2
  ∧ Inbox.agentState c = Some "busy"
  ∧ Inbox.agentStateVersions Episode.garbled = [4; 2]
  ∧ Inbox.pendingMessages c = []
  ∧ Inbox.emitted c = [].
Proof. repeat split; reflexivity. Qed.


(** A request for a method of another scope is not found. *)
Lemma manager_answers_only_its_scope_witness :
  Js.startsWith "s-2:bash" ("s-1" +:+ ":") = false
  ∧ Rpc.handleRequest Episode.wrap Episode.unwrap Episode.errorResponse
      {| Rpc.method := "s-2:bash"; Rpc.params := "ls" |}
      (Rpc.run Episode.registrations (Rpc.create "s-1"))
    = Episode.wrap "error: Method not found".
Proof.
  split; [reflexivity|].
  apply (RpcFacts.manager_answers_only_its_scope Episode.wrap Episode.unwrap
           Episode.errorResponse
           "s-1" Episode.registrations
           {| Rpc.method := "s-2:bash"; Rpc.params := "ls" |}).
  reflexivity.
Defined.

(** After the connect of socket 4 and the registrations, the one handler
    left is announced on socket 4. *)
Lemma handlers_announced_on_connection_witness :
  forallb Rpc.keepsSocket Episode.registrations = true
  ∧ Rpc.socket
      (Rpc.run Episode.registrations
         (Rpc.onSocketConnect 4 Episode.manager)) = Some 4%nat.
Proof.
  split; [reflexivity|].
  destruct (RpcFacts.handlers_announced_on_connection Episode.manager 4
              Episode.registrations eq_refl) as (Hs & _).
  exact Hs.
Defined.

(** A bundle for a data key: zero byte, nonce, ciphertext, tag. *)
Lemma decrypt_encrypt_round_trip_witness :
  length Episode.nonce12 = Encryption.nonceLength Encryption.DataKey
  ∧ ∃ bundle,
      Encryption.encrypt id Episode.secretbox Episode.gcm Episode.nonce12
        [9; 9] Encryption.DataKey [65; 66] = Some bundle
      ∧ Encryption.decrypt Some Episode.secretbox_open Episode.gcm_open
          [9; 9] Encryption.DataKey bundle = Encryption.Value [65; 66]
      ∧ length bundle = 31%nat.
Proof.
  split; [reflexivity|].
  destruct (EncryptionFacts.decrypt_encrypt_round_trip id Some
              Episode.secretbox Episode.secretbox_open Episode.gcm
              Episode.gcm_open Episode.nonce12 [9; 9] Encryption.DataKey
              [65; 66] eq_refl (fun k n p => eq_refl) (fun k n p => eq_refl)
              (fun k n p => eq_refl) (fun d => eq_refl))
    as (bundle & He & Hd & Hl).
  exists bundle. split; [exact He|]. split; [exact Hd|]. exact Hl.
Defined.

(** [QUI=] is the base64 text of two bytes; its URL-safe form is [QUI]. *)
Lemma base64url_restores_the_padding_witness :
  Encryption.plain "QUI" = true
  ∧ (1 < 4)%nat
  ∧ Encryption.base64Standard (Encryption.toBase64Url "QUI=") = "QUI=".
Proof.
  split; [reflexivity|]. split; [lia|].
  apply (EncryptionFacts.base64url_restores_the_padding "QUI" 1);
    [reflexivity|lia|reflexivity].
Defined.

(** The first call of the sample is still the used call [t1] after the
    conversation. *)
Lemma tool_calls_are_kept_witness :
  Episode.toolCalls !! 0%nat
  = Some {| Permission.id := "t1"; Permission.name := "Bash";
            Permission.input := "ls"; Permission.used := true |}
  ∧ ∃ call, Permission.run Episode.conversation Episode.toolCalls !! 0%nat
            = Some call
      ∧ Permission.id call = "t1" ∧ Permission.used call = true.
Proof.
  split; [reflexivity|].
  destruct (PermissionFacts.tool_calls_are_kept Episode.conversation
              Episode.toolCalls 0 _ eq_refl)
    as (call & Hc & Hid & _ & _ & Hu).
  exists call. split; [exact Hc|]. split; [exact Hid|]. exact (Hu eq_refl).
Defined.

(** The daemon of the samples after a quiet hour: the record of its start,
    stamped with the time of the last tick. *)
Lemma heartbeat_keeps_the_startup_record_witness :
  (Lifecycle.startDaemon Sample.setup (Sample.host "1.2.2")).2
  = Lifecycle.AwaitingShutdown
  ∧ forallb (Pulse.calm Sample.setup) Episode.quietHour = true
  ∧ ∃ st,
      Lifecycle.stateFile
        (Lifecycle.startDaemon Sample.setup (Sample.host "1.2.2")).1 = Some st
      ∧ Lifecycle.lastHeartbeat
        <$> Lifecycle.stateFile
              (Pulse.host
                 (Pulse.course Sample.setup Episode.quietHour
                    (Episode.waitingDaemon st)))
        = Some (Some "10:02").
Proof.
  split; [reflexivity|]. split; [reflexivity|].
  destruct (PulseFacts.heartbeat_keeps_the_startup_record Sample.setup
              (Sample.host "1.2.2") Episode.quietHour eq_refl eq_refl)
    as (st & Hst & Hrec & _).
  exists st. split; [exact Hst|].
  unfold Episode.waitingDaemon. rewrite Hrec. reflexivity.
Defined.


(** Version 1.3.0 is on disk: the ticks that follow do nothing, and the
    daemon exits with code 0 when its wait is over. *)
Lemma outdated_daemon_hands_over_witness :
  Pulse.projectVersion (Episode.beat "1.3.0" "10:05")
  ≠ Lifecycle.currentCliVersion Sample.setup
  ∧ forallb Pulse.isTick Episode.quietHour = true
  ∧ Pulse.course Sample.setup Episode.quietHour
      (Pulse.heartbeat Sample.setup (Episode.beat "1.3.0" "10:05")
         (Episode.waitingDaemon Episode.ownRecord))
    = Pulse.heartbeat Sample.setup (Episode.beat "1.3.0" "10:05")
        (Episode.waitingDaemon Episode.ownRecord)
  ∧ Pulse.exited
      (Pulse.meet Sample.setup
         (Pulse.heartbeat Sample.setup (Episode.beat "1.3.0" "10:05")
            (Episode.waitingDaemon Episode.ownRecord))
         Pulse.GraceOver) = Some 0.
Proof.
  split; [compute_done|]. split; [reflexivity|].
  destruct (PulseFacts.outdated_daemon_hands_over Sample.setup
              (Episode.beat "1.3.0" "10:05")
              (Episode.waitingDaemon Episode.ownRecord) Episode.quietHour
              eq_refl eq_refl ltac:(compute_done) eq_refl)
    as (_ & _ & _ & _ & _ & Hcourse & Hexit & _).
  split; [exact Hcourse|exact Hexit].
Defined.

End Episodes.

(** ** Grants: what is allowed without asking *)

Module GrantsFacts.
Import Grants.

#[local] Set Warnings "-clear-no-such-hyp".

Lemma length_append a b :
  String.length (a +:+ b) = (String.length a + String.length b)%nat.
Proof.
  induction a as [|x a IH]; [done|].
  change (String x a +:+ b) with (String x (a +:+ b)). simpl. by rewrite IH.
Qed.

Lemma substring_skip a n m s :
  String.substring (String.length a + n) m (a +:+ s) = String.substring n m s.
Proof.
  induction a as [|x a IH]; [done|].
  change (String x a +:+ s) with (String x (a +:+ s)). simpl. exact IH.
Qed.

Lemma substring_take b c :
  String.substring 0 (String.length b) (b +:+ c) = b.
Proof.
  induction b as [|x b IH]; [by destruct c|].
  change (String x b +:+ c) with (String x (b +:+ c)). simpl. by rewrite IH.
Qed.

Lemma append_empty s : s +:+ "" = s.
Proof.
  induction s as [|x s IH]; [done|].
  change (String x s +:+ "") with (String x (s +:+ "")). by rewrite IH.
Qed.

Lemma substring_all s : String.substring 0 (String.length s) s = s.
Proof. rewrite <- (append_empty s) at 2. apply substring_take. Qed.

Lemma endsWith_append a suffix : endsWith (a +:+ suffix) suffix = true.
Proof.
  unfold endsWith. rewrite length_append.
  apply andb_true_iff. split; [apply Nat.leb_le; lia|].
  replace (String.length a + String.length suffix - String.length suffix)%nat
    with (String.length a + 0)%nat by lia.
  rewrite substring_skip, substring_all. apply String.eqb_refl.
Qed.

Lemma dropLast_append a suffix :
  dropLast (String.length suffix) (a +:+ suffix) = a.
Proof.
  unfold dropLast. rewrite length_append.
  replace (String.length a + String.length suffix - String.length suffix)%nat
    with (String.length a) by lia.
  apply substring_take.
Qed.

(** The pattern on a text of its own form. *)
Lemma bashPattern_form command :
  command ≠ "" → oneLine command = true →
  bashPattern ("Bash(" +:+ command +:+ ")") = Some command.
Proof.
  intros Hne Hone. unfold bashPattern.
  assert (String.length ("Bash(" +:+ command +:+ ")")
          = (6 + String.length command)%nat) as Hlen.
  { rewrite !length_append. simpl. lia. }
  assert (String.substring 5 (String.length ("Bash(" +:+ command +:+ ")") - 6)
            ("Bash(" +:+ command +:+ ")") = command) as ->.
  { rewrite Hlen.
    replace (6 + String.length command - 6)%nat with (String.length command)
      by lia.
    change 5%nat with (String.length "Bash(" + 0)%nat.
    rewrite substring_skip. apply substring_take. }
  rewrite Hone, Hlen.
  assert (String.prefix "Bash(" ("Bash(" +:+ command +:+ ")") = true) as ->
    by apply RpcFacts.prefix_append.
  assert (endsWith ("Bash(" +:+ command +:+ ")") ")" = true) as ->.
  { assert ("Bash(" +:+ command +:+ ")" = ("Bash(" +:+ command) +:+ ")") as ->
      by done.
    apply endsWith_append. }
  destruct command as [|x command]; [done|]. done.
Qed.

(** The pattern wants a character between the parentheses, and none that
    ends a line. *)
Lemma bashPattern_unmatched command :
  command = "" ∨ oneLine command = false →
  bashPattern ("Bash(" +:+ command +:+ ")") = None.
Proof.
  intros Hbad. unfold bashPattern.
  assert (String.length ("Bash(" +:+ command +:+ ")")
          = (6 + String.length command)%nat) as Hlen.
  { rewrite !length_append. simpl. lia. }
  assert (String.substring 5 (String.length ("Bash(" +:+ command +:+ ")") - 6)
            ("Bash(" +:+ command +:+ ")") = command) as ->.
  { rewrite Hlen.
    replace (6 + String.length command - 6)%nat with (String.length command)
      by lia.
    change 5%nat with (String.length "Bash(" + 0)%nat.
    rewrite substring_skip. apply substring_take. }
  rewrite Hlen. destruct Hbad as [-> | ->].
  - by rewrite andb_false_r.
  - by rewrite andb_false_r.
Qed.

(** The three sets only grow under one allowed tool. *)
Lemma allowTool_grows a tool :
  allowedTools a ⊆ allowedTools (allowTool a tool)
  ∧ allowedBashLiterals a ⊆ allowedBashLiterals (allowTool a tool)
  ∧ allowedBashPrefixes a ⊆ allowedBashPrefixes (allowTool a tool)
  ∧ permissionMode (allowTool a tool) = permissionMode a.
Proof.
  unfold allowTool, parseBashPermission.
  destruct (Js.startsWith tool "Bash(" || String.eqb tool "Bash"); simpl;
    [|set_solver].
  destruct (String.eqb tool "Bash"); [done|].
  destruct (bashPattern tool) as [command|]; [|done].
  destruct (endsWith command ":*"); simpl; set_solver.
Qed.

Lemma allowTools_grow tools a :
  allowedTools a ⊆ allowedTools (foldl allowTool a tools)
  ∧ allowedBashLiterals a ⊆ allowedBashLiterals (foldl allowTool a tools)
  ∧ allowedBashPrefixes a ⊆ allowedBashPrefixes (foldl allowTool a tools)
  ∧ permissionMode (foldl allowTool a tools) = permissionMode a.
Proof.
  revert a. induction tools as [|tool tools IH]; intros a; [done|]. simpl.
  destruct (allowTool_grows a tool) as (H1 & H2 & H3 & H4).
  destruct (IH (allowTool a tool)) as (I1 & I2 & I3 & I4).
  repeat split; [set_solver..|congruence].
Qed.

Lemma change_grows a c :
  keepsGrants c = true →
  allowedTools a ⊆ allowedTools (change a c)
  ∧ allowedBashLiterals a ⊆ allowedBashLiterals (change a c)
  ∧ allowedBashPrefixes a ⊆ allowedBashPrefixes (change a c).
Proof.
  destruct c as [tools mode|mode|]; simpl; [| done | done]. intros _.
  unfold granted.
  assert (allowedTools a
          ⊆ allowedTools (match tools with
                          | Some tools0 => foldl allowTool a tools0
                          | None => a
                          end)
          ∧ allowedBashLiterals a
            ⊆ allowedBashLiterals (match tools with
                                   | Some tools0 => foldl allowTool a tools0
                                   | None => a
                                   end)
          ∧ allowedBashPrefixes a
            ⊆ allowedBashPrefixes (match tools with
                                   | Some tools0 => foldl allowTool a tools0
                                   | None => a
                                   end)) as H.
  { destruct tools as [tools|]; [|done].
    destruct (allowTools_grow tools a) as (? & ? & ? & _). done. }
  by destruct mode.
Qed.

Lemma changes_grow cs a :
  forallb keepsGrants cs = true →
  allowedTools a ⊆ allowedTools (changes cs a)
  ∧ allowedBashLiterals a ⊆ allowedBashLiterals (changes cs a)
  ∧ allowedBashPrefixes a ⊆ allowedBashPrefixes (changes cs a).
Proof.
  revert a. induction cs as [|c cs IH]; intros a Hk; [done|].
  simpl in Hk. apply andb_true_iff in Hk as [Hc Hk].
  change (changes (c :: cs) a) with (changes cs (change a c)).
  destruct (change_grows a c Hc) as (H1 & H2 & H3).
  destruct (IH (change a c) Hk) as (I1 & I2 & I3).
  repeat split; set_solver.
Qed.

(** What a list of allowed tools adds for one of its members. *)
Lemma allowTools_member tools tool a :
  tool ∈ tools →
  let a' := foldl allowTool a tools in
  (Js.startsWith tool "Bash(" || String.eqb tool "Bash" = false →
     tool ∈ allowedTools a')
  ∧ (∀ command, tool = "Bash(" +:+ command +:+ ")" →
       command ≠ "" → oneLine command = true →
       if endsWith command ":*"
       then dropLast 2 command ∈ allowedBashPrefixes a'
       else command ∈ allowedBashLiterals a').
Proof.
  revert a. induction tools as [|t tools IH]; intros a Hin;
    [by apply elem_of_nil in Hin|].
  apply elem_of_cons in Hin as [->|Hin]; [|by apply IH].
  cbv zeta. simpl.
  destruct (allowTools_grow tools (allowTool a t)) as (G1 & G2 & G3 & _).
  split.
  - intros Hplain. apply G1. unfold allowTool. rewrite Hplain. simpl.
    set_solver.
  - intros command -> Hne Hone.
    assert (allowTool a ("Bash(" +:+ command +:+ ")")
            = parseBashPermission ("Bash(" +:+ command +:+ ")") a) as Hat.
    { unfold allowTool, Js.startsWith.
      assert (String.prefix "Bash(" ("Bash(" +:+ command +:+ ")") = true) as ->
        by apply RpcFacts.prefix_append.
      done. }
    unfold parseBashPermission in Hat.
    assert (String.eqb ("Bash(" +:+ command +:+ ")") "Bash" = false) as Hnb.
    { apply String.eqb_neq. intros Heq.
      apply (f_equal String.length) in Heq. rewrite !length_append in Heq.
      simpl in Heq. lia. }
    rewrite Hnb, (bashPattern_form command Hne Hone) in Hat.
    destruct (endsWith command ":*"); [apply G3|apply G2]; rewrite Hat; simpl;
      set_solver.
Qed.

Lemma existsb_prefix command prefix (prefixes : gset string) :
  prefix ∈ prefixes → Js.startsWith command prefix = true →
  existsb (fun p => Js.startsWith command p) (elements prefixes) = true.
Proof.
  intros Hin Hs. apply existsb_exists. exists prefix. split; [|done].
  apply list_elem_of_In, elem_of_elements. done.
Qed.


(** X24.  A reset takes back every grant and keeps the mode: afterwards a
    call is allowed at once only by the mode, that is for a tool other
    than [AskUserQuestion] in the mode [bypassPermissions], or in the
    mode [acceptEdits] when the tool edits. *)
Theorem reset_keeps_only_the_mode edit tool command a :
  permissionMode (reset a) = permissionMode a
  ∧ (allowedAtOnce edit tool command (reset a) = true ↔
       tool ≠ "AskUserQuestion"
       ∧ (permissionMode a = BypassPermissions
          ∨ (permissionMode a = AcceptEdits ∧ edit tool = true))).
Proof.
  split; [done|]. unfold allowedAtOnce. simpl.
  assert (∀ b,
    (negb (String.eqb tool "AskUserQuestion") && b = true)
    ↔ (tool ≠ "AskUserQuestion" ∧ b = true)) as Hsplit.
  { intros b. rewrite andb_true_iff, negb_true_iff, String.eqb_neq. done. }
  assert ((match permissionMode a with
           | BypassPermissions => true
           | AcceptEdits => edit tool
           | _ => false
           end = true)
          ↔ (permissionMode a = BypassPermissions
             ∨ (permissionMode a = AcceptEdits ∧ edit tool = true))) as Hmode.
  { destruct (permissionMode a); intuition congruence. }
  destruct (String.eqb tool "Bash"); [destruct command as [c|]|];
    rewrite ?(bool_decide_eq_false_2 (_ ∈ ∅)) by set_solver;
    rewrite ?elements_empty; simpl; by rewrite Hsplit, Hmode.
Qed.

(** The tool stays out of the allowed tools while no answer lists it. *)
Lemma left_out_tools tool cs a :
  Js.startsWith tool "Bash(" || String.eqb tool "Bash" = false →
  forallb (leavesOut tool) cs = true →
  tool ∉ allowedTools a → tool ∉ allowedTools (changes cs a).
Proof.
  intros Hplain. revert a. induction cs as [|c cs IH]; intros a Hl Ha; [done|].
  simpl in Hl. apply andb_true_iff in Hl as [Hc Hl].
  change (changes (c :: cs) a) with (changes cs (change a c)).
  apply IH; [done|].
  destruct c as [tools mode|mode|]; simpl; [| done | set_solver].
  assert (tool ∉ allowedTools (match tools with
                               | Some tools0 => foldl allowTool a tools0
                               | None => a
                               end)) as H.
  { destruct tools as [tools|]; [|done]. simpl in Hc.
    apply negb_true_iff, bool_decide_eq_false in Hc.
    clear IH Hl. revert a Ha. induction tools as [|t tools IH]; intros a Ha;
      [done|].
    simpl. apply IH; [set_solver|].
    assert (t ≠ tool) as Hne by set_solver.
    unfold allowTool, parseBashPermission.
    destruct (Js.startsWith t "Bash(" || String.eqb t "Bash"); simpl;
      [|set_solver].
    destruct (String.eqb t "Bash"); [done|].
    destruct (bashPattern t) as [command|]; [|done].
    by destruct (endsWith command ":*"). }
  unfold granted. by destruct mode.
Qed.

(** X25.  [AskUserQuestion] is never allowed by the mode: in a handler
    whose answers have not listed the tool by name, a call of it is not
    allowed at once, whatever modes were set and whatever else was
    granted. *)
Theorem ask_user_question_is_asked edit command cs :
  forallb (leavesOut "AskUserQuestion") cs = true →
  allowedAtOnce edit "AskUserQuestion" command (changes cs fresh) = false.
Proof.
  intros Hl. unfold allowedAtOnce. simpl.
  rewrite bool_decide_eq_false_2; [done|].
  apply left_out_tools; [done|done|]. simpl. set_solver.
Qed.

End GrantsFacts.

(** ** The grants at work *)

Module GrantEpisodes.
Import Grants.


(** A command of two lines is listed in the Bash form: nothing is granted,
    and the command is asked about the next time. *)
Example command_of_two_lines_is_not_granted :
  let command := "git status" +:+ String "010" "git log" in
  oneLine command = false
  ∧ granted (Some ["Bash(" +:+ command +:+ ")"]) None fresh = fresh
  ∧ allowedAtOnce Episode.noEdit "Bash" (Some command)
      (granted (Some ["Bash(" +:+ command +:+ ")"]) None fresh) = false.
Proof. repeat split; reflexivity. Qed.

(** The sample answers never list [AskUserQuestion]: it is asked about
    although the mode was [bypassPermissions] for a while. *)
Lemma ask_user_question_is_asked_witness :
  forallb (leavesOut "AskUserQuestion") Episode.answers = true
  ∧ allowedAtOnce Episode.noEdit "AskUserQuestion" None
      (changes Episode.answers fresh) = false.
Proof.
  split; [reflexivity|].
  apply (GrantsFacts.ask_user_question_is_asked Episode.noEdit None
           Episode.answers).
  reflexivity.
Defined.

End GrantEpisodes.
